(** * Node readiness and consistency coordination of the ovn-kubernetes node agent

    A shallow embedding of the coordination logic of
    [go-controller/pkg/node/default_node_network_controller.go] and
    [go-controller/pkg/node/heartbeat_dpu.go]:

    - the zone-match wait and the interconnect upgrade barrier of [Start],
    - the two conntrack reconciliation passes
      ([syncConntrackForExternalGateways] and
      [reconcileConntrackUponEndpointSliceEvents]),
    - the host-side lease check [isHeartBeatValid] and the two heartbeat
      loops built on the lease client,
    - the waits of [Start] for the node's logical switch and for the DPU,
    - the periodic sweep of stale external-gateway entries,
    - the device-plugin resources of the management port and the string of
      flow collectors.

    Calls that leave the process (the cluster object store, [ovn-sbctl], the
    kernel connection tracker, the clock) are answered by an explicit
    environment; calls that change something outside are recorded, in program
    order, in a trace of events. *)

From Stdlib Require Import ZArith Lia Ascii String.
From stdpp Require Import gmap strings list fin_maps.

Local Open Scope Z_scope.
Local Open Scope string_scope.
Local Open Scope list_scope.

(** ** Go values shared by the two files *)

Module Go.

(** What the code asks of an error besides its message: [kerrors.IsNotFound],
    [errors.Is (_, util.ErrNoPodIPFound)], [util.IsAnnotationNotSetError]. *)
Inductive errKind : Type := Plain | NotFound | NoPodIPFound | AnnotationNotSet.

(** A Go [error].  [fmt.Errorf] and [errors.New] build a [mkError];
    [apierrors.NewAggregate] builds an [Aggregate]. *)
#[local] Set Warnings "-register-all".
Inductive error : Type :=
| mkError (msg : string) (kind : errKind)
| Aggregate (errs : list error).

(** [fmt.Errorf] with [%v] verbs only: the result wraps nothing. *)
Definition Errorf (msg : string) : error := mkError msg Plain.

Definition kindOf (e : error) : errKind :=
  match e with
  | mkError _ k => k
  | Aggregate _ => Plain
  end.

Definition IsNotFound (e : error) : bool :=
  match kindOf e with NotFound => true | _ => false end.

Definition IsErrNoPodIPFound (e : error) : bool :=
  match kindOf e with NoPodIPFound => true | _ => false end.

Definition IsAnnotationNotSetError (e : error) : bool :=
  match kindOf e with AnnotationNotSet => true | _ => false end.

(** The messages an aggregate visits: those of its elements, an element that
    is an aggregate being visited in its turn. *)
Fixpoint messages (e : error) : list string :=
  match e with
  | mkError msg _ => [msg]
  | Aggregate errs => flat_map messages errs
  end.

(** The messages not seen before, in the order of their first occurrence. *)
Fixpoint unseen (seen msgs : list string) : list string :=
  match msgs with
  | [] => []
  | msg :: rest =>
      if existsb (String.eqb msg) seen then unseen seen rest
      else msg :: unseen (msg :: seen) rest
  end.

(** [err.Error ()].  An aggregate of one error prints that error; a larger
    one prints its distinct messages, between brackets when there are several. *)
Fixpoint Error (e : error) : string :=
  match e with
  | mkError msg _ => msg
  | Aggregate errs =>
      match errs with
      | [] => ""
      | [e1] => Error e1
      | _ =>
          match unseen [] (flat_map messages errs) with
          | [msg] => msg
          | msgs => "[" +:+ String.concat ", " msgs +:+ "]"
          end
      end
  end.

(** [fmt.Errorf] with one [%w] verb: the wrapped error is still seen through
    the wrapper. *)
Definition Errorw (msg : string) (wrapped : error) : error :=
  mkError msg (kindOf wrapped).

(** [%v] of an [error] variable that may hold [nil]. *)
Definition fmtErr (e : option error) : string :=
  match e with
  | Some e' => Error e'
  | None => "<nil>"
  end.

(** [apierrors.NewAggregate]: [nil] for an empty list, otherwise one error
    holding every element. *)
Definition NewAggregate (errs : list error) : option error :=
  match errs with
  | [] => None
  | _ => Some (Aggregate errs)
  end.

(** The result of a Go function that may dereference a nil pointer. *)
Inductive outcome (A : Type) : Type :=
| Returned (a : A)
| Panic.
Arguments Returned {A} a.
Arguments Panic {A}.

(** [strings.HasPrefix]. *)
Fixpoint HasPrefix (s prefix : string) {struct prefix} : bool :=
  match prefix with
  | EmptyString => true
  | String c prefix' =>
      match s with
      | EmptyString => false
      | String d s' => if Ascii.eqb c d then HasPrefix s' prefix' else false
      end
  end.

(** [strings.Contains]: some suffix of [s] starts with [substr]. *)
Fixpoint Contains (s substr : string) : bool :=
  HasPrefix s substr ||
  match s with
  | EmptyString => false
  | String _ s' => Contains s' substr
  end.

(** [strings.Split (s, ",")], carrying the piece being read in [cur]: a string
    with [n] commas gives [n + 1] pieces, the empty string gives one empty
    piece. *)
Fixpoint SplitFrom (cur s : string) : list string :=
  match s with
  | EmptyString => [cur]
  | String c s' =>
      if Ascii.eqb c ","%char then cur :: SplitFrom "" s'
      else SplitFrom (cur +:+ String c "") s'
  end.

Definition SplitComma (s : string) : list string := SplitFrom "" s.

(** The double-quote character, for messages that quote a word. *)
Definition quote : string := String (ascii_of_nat 34) "".

(** Two's-complement wrap-around of an [int64] result. *)
Definition wrap64 (z : Z) : Z := (z + 2 ^ 63) mod 2 ^ 64 - 2 ^ 63.

Definition int32_range (z : Z) : Prop := - 2 ^ 31 <= z < 2 ^ 31.

End Go.

Export Go.

(** ** [heartbeat_dpu.go] *)

Module Heartbeat.

(** [coordinationv1.LeaseSpec]: every field is a pointer, [None] is [nil].
    Times are nanoseconds since the epoch. *)
Record LeaseSpec : Type := {
  HolderIdentity : option string;
  LeaseDurationSeconds : option Z;
  AcquireTime : option Z;
  RenewTime : option Z
}.

Record Lease : Type := {
  Name : string;
  Spec : LeaseSpec
}.

(** [time.Second * time.Duration (d)], an [int64] product. *)
Definition seconds (d : Z) : Z := wrap64 (1000000000 * d).

(** [renew.Add (time.Second * time.Duration (d)).Before (now)]. *)
Definition expiredAt (renew d now : Z) : bool := Z.ltb (renew + seconds d) now.

(** The [for _, lease := range leases.Items] loop of [isHeartBeatValid];
    [clock k] is what the [k]-th call of [time.Now ()] returns, and [k] counts
    the leases already examined. *)
Fixpoint checkLeases (clock : nat -> Z) (k : nat) (items : list Lease)
  : outcome (bool * option error) :=
  match items with
  | [] => Returned (true, None)
  | lease :: rest =>
      match RenewTime (Spec lease), LeaseDurationSeconds (Spec lease) with
      | Some renew, Some d =>
          if expiredAt renew d (clock k)
          then Returned (false, Some (Errorf ("lease " +:+ Name lease +:+ " is expired")))
          else checkLeases clock (S k) rest
      | _, _ => Panic
      end
  end.

(** [isHeartBeatValid (ctx, client, ns)]; [listed] is the answer of
    [client.CoordinationV1 ().Leases (ns).List]. *)
Definition isHeartBeatValid (listed : error + list Lease) (ns : string)
    (clock : nat -> Z) : outcome (bool * option error) :=
  match listed with
  | inl err => Returned (false, Some err)
  | inr items =>
      if (length items =? 0)%nat
      then Returned (false, Some (Errorf ("no lease found in namespace " +:+ ns)))
      else checkLeases clock 0 items
  end.

(** Both pointers the loop dereferences are set. *)
Definition set (l : Lease) : Prop :=
  is_Some (RenewTime (Spec l)) /\ is_Some (LeaseDurationSeconds (Spec l)).

(** The Go type of the duration field, [*int32]. *)
Definition typed (l : Lease) : Prop :=
  forall d, LeaseDurationSeconds (Spec l) = Some d -> int32_range d.

(** [renewTime + leaseDurationSeconds < now], in nanoseconds. *)
Definition expired (l : Lease) (now : Z) : Prop :=
  exists renew d,
    RenewTime (Spec l) = Some renew /\
    LeaseDurationSeconds (Spec l) = Some d /\
    renew + 1000000000 * d < now.

End Heartbeat.

(** ** The cluster objects and the outside world of
       [default_node_network_controller.go] *)

Module Cluster.

(** [config.OvnKubeNode.Mode]. *)
Inductive NodeMode : Type := NodeModeFull | NodeModeDPU | NodeModeDPUHost.

(** The two database authentication configurations, [config.OvnNorth] and
    [config.OvnSouth]. *)
Inductive OvnDB : Type := OvnNorth | OvnSouth.

(** [kapi.Protocol]. *)
Inductive Protocol : Type := ProtocolTCP | ProtocolUDP | ProtocolSCTP.

(** [netlink.ConntrackFilterType], the two the code passes. *)
Inductive ConntrackFilterType : Type := ConntrackOrigDstIP | ConntrackReplyAnyIP.

#[export] Instance Protocol_eq_dec : EqDecision Protocol.
Proof. solve_decision. Defined.

(** The process-wide configuration the code reads. *)
Record Config : Type := {
  Mode : NodeMode;
  Zone : string;                 (* config.Default.Zone *)
  EnableInterconnect : bool;     (* config.OVNKubernetesFeature.EnableInterconnect *)
  IPv4Mode : bool;
  IPv6Mode : bool
}.

(** A [*net.IPNet]: its printed form and what [utilnet.IsIPv6CIDR] says. *)
Record IPNet : Type := {
  cidr : string;
  IsIPv6CIDR : bool
}.

(** A [kapi.Node] with what the helpers of package [util] read from its
    annotations. *)
Record Node : Type := {
  nodeName : string;
  GetNodeZone : string;
  NoHostSubnet : bool;
  ParseNodeHostSubnetAnnotation : error + list IPNet;
  HasNodeMigratedZone : bool
}.

(** A [kapi.Service]. *)
Record Service : Type := {
  svcNamespace : string;
  svcName : string;
  ServiceTypeHasClusterIP : bool;
  IsClusterIPSet : bool
}.

(** A [kapi.Pod]; [GetPodIPsOfNetwork] is the answer of the helper of that
    name on the default network, addresses in printed form. *)
Record Pod : Type := {
  podNamespace : string;
  podName : string;
  podNodeName : string;          (* Spec.NodeName *)
  PodScheduled : bool;
  PodCompleted : bool;
  PodWantsHostNetwork : bool;
  GetPodIPsOfNetwork : list string * option error
}.

(** A [kapi.Namespace]. *)
Record Namespace : Type := {
  nsName : string;
  Annotations : gmap string string
}.

(** [ns.Annotations[key]]: a missing key reads as the empty string. *)
Definition annotation (ns : Namespace) (key : string) : string :=
  default "" (Annotations ns !! key).

(** [discovery.EndpointPort]: protocol and port are pointers. *)
Record EndpointPort : Type := {
  portProtocol : option Protocol;
  portPort : option Z
}.

Record Endpoint : Type := {
  Addresses : list string
}.

(** A [discovery.EndpointSlice]. *)
Record EndpointSlice : Type := {
  epsNamespace : string;
  epsName : string;
  epsLabels : gmap string string;
  Ports : list EndpointPort;
  Endpoints : list Endpoint
}.

(** What the agent does to the outside, in program order. *)
Inductive event : Type :=
| EvGetNodes
| EvGetServices
| EvGetAllPods
| EvRunOVNSbctl (args : list string)
| EvSetNodeZoneMigrated (zone : string)
| EvAnnotatorRun
| EvSetDBAuth (db : OvnDB)
| EvDeleteConntrack (ip : string) (port : Z) (proto : Protocol)
    (filter : ConntrackFilterType) (labels : list (list Byte.byte))
| EvDeleteConntrackServicePort (ip : string) (port : Z) (proto : Protocol)
    (filter : ConntrackFilterType) (labels : list (list Byte.byte)).

(** The cluster and the southbound database as one polling pass sees them. *)
Record World : Type := {
  GetNodes : error + list Node;
  GetServices : error + list Service;
  GetAllPods : error + list Pod;
  RunOVNSbctl : list string -> string * string * option error
}.

End Cluster.

Export Cluster.

(** ** Code that records what it does and may end the process *)

Module Trace.

(** A computation with its trace. *)
Definition W (A : Type) : Type := list event * A.

Definition ret {A} (a : A) : W A := ([], a).

Definition bind {A B} (m : W A) (f : A -> W B) : W B :=
  let '(t1, a) := m in
  let '(t2, b) := f a in
  (t1 ++ t2, b).

Definition emit (e : event) : W unit := ([e], tt).

(** The events that only read the southbound database. *)
Definition isSbctl (e : event) : Prop :=
  match e with
  | EvRunOVNSbctl _ => True
  | _ => False
  end.

(** The events that only read the cluster or the southbound database. *)
Definition isQuery (e : event) : Prop :=
  match e with
  | EvGetNodes | EvGetServices | EvGetAllPods | EvRunOVNSbctl _ => True
  | _ => False
  end.

(** How a stretch of [Start] ends: it falls through to the next statement, or
    [klog.Exitf] has ended the process with a message. *)
Inductive ending : Type :=
| Continues
| Exits (msg : string).

End Trace.

Export Trace.

Notation "x <~ m ;; k" := (bind m (fun x => k))
  (at level 100, m at next level, right associativity).
Notation "m ;;; k" := (bind m (fun _ => k))
  (at level 100, right associativity).

(** ** [wait.PollUntilContextTimeout] *)

Module Wait.

(** [time.Duration], in nanoseconds. *)
Definition Millisecond : Z := 1000000.
Definition Second : Z := 1000 * Millisecond.

(** With [immediate = true] the condition runs at once and then on every tick
    of [interval] for as long as the deadline [timeout] has not passed: at
    the instants [0], [interval], [2 * interval], ... before [timeout], a run
    of the condition taking no time of its own. *)
Definition attempts (interval timeout : Z) : nat :=
  Z.to_nat ((timeout + interval - 1) / interval).

(** [n] more runs of the condition, the next one being pass [k].  The
    condition works on the variables [S] its closure captures; it ends the
    wait when it answers [true]. *)
Fixpoint pollFrom {S : Type} (condition : nat -> S -> W (S * bool))
    (n k : nat) (vars : S) : W (S * option error) :=
  match n with
  | O => ret (vars, Some (Errorf "context deadline exceeded"))
  | Datatypes.S n' =>
      r <~ condition k vars ;;
      let '(vars', done) := r in
      if done then ret (vars', None)
      else pollFrom condition n' (Datatypes.S k) vars'
  end.

(** [wait.PollUntilContextTimeout (ctx, interval, timeout, true, condition)]
    for a condition that never returns an error of its own. *)
Definition PollUntilContextTimeout {S : Type} (interval timeout : Z)
    (condition : nat -> S -> W (S * bool)) (vars : S) : W (S * option error) :=
  pollFrom condition (attempts interval timeout) 0 vars.

(** The variables and the answer each pass of a wait leaves, with its trace:
    the passes [pollFrom] makes, one by one. *)
Fixpoint passes {S : Type} (condition : nat -> S -> W (S * bool))
    (n k : nat) (vars : S) : list (list event * (S * bool)) :=
  match n with
  | O => []
  | Datatypes.S n' =>
      let r := condition k vars in
      r :: (if snd (snd r) then [] else passes condition n' (Datatypes.S k) (fst (snd r)))
  end.

End Wait.

Export Wait.

(** ** [Start]: the zone-match wait and the interconnect upgrade barrier *)

Module Controller.

Section Start.

(** [types.OvnDefaultZone] and [util.GetLogicalPortName], declared in other
    packages of the repository. *)
Variable OvnDefaultZone : string.
Variable GetLogicalPortName : string -> string -> string.

(** The configuration, the node's own name [nc.name], and the world as the
    [k]-th pass of a wait finds it. *)
Variable cfg : Config.
Variable name : string.
Variable world : nat -> World.

(** The answers of the node annotator and of [auth.SetDBAuth]. *)
Variable SetNodeZoneMigrated : string -> option error.
Variable AnnotatorRun : option error.
Variable SetDBAuth : OvnDB -> option error.

(** [util.RunOVNSbctl (args...)] during pass [k]. *)
Definition sbctl (k : nat) (args : list string) : W (string * string * option error) :=
  emit (EvRunOVNSbctl args) ;;; ret (RunOVNSbctl (world k) args).

Definition noKeyMessage : string :=
  "ovn-sbctl: no key " +:+ quote +:+ "name" +:+ quote +:+ " in SB_Global record".

(** [getOVNSBZone]: the zone stored in the southbound database, the default
    zone when [options:name] is not set. *)
Definition getOVNSBZone (k : nat) : W (string * option error) :=
  r <~ sbctl k ["get"; "SB_Global"; "."; "options:name"] ;;
  let '(dbZone, stderr, err) := r in
  match err with
  | Some e =>
      if Contains stderr noKeyMessage then ret (OvnDefaultZone, None)
      else ret ("", Some e)
  | None => ret (dbZone, None)
  end.

(** The variables of [Start] the zone-match closure assigns. *)
Record zoneVars : Type := {
  sbZone : string;
  zoneErr : option error;
  zoneErr1 : option error
}.

Definition zoneVars0 : zoneVars :=
  {| sbZone := ""; zoneErr := None; zoneErr1 := None |}.

(** The closure polled at lines 719-731. *)
Definition zoneCondition (k : nat) (vars : zoneVars) : W (zoneVars * bool) :=
  r <~ getOVNSBZone k ;;
  let '(zone, err) := r in
  match err with
  | Some e =>
      ret ({| sbZone := zone; zoneErr := err;
              zoneErr1 := Some (Errorw
                ("failed to get the zone name from the OVN Southbound db server, err : "
                 +:+ Error e) e) |}, false)
  | None =>
      if negb (String.eqb (Zone cfg) zone)
      then ret ({| sbZone := zone; zoneErr := err;
                   zoneErr1 := Some (Errorf
                     ("node " +:+ name +:+ " zone " +:+ Zone cfg
                      +:+ " mismatch with the Southbound zone " +:+ zone)) |}, false)
      else ret ({| sbZone := zone; zoneErr := err; zoneErr1 := zoneErr1 vars |}, true)
  end.

Definition zoneInterval : Z := 500 * Millisecond.
Definition zoneTimeout : Z := 300 * Second.

(** Lines 710-734: the zone [Start] goes on with, or the error it returns. *)
Definition Start_zoneMatch : W (string * option error) :=
  match Mode cfg with
  | NodeModeDPUHost => ret (Zone cfg, None)
  | _ =>
      r <~ PollUntilContextTimeout zoneInterval zoneTimeout zoneCondition zoneVars0 ;;
      let '(vars, err) := r in
      match err with
      | Some e =>
          ret (sbZone vars, Some (Errorf
            ("timed out waiting for the node zone " +:+ Zone cfg
             +:+ " to match the OVN Southbound db zone, err: " +:+ Error e
             +:+ ", err1: " +:+ fmtErr (zoneErr1 vars))))
      | None => ret (sbZone vars, None)
      end
  end.

(** *** The zone-match wait, pass by pass *)

Definition zoneQuery : event := EvRunOVNSbctl ["get"; "SB_Global"; "."; "options:name"].

(** What pass [k] reads: a zone, or the error of the read. *)
Definition zoneRead (k : nat) : string * option error := snd (getOVNSBZone k).

(** Pass [k] reads the desired zone. *)
Definition matches (k : nat) : Prop := zoneRead k = (Zone cfg, None).

(** The reason a pass that does not match leaves in [err1]. *)
Definition missErr (k : nat) : error :=
  match zoneRead k with
  | (_, Some e) =>
      Errorw ("failed to get the zone name from the OVN Southbound db server, err : "
              +:+ Error e) e
  | (zone, None) =>
      Errorf ("node " +:+ name +:+ " zone " +:+ Zone cfg
              +:+ " mismatch with the Southbound zone " +:+ zone)
  end.

Definition missVars (k : nat) : zoneVars :=
  {| sbZone := fst (zoneRead k); zoneErr := snd (zoneRead k);
     zoneErr1 := Some (missErr k) |}.

(** The zone read by the last pass that read one, if any, among the first
    [n] passes. *)
Fixpoint lastObservedZone (n : nat) : option string :=
  match n with
  | O => None
  | Datatypes.S n' =>
      match zoneRead n' with
      | (zone, None) => Some zone
      | (_, Some _) => lastObservedZone n'
      end
  end.

(** Lines 715 and 737: whether [Start] points the database credentials at
    the databases right after the zone-match wait; [node] is the object
    fetched at line 697. *)
Definition earlyAuthGuard (sbZone : string) (node : Node) : bool :=
  match Mode cfg with NodeModeDPUHost => false | _ => true end
  && (negb (EnableInterconnect cfg)
      || String.eqb sbZone OvnDefaultZone
      || HasNodeMigratedZone node).

(** [checkOVNSBNodeLRSR]: the static route for [nodeSubnet] is in the
    southbound database. *)
Definition checkOVNSBNodeLRSR (k : nat) (nodeSubnet : IPNet) : W bool :=
  v6 <~ (if IPv6Mode cfg && IsIPv6CIDR nodeSubnet then
           r <~ sbctl k ["--bare"; "--columns"; "_uuid"; "find"; "logical_flow";
                         "match=" +:+ quote +:+ "reg7 == 0 && ip6.dst == "
                         +:+ cidr nodeSubnet +:+ quote] ;;
           let '(stdout, stderr, err) := r in
           ret (bool_decide (err = None) && String.eqb stderr ""
                && negb (String.eqb stdout ""))
         else ret true) ;;
  v4 <~ (if IPv4Mode cfg && negb (IsIPv6CIDR nodeSubnet) then
           r <~ sbctl k ["--bare"; "--columns"; "_uuid"; "find"; "logical_flow";
                         "match=" +:+ quote +:+ "reg7 == 0 && ip4.dst == "
                         +:+ cidr nodeSubnet +:+ quote] ;;
           let '(stdout, stderr, err) := r in
           ret (bool_decide (err = None) && String.eqb stderr ""
                && negb (String.eqb stdout ""))
         else ret true) ;;
  ret (v6 && v4).

(** [fetchLBNames]: the printed names of all load balancers; on failure the
    output is returned all the same. *)
Definition fetchLBNames (k : nat) : W string :=
  r <~ sbctl k ["--bare"; "--columns"; "name"; "find"; "Load_Balancer"] ;;
  let '(stdout, stderr, err) := r in
  ret stdout.

(** [lbExists]. *)
Definition lbExists (lbNames namespace name : string) : bool :=
  let stitchedServiceName := "Service_" +:+ namespace +:+ "/" +:+ name in
  Contains lbNames stitchedServiceName.

(** [portExists]. *)
Definition portExists (k : nat) (namespace name : string) : W bool :=
  let lspName := "logical_port=" +:+ GetLogicalPortName namespace name in
  r <~ sbctl k ["--bare"; "--columns"; "_uuid"; "find"; "Port_Binding"; lspName] ;;
  let '(stdout, stderr, err) := r in
  ret (bool_decide (err = None) && String.eqb stderr "" && negb (String.eqb stdout "")).

(** The function-local flags of the barrier and the last recorded reason for
    not being ready. *)
Record hackVars : Type := {
  syncNodes : bool;
  syncServices : bool;
  syncPods : bool;
  err1 : option error
}.

Definition hackVars0 : hackVars :=
  {| syncNodes := false; syncServices := false; syncPods := false; err1 := None |}.

Definition setErr1 (vars : hackVars) (e : error) : hackVars :=
  {| syncNodes := syncNodes vars; syncServices := syncServices vars;
     syncPods := syncPods vars; err1 := Some e |}.

(** The inner loop of lines 887-892; [Some e] stands for
    [err1 = e; return false, nil]. *)
Fixpoint subnetsLoop (k : nat) (node : Node) (nodeSubnets : list IPNet)
  : W (option error) :=
  match nodeSubnets with
  | [] => ret None
  | nodeSubnet :: rest =>
      found <~ checkOVNSBNodeLRSR k nodeSubnet ;;
      if negb found
      then ret (Some (Errorf ("upgrade hack: unable to find LRSR for node "
                              +:+ nodeName node)))
      else subnetsLoop k node rest
  end.

(** The loop over [nodes.Items], lines 876-895. *)
Fixpoint nodesLoop (k : nat) (nodes : list Node) : W (option error) :=
  match nodes with
  | [] => ret None
  | node :: rest =>
      if negb (String.eqb name (nodeName node))
         && negb (String.eqb (GetNodeZone node) (Zone cfg))
         && negb (NoHostSubnet node)
      then
        match ParseNodeHostSubnetAnnotation node with
        | inl err =>
            if IsAnnotationNotSetError err then nodesLoop k rest
            else ret (Some (Errorf ("unable to fetch node-subnet annotation for node "
                                    +:+ nodeName node +:+ ": err, " +:+ Error err)))
        | inr nodeSubnets =>
            r <~ subnetsLoop k node nodeSubnets ;;
            match r with
            | Some e => ret (Some e)
            | None => nodesLoop k rest
            end
        end
      else nodesLoop k rest
  end.

(** The body of [if !syncNodes], lines 871-897.  The boolean tells whether the
    closure goes on to the next block. *)
Definition nodesBlock (k : nat) (vars : hackVars) : W (hackVars * bool) :=
  emit EvGetNodes ;;;
  match GetNodes (world k) with
  | inl err =>
      ret (setErr1 vars (Errorf ("upgrade hack: error retrieving node " +:+ name
                                 +:+ ": " +:+ Error err)), false)
  | inr nodes =>
      r <~ nodesLoop k nodes ;;
      match r with
      | Some e => ret (setErr1 vars e, false)
      | None =>
          ret ({| syncNodes := true; syncServices := syncServices vars;
                  syncPods := syncPods vars; err1 := err1 vars |}, true)
      end
  end.

(** The loop over the services, lines 907-915: [false] stands for
    [return false, nil]. *)
Fixpoint servicesLoop (lbNames : string) (services : list Service) : bool :=
  match services with
  | [] => true
  | s :: rest =>
      if negb (ServiceTypeHasClusterIP s) || negb (IsClusterIPSet s)
      then servicesLoop lbNames rest
      else if negb (lbExists lbNames (svcNamespace s) (svcName s)) then false
      else servicesLoop lbNames rest
  end.

(** The body of [if !syncServices], lines 901-917. *)
Definition servicesBlock (k : nat) (vars : hackVars) : W (hackVars * bool) :=
  emit EvGetServices ;;;
  match GetServices (world k) with
  | inl err =>
      ret (setErr1 vars (Errorf ("upgrade hack: error retrieving the services "
                                 +:+ Error err)), false)
  | inr services =>
      lbNames <~ fetchLBNames k ;;
      if servicesLoop lbNames services
      then ret ({| syncNodes := syncNodes vars; syncServices := true;
                   syncPods := syncPods vars; err1 := err1 vars |}, true)
      else ret (vars, false)
  end.

(** The loop over the pods, lines 925-936. *)
Fixpoint podsLoop (k : nat) (pods : list Pod) : W bool :=
  match pods with
  | [] => ret true
  | p :: rest =>
      if negb (PodScheduled p) || PodCompleted p || PodWantsHostNetwork p
      then podsLoop k rest
      else if negb (String.eqb (podNodeName p) name) then podsLoop k rest
      else
        found <~ portExists k (podNamespace p) (podName p) ;;
        if negb found then ret false else podsLoop k rest
  end.

(** The body of [if !syncPods], lines 920-938. *)
Definition podsBlock (k : nat) (vars : hackVars) : W (hackVars * bool) :=
  emit EvGetAllPods ;;;
  match GetAllPods (world k) with
  | inl err =>
      ret (setErr1 vars (Errorf ("upgrade hack: error retrieving the services "
                                 +:+ Error err)), false)
  | inr pods =>
      ok <~ podsLoop k pods ;;
      if ok
      then ret ({| syncNodes := syncNodes vars; syncServices := syncServices vars;
                   syncPods := true; err1 := err1 vars |}, true)
      else ret (vars, false)
  end.

(** One block of the closure, skipped when its flag is already set. *)
Definition guarded (flag : hackVars -> bool)
    (block : hackVars -> W (hackVars * bool)) (vars : hackVars)
  : W (hackVars * bool) :=
  if flag vars then ret (vars, true) else block vars.

(** The closure polled at lines 868-941: the three blocks in order, left at
    the first one that is not ready. *)
Definition hackCondition (k : nat) (vars : hackVars) : W (hackVars * bool) :=
  r1 <~ guarded syncNodes (nodesBlock k) vars ;;
  let '(vars1, go1) := r1 in
  if negb go1 then ret (vars1, false) else
  r2 <~ guarded syncServices (servicesBlock k) vars1 ;;
  let '(vars2, go2) := r2 in
  if negb go2 then ret (vars2, false) else
  r3 <~ guarded syncPods (podsBlock k) vars2 ;;
  let '(vars3, go3) := r3 in
  if negb go3 then ret (vars3, false) else
  ret (vars3, true).

Definition hackInterval : Z := 500 * Millisecond.
Definition hackTimeout : Z := 300 * Second.

(** The loop over the two authentication configurations, lines 952-956. *)
Fixpoint authLoop (auths : list OvnDB) : W ending :=
  match auths with
  | [] => ret Continues
  | auth :: rest =>
      emit (EvSetDBAuth auth) ;;;
      match SetDBAuth auth with
      | Some _ =>
          ret (Exits "Upgrade hack: Unable to set the authentication towards OVN local dbs")
      | None => authLoop rest
      end
  end.

(** Whether [Start] enters the barrier, line 864. *)
Definition hackGuard (sbZone : string) (node : Node) : bool :=
  match Mode cfg with NodeModeDPUHost => false | _ => true end
  && EnableInterconnect cfg
  && negb (String.eqb sbZone OvnDefaultZone)
  && negb (HasNodeMigratedZone node).

(** Lines 863-958.  [klog.Exitf] ends the process; the messages render an
    error by its text. *)
Definition Start_upgradeHack (sbZone : string) (node : Node) : W ending :=
  if hackGuard sbZone node then
    r <~ PollUntilContextTimeout hackInterval hackTimeout hackCondition hackVars0 ;;
    let '(vars, err) := r in
    match err with
    | Some e =>
        ret (Exits ("Upgrade hack: Timed out waiting for the remote ovnkube-controller to be ready even after 5 minutes, err : "
                    +:+ Error e +:+ ", " +:+ fmtErr (err1 vars)))
    | None =>
        emit (EvSetNodeZoneMigrated sbZone) ;;;
        match SetNodeZoneMigrated sbZone with
        | Some e =>
            ret (Exits ("Upgrade hack: failed to set node zone annotation for node "
                        +:+ name +:+ ": " +:+ Error e))
        | None =>
            emit EvAnnotatorRun ;;;
            match AnnotatorRun with
            | Some e =>
                ret (Exits ("Upgrade hack: failed to set node " +:+ name
                            +:+ " annotations: " +:+ Error e))
            | None => authLoop [OvnNorth; OvnSouth]
            end
        end
    end
  else ret Continues.

End Start.

End Controller.

(** ** The conntrack reconciliation passes *)

Module Conntrack.

Section Reconcile.

(** The two annotation keys, declared in package [util]. *)
Variable ExternalGatewayPodIPsAnnotation : string.
Variable RoutingExternalGWsAnnotation : string.

(** The collaborators of the external-gateway pass: the policy controller,
    [utilnet.IsIPv6String], address resolution (of [net.ParseIP (gwIP)]), the
    pod informer and the connection tracker. *)
Variable GetAdminPolicyBasedExternalRouteIPsForTargetNamespace :
  string -> error + gset string.
Variable IsIPv6String : string -> bool.
Variable GetMACAddressFromARP : string -> error + list Byte.byte.
Variable GetPods : string -> error + list Pod.
Variable DeleteConntrack :
  string -> Z -> Protocol -> ConntrackFilterType -> list (list Byte.byte) -> option error.

(** The collaborators of the endpoint-slice pass. *)
Variable ServiceNamespacedNameFromEndpointSlice : EndpointSlice -> error + string * string.
Variable GetService : string -> string -> error + Service.
Variable DoesEndpointSliceContainEndpoint :
  EndpointSlice -> string -> Z -> Protocol -> option Service -> bool.
Variable ParseIPSloppy : string -> string.
Variable DeleteConntrackServicePort :
  string -> Z -> Protocol -> ConntrackFilterType -> list (list Byte.byte) -> option error.

(** [[]byte ("does-not-contain-anything")]. *)
Definition sentinel : list Byte.byte := list_byte_of_string "does-not-contain-anything".

(** The loop of lines 1380-1382,
    [for i, j := 0, len(hwAddr)-1; i < j; i, j = i+1, j-1], which swaps
    [hwAddr[i]] and [hwAddr[j]] in place; [fuel] bounds the number of rounds,
    and both indices are within the slice when [reverse] starts the loop. *)
Fixpoint reverseLoop (fuel i j : nat) (hwAddr : list Byte.byte) : list Byte.byte :=
  match fuel with
  | O => hwAddr
  | S fuel' =>
      if (i <? j)%nat then
        match hwAddr !! i, hwAddr !! j with
        | Some a, Some b => reverseLoop fuel' (S i) (j - 1) (<[j := a]> (<[i := b]> hwAddr))
        | _, _ => hwAddr
        end
      else hwAddr
  end.

Definition reverse (hwAddr : list Byte.byte) : list Byte.byte :=
  reverseLoop (length hwAddr) 0 (length hwAddr - 1) hwAddr.

(** The body of one resolving goroutine, lines 1369-1385: a resolved
    address is stored, reversed, under its gateway IP. *)
Definition resolve (gwIP : string) (validMACs : gmap string (list Byte.byte))
  : gmap string (list Byte.byte) :=
  if negb (String.eqb gwIP "") && negb (IsIPv6String gwIP) then
    match GetMACAddressFromARP gwIP with
    | inl _ => validMACs
    | inr hwAddr =>
        if (0 <? length hwAddr)%nat then <[gwIP := reverse hwAddr]> validMACs
        else validMACs
    end
  else validMACs.

(** All goroutines joined: every one stores under a key of its own, so the
    map they leave does not depend on how they interleave. *)
Definition resolveAll (gatewayIPs : gset string) : gmap string (list Byte.byte) :=
  foldr resolve ∅ (elements gatewayIPs).

(** Lines 1390-1400: the allow-list, the sentinel when nothing resolved. *)
Definition allowList (validMACs : gmap string (list Byte.byte)) : list (list Byte.byte) :=
  let validNextHopMACs := (map_to_list validMACs).*2 in
  if (length validNextHopMACs =? 0)%nat then validNextHopMACs ++ [sentinel]
  else validNextHopMACs.

(** Lines 1361-1362: the two [gatewayIPs.Insert] of the split annotations. *)
Definition insertAnnotations (newNs : Namespace) (gatewayIPs : gset string) : gset string :=
  (gatewayIPs
   ∪ list_to_set (SplitComma (annotation newNs ExternalGatewayPodIPsAnnotation)))
  ∪ list_to_set (SplitComma (annotation newNs RoutingExternalGWsAnnotation)).

(** The loop over the IPs of one pod, lines 1414-1421. *)
Fixpoint podIPsLoop (podIPs : list string) (validNextHopMACs : list (list Byte.byte))
    (errs : list error) : W (list error) :=
  match podIPs with
  | [] => ret errs
  | podIP :: rest =>
      emit (EvDeleteConntrack podIP 0 ProtocolUDP ConntrackOrigDstIP validNextHopMACs) ;;;
      match DeleteConntrack podIP 0 ProtocolUDP ConntrackOrigDstIP validNextHopMACs with
      | Some err =>
          podIPsLoop rest validNextHopMACs
            (errs ++ [Errorf ("failed to delete conntrack entry for pod " +:+ podIP
                              +:+ ": " +:+ Error err)])
      | None => podIPsLoop rest validNextHopMACs errs
      end
  end.

(** The loop over the pods, lines 1408-1422. *)
Fixpoint gatewayPodsLoop (pods : list Pod) (validNextHopMACs : list (list Byte.byte))
    (errs : list error) : W (list error) :=
  match pods with
  | [] => ret errs
  | pod :: rest =>
      let '(podIPs, err) := GetPodIPsOfNetwork pod in
      let errs1 :=
        match err with
        | Some e =>
            if negb (IsErrNoPodIPFound e)
            then errs ++ [Errorf ("unable to fetch IP for pod " +:+ podNamespace pod
                                  +:+ "/" +:+ podName pod +:+ ": " +:+ Error e)]
            else errs
        | None => errs
        end in
      errs2 <~ podIPsLoop podIPs validNextHopMACs errs1 ;;
      gatewayPodsLoop rest validNextHopMACs errs2
  end.

(** [syncConntrackForExternalGateways]. *)
Definition syncConntrackForExternalGateways (newNs : Namespace) : W (option error) :=
  match GetAdminPolicyBasedExternalRouteIPsForTargetNamespace (nsName newNs) with
  | inl err =>
      ret (Some (Errorw
        ("unable to retrieve gateway IPs for Admin Policy Based External Route objects: "
         +:+ Error err) err))
  | inr gatewayIPs0 =>
      let gatewayIPs := insertAnnotations newNs gatewayIPs0 in
      let validNextHopMACs := allowList (resolveAll gatewayIPs) in
      match GetPods (nsName newNs) with
      | inl err =>
          ret (Some (Errorf ("unable to get pods from informer: " +:+ Error err)))
      | inr pods =>
          errs <~ gatewayPodsLoop pods validNextHopMACs [] ;;
          ret (NewAggregate errs)
      end
  end.

(** *** What one external-gateway pass has to do and to report *)

(** A gateway IP that leaves no entry in the allow-list: it is empty or IPv6,
    or its resolution fails or gives no address. *)
Definition unresolved (gwIP : string) : Prop :=
  gwIP = "" \/ IsIPv6String gwIP = true
  \/ (exists e, GetMACAddressFromARP gwIP = inl e)
  \/ GetMACAddressFromARP gwIP = inr [].

(** The deletion requested for one pod IP. *)
Definition deletionFor (validNextHopMACs : list (list Byte.byte)) (podIP : string) : event :=
  EvDeleteConntrack podIP 0 ProtocolUDP ConntrackOrigDstIP validNextHopMACs.

(** The error a failed deletion for one pod IP adds. *)
Definition deletionError (validNextHopMACs : list (list Byte.byte)) (podIP : string)
  : list error :=
  match DeleteConntrack podIP 0 ProtocolUDP ConntrackOrigDstIP validNextHopMACs with
  | Some err =>
      [Errorf ("failed to delete conntrack entry for pod " +:+ podIP
               +:+ ": " +:+ Error err)]
  | None => []
  end.

(** The errors one pod adds: that of fetching its IPs, unless it only says
    that the pod has none, then one for every deletion that failed. *)
Definition podErrors (validNextHopMACs : list (list Byte.byte)) (pod : Pod) : list error :=
  match snd (GetPodIPsOfNetwork pod) with
  | Some e =>
      if negb (IsErrNoPodIPFound e)
      then [Errorf ("unable to fetch IP for pod " +:+ podNamespace pod
                    +:+ "/" +:+ podName pod +:+ ": " +:+ Error e)]
      else []
  | None => []
  end
  ++ flat_map (deletionError validNextHopMACs) (fst (GetPodIPsOfNetwork pod)).

(** The loop over the addresses of one endpoint, lines 1302-1314.  The
    failure of a deletion is logged and nothing else. *)
Fixpoint addressesLoop (newEndpointSlice : option EndpointSlice) (svc : option Service)
    (oldPort : EndpointPort) (protocol : Protocol) (addresses : list string)
  : W (outcome unit) :=
  match addresses with
  | [] => ret (Returned tt)
  | oldIP :: rest =>
      let oldIPStr := ParseIPSloppy oldIP in
      match portPort oldPort with
      | None => ret Panic
      | Some port =>
          if match newEndpointSlice with
             | Some new => DoesEndpointSliceContainEndpoint new oldIPStr port protocol svc
             | None => false
             end
          then addressesLoop newEndpointSlice svc oldPort protocol rest
          else
            emit (EvDeleteConntrackServicePort oldIPStr port protocol ConntrackReplyAnyIP []) ;;;
            match DeleteConntrackServicePort oldIPStr port protocol ConntrackReplyAnyIP [] with
            | Some _ =>
                (* klog.Errorf: the error is logged and goes nowhere else *)
                addressesLoop newEndpointSlice svc oldPort protocol rest
            | None => addressesLoop newEndpointSlice svc oldPort protocol rest
            end
      end
  end.

(** The loop over the endpoints, lines 1301-1315. *)
Fixpoint endpointsLoop (newEndpointSlice : option EndpointSlice) (svc : option Service)
    (oldPort : EndpointPort) (protocol : Protocol) (endpoints : list Endpoint)
  : W (outcome unit) :=
  match endpoints with
  | [] => ret (Returned tt)
  | oldEndpoint :: rest =>
      r <~ addressesLoop newEndpointSlice svc oldPort protocol (Addresses oldEndpoint) ;;
      match r with
      | Panic => ret Panic
      | Returned _ => endpointsLoop newEndpointSlice svc oldPort protocol rest
      end
  end.

(** The loop over the ports, lines 1297-1316. *)
Fixpoint portsLoop (newEndpointSlice : option EndpointSlice) (svc : option Service)
    (endpoints : list Endpoint) (ports : list EndpointPort) : W (outcome unit) :=
  match ports with
  | [] => ret (Returned tt)
  | oldPort :: rest =>
      match portProtocol oldPort with
      | None => ret Panic
      | Some protocol =>
          if bool_decide (protocol <> ProtocolUDP)
          then portsLoop newEndpointSlice svc endpoints rest
          else
            r <~ endpointsLoop newEndpointSlice svc oldPort protocol endpoints ;;
            match r with
            | Panic => ret Panic
            | Returned _ => portsLoop newEndpointSlice svc endpoints rest
            end
      end
  end.

(** The [svc] that comes with an answer of [GetService]: [nil] with an
    error. *)
Definition foundService (looked : error + Service) : option Service :=
  match looked with
  | inr s => Some s
  | inl _ => None
  end.

(** [reconcileConntrackUponEndpointSliceEvents]. *)
Definition reconcileConntrackUponEndpointSliceEvents
    (oldEndpointSlice newEndpointSlice : option EndpointSlice)
  : W (outcome (option error)) :=
  let errors : list error := [] in
  match oldEndpointSlice with
  | None => ret (Returned None)
  | Some old =>
      match ServiceNamespacedNameFromEndpointSlice old with
      | inl err =>
          ret (Returned (Some (Errorf ("cannot reconcile conntrack: " +:+ Error err))))
      | inr (namespace, name) =>
          let looked := GetService namespace name in
          let svc := foundService looked in
          let loops : W (outcome (option error)) :=
            r <~ portsLoop newEndpointSlice svc (Endpoints old) (Ports old) ;;
            match r with
            | Panic => ret Panic
            | Returned _ => ret (Returned (NewAggregate errors))
            end in
          match looked with
          | inl err =>
              if negb (IsNotFound err) then
                (* the message reads newEndpointSlice.Namespace and .Name *)
                match newEndpointSlice with
                | None => ret Panic
                | Some new =>
                    ret (Returned (Some (Errorf
                      ("error while retrieving service for endpointslice "
                       +:+ epsNamespace new +:+ "/" +:+ epsName new
                       +:+ " when reconciling conntrack: " +:+ Error err))))
                end
              else loops
          | inr _ => loops
          end
      end
  end.

(** *** What one endpoint-slice pass may request *)

(** A port of another protocol than UDP. *)
Definition nonUDP (p : EndpointPort) : Prop :=
  exists protocol, portProtocol p = Some protocol /\ protocol <> ProtocolUDP.

(** The deletion of the entries towards one UDP port of the old slice. *)
Definition isUDPDeletionOf (ports : list EndpointPort) (e : event) : Prop :=
  exists ip port p,
    e = EvDeleteConntrackServicePort ip port ProtocolUDP ConntrackReplyAnyIP []
    /\ p ∈ ports
    /\ portProtocol p = Some ProtocolUDP
    /\ portPort p = Some port.

End Reconcile.

End Conntrack.

(** ** Concrete worlds *)

Module Examples.

Definition cfgA : Config :=
  {| Mode := NodeModeFull; Zone := "zoneA"; EnableInterconnect := true;
     IPv4Mode := true; IPv6Mode := false |}.

Definition emptyWorld (answer : string * string * option error) : World :=
  {| GetNodes := inr []; GetServices := inr []; GetAllPods := inr [];
     RunOVNSbctl := fun _ => answer |}.

(** The southbound database answers with no zone first and with ["zoneB"]
    ever after. *)
Definition zoneBWorld (k : nat) : World :=
  match k with
  | O => emptyWorld ("", "", None)
  | _ => emptyWorld ("zoneB", "", None)
  end.

(** The southbound database answers ["zoneB"] once and cannot be reached
    afterwards. *)
Definition flakyWorld (k : nat) : World :=
  match k with
  | O => emptyWorld ("zoneB", "", None)
  | _ => emptyWorld ("", "ovn-sbctl: database connection failed",
                     Some (Errorf "exit status 1"))
  end.

(** A node of zone ["zoneA"] that has not recorded itself as migrated. *)
Definition nodeA : Node :=
  {| nodeName := "node1"; GetNodeZone := "zoneA"; NoHostSubnet := false;
     ParseNodeHostSubnetAnnotation := inr []; HasNodeMigratedZone := false |}.

Definition portName (namespace name : string) : string := namespace +:+ "_" +:+ name.

(** The node list cannot be fetched during the first 600 passes, that is for
    300s; from then on there is nothing left to wait for. *)
Definition lateWorld (k : nat) : World :=
  if (k <? 600)%nat
  then {| GetNodes := inl (Errorf "the server is currently unable to handle the request");
          GetServices := inr []; GetAllPods := inr [];
          RunOVNSbctl := fun _ => ("", "", None) |}
  else emptyWorld ("", "", None).

(** A service with a cluster IP. *)
Definition web : Service :=
  {| svcNamespace := "default"; svcName := "web";
     ServiceTypeHasClusterIP := true; IsClusterIPSet := true |}.

Definition newline : string := String (ascii_of_nat 10) "".

(** What [ovn-sbctl --bare --columns name find Load_Balancer] prints for a
    table holding load balancers of the given names: one name per record, a
    blank line after each record. *)
Definition bareNames (names : list string) : string :=
  String.concat "" (map (fun n => n +:+ newline +:+ newline) names).

(** A cluster with the one service [web], a southbound database with load
    balancers of the given names. *)
Definition lbWorld (names : list string) (k : nat) : World :=
  {| GetNodes := inr []; GetServices := inr [web]; GetAllPods := inr [];
     RunOVNSbctl := fun _ => (bareNames names, "", None) |}.

(** Nodes are ready at once, the load balancer of [web] appears for the
    third pass. *)
Definition slowServicesWorld (k : nat) : World :=
  if (k <? 2)%nat then lbWorld [] k
  else lbWorld ["Service_default/web_TCP_cluster"] k.

(** A namespace with one annotated external gateway, and its two local
    pods. *)
Definition ns1 : Namespace :=
  {| nsName := "ns1";
     Annotations := {[ "k8s.ovn.org/routing-external-gws" := "192.0.2.1" ]} |}.

(** No policy names a gateway; no address resolves. *)
Definition noPolicy (namespace : string) : error + gset string := inr ∅.

Definition arpFails (gwIP : string) : error + list Byte.byte :=
  inl (Errorf "no ARP reply").

Definition hasColon (ip : string) : bool := Contains ip ":".

Definition pod1 : Pod :=
  {| podNamespace := "ns1"; podName := "pod1"; podNodeName := "node1";
     PodScheduled := true; PodCompleted := false; PodWantsHostNetwork := false;
     GetPodIPsOfNetwork := (["10.244.1.5"; "fd00:10:244:1::5"], None) |}.

Definition pod2 : Pod :=
  {| podNamespace := "ns1"; podName := "pod2"; podNodeName := "node1";
     PodScheduled := true; PodCompleted := false; PodWantsHostNetwork := false;
     GetPodIPsOfNetwork := (["10.244.1.6"], None) |}.

Definition getPods (namespace : string) : error + list Pod :=
  if String.eqb namespace "ns1" then inr [pod1; pod2] else inr [].

(** An endpoint slice of the service [default/dns] with the one UDP endpoint
    [10.244.1.5:53]. *)
Definition dnsSlice : EndpointSlice :=
  {| epsNamespace := "default"; epsName := "dns-x7k2p";
     epsLabels := {[ "kubernetes.io/service-name" := "dns" ]};
     Ports := [{| portProtocol := Some ProtocolUDP; portPort := Some 53 |}];
     Endpoints := [{| Addresses := ["10.244.1.5"] |}] |}.

(** The same slice after its endpoint has gone. *)
Definition dnsSliceEmpty : EndpointSlice :=
  {| epsNamespace := "default"; epsName := "dns-x7k2p";
     epsLabels := {[ "kubernetes.io/service-name" := "dns" ]};
     Ports := [{| portProtocol := Some ProtocolUDP; portPort := Some 53 |}];
     Endpoints := [] |}.

Definition serviceNameOf (eps : EndpointSlice) : error + string * string :=
  match epsLabels eps !! "kubernetes.io/service-name" with
  | Some name => inr (epsNamespace eps, name)
  | None => inl (Errorf "empty value for label kubernetes.io/service-name")
  end.

Definition dns : Service :=
  {| svcNamespace := "default"; svcName := "dns";
     ServiceTypeHasClusterIP := true; IsClusterIPSet := true |}.

(** An endpoint is in a slice when the slice lists its address and has a port
    of its number and protocol. *)
Definition containsEndpoint (eps : EndpointSlice) (ip : string) (port : Z)
    (protocol : Protocol) (svc : option Service) : bool :=
  existsb (fun p => bool_decide (portProtocol p = Some protocol)
                    && bool_decide (portPort p = Some port)) (Ports eps)
  && existsb (fun e => existsb (String.eqb ip) (Addresses e)) (Endpoints eps).

(** A connection tracker that refuses every request. *)
Definition refuse (ip : string) (port : Z) (protocol : Protocol)
    (filter : ConntrackFilterType) (labels : list (list Byte.byte)) : option error :=
  Some (Errorf "operation not permitted").

(** A connection tracker that carries out every request. *)
Definition comply (ip : string) (port : Z) (protocol : Protocol)
    (filter : ConntrackFilterType) (labels : list (list Byte.byte)) : option error :=
  None.

(** Two leases of 40s seen at second 100: one renewed at second 90, one
    renewed at second 10. *)
Definition leaseOf (name : string) (renewedAt : Z) : Heartbeat.Lease :=
  {| Heartbeat.Name := name;
     Heartbeat.Spec :=
       {| Heartbeat.HolderIdentity := Some name;
          Heartbeat.LeaseDurationSeconds := Some 40;
          Heartbeat.AcquireTime := Some 0;
          Heartbeat.RenewTime := Some (renewedAt * Second) |} |}.

Definition freshLease : Heartbeat.Lease := leaseOf "dpu-1" 90.
Definition staleLease : Heartbeat.Lease := leaseOf "dpu-2" 10.

Definition atSecond100 (k : nat) : Z := 100 * Second.

End Examples.

(** ** Device-plugin resources of the management port *)

Module Devices.

(** [strings.ReplaceAll (s, old, new)] for an [old] and a [new] of one byte
    each. *)
Fixpoint ReplaceAll1 (s : string) (old new : ascii) : string :=
  match s with
  | EmptyString => EmptyString
  | String c s' =>
      String (if Ascii.eqb c old then new else c) (ReplaceAll1 s' old new)
  end.

Definition isLower (c : ascii) : bool :=
  (97 <=? nat_of_ascii c)%nat && (nat_of_ascii c <=? 122)%nat.

(** [strings.ToUpper] on a string of ASCII bytes: the letters [a] to [z]
    become [A] to [Z]. *)
Fixpoint ToUpper (s : string) : string :=
  match s with
  | EmptyString => EmptyString
  | String c s' =>
      String (if isLower c then ascii_of_nat (nat_of_ascii c - 32) else c) (ToUpper s')
  end.

(** Every byte of the string is an ASCII character. *)
Fixpoint isASCII (s : string) : bool :=
  match s with
  | EmptyString => true
  | String c s' => (nat_of_ascii c <? 128)%nat && isASCII s'
  end.

(** [getEnvNameFromResourceName]. *)
Definition getEnvNameFromResourceName (resource : string) : string :=
  let res1 := ReplaceAll1 resource "."%char "_"%char in
  let res2 := ReplaceAll1 res1 "/"%char "_"%char in
  "PCIDEVICE_" +:+ ToUpper res2.

(** What one byte of a resource name becomes in the name of the variable. *)
Definition envChar (c : ascii) : ascii :=
  if Ascii.eqb c "."%char || Ascii.eqb c "/"%char then "_"%char
  else if isLower c then ascii_of_nat (nat_of_ascii c - 32)
  else c.

Section Resources.

(** [os.Getenv] and [util.GetNetdevNameFromDeviceId]. *)
Variable Getenv : string -> string.
Variable GetNetdevNameFromDeviceId : string -> error + string.

(** [getDeviceIdsFromEnv]. *)
Definition getDeviceIdsFromEnv (envName : string) : error + list string :=
  let envVar := Getenv envName in
  if (String.length envVar =? 0)%nat
  then inl (Errorf ("unexpected empty env variable: " +:+ envName))
  else inr (SplitComma envVar).

(** [config.OvnKubeNode.DPResourceDeviceIdsMap]; a resource that is not a key
    reads as the empty list. *)
Definition deviceIdsOf (deviceIdsMap : gmap string (list string)) (resource : string)
  : list string :=
  default [] (deviceIdsMap !! resource).

(** [handleDevicePluginResources], for the resource name
    [config.OvnKubeNode.MgmtPortDPResourceName]: the error it returns and the
    map it leaves, a new map with the one entry when it succeeds. *)
Definition handleDevicePluginResources (MgmtPortDPResourceName : string)
    (deviceIdsMap : gmap string (list string))
  : option error * gmap string (list string) :=
  let mgmtPortEnvName := getEnvNameFromResourceName MgmtPortDPResourceName in
  match getDeviceIdsFromEnv mgmtPortEnvName with
  | inl err => (Some err, deviceIdsMap)
  | inr deviceIds => (None, <[MgmtPortDPResourceName := deviceIds]> ∅)
  end.

(** [reserveDeviceId]: [deviceIds[0]] and [deviceIds[1:]]; indexing an empty
    slice panics. *)
Definition reserveDeviceId (deviceIds : list string) : outcome (string * list string) :=
  match deviceIds with
  | [] => Panic
  | ret :: rest => Returned (ret, rest)
  end.

(** [handleNetdevResources]: the name of the device or the error, and the map
    it leaves. *)
Definition handleNetdevResources (resourceName : string)
    (deviceIdsMap : gmap string (list string))
  : outcome (error + string) * gmap string (list string) :=
  if (0 <? length (deviceIdsOf deviceIdsMap resourceName))%nat then
    match reserveDeviceId (deviceIdsOf deviceIdsMap resourceName) with
    | Panic => (Panic, deviceIdsMap)
    | Returned (deviceId, rest) =>
        let deviceIdsMap' := <[resourceName := rest]> deviceIdsMap in
        match GetNetdevNameFromDeviceId deviceId with
        | inl err => (Returned (inl err), deviceIdsMap')
        | inr netdevice => (Returned (inr netdevice), deviceIdsMap')
        end
    end
  else
    (Returned (inl (Errorf ("insufficient device IDs for resource: " +:+ resourceName))),
     deviceIdsMap).

(** [n] calls of [handleNetdevResources] for one resource, one after the
    other: what each returns, and the map left at the end. *)
Fixpoint reservations (n : nat) (resourceName : string)
    (deviceIdsMap : gmap string (list string))
  : list (outcome (error + string)) * gmap string (list string) :=
  match n with
  | O => ([], deviceIdsMap)
  | S n' =>
      let '(r, deviceIdsMap') := handleNetdevResources resourceName deviceIdsMap in
      let '(rs, deviceIdsMap'') := reservations n' resourceName deviceIdsMap' in
      (r :: rs, deviceIdsMap'')
  end.

End Resources.

End Devices.

(** ** Flow collectors *)

Module Collectors.

(** [config.HostPort]: the host is a pointer to a [net.IP], a slice of
    bytes. *)
Record HostPort : Type := {
  Host : option (list Byte.byte);
  Port : Z
}.

Section Collectors.

(** [net.IP.String], [util.JoinHostPortInt32], and the answer of
    [util.GetNodePrimaryIP] for the node at hand. *)
Variable IPString : list Byte.byte -> string.
Variable JoinHostPortInt32 : string -> Z -> string.
Variable GetNodePrimaryIP : error + string.

(** Lines 189-197: the host of one target, the node's own address when the
    target names none. *)
Definition hostOf (v : HostPort) : error + string :=
  match Host v with
  | Some ip =>
      if negb (length ip =? 0)%nat then inr (IPString ip)
      else GetNodePrimaryIP
  | None => GetNodePrimaryIP
  end.

(** The loop of lines 183-199; [n] is the index of the next target and
    [joined] what the builder holds. *)
Fixpoint collectorsLoop (n : nat) (targets : list HostPort) (joined : string)
  : error + string :=
  match targets with
  | [] => inr joined
  | v :: rest =>
      let joined1 :=
        if (n =? 0)%nat then joined +:+ quote
        else joined +:+ (quote +:+ "," +:+ quote) in
      match hostOf v with
      | inl err => inl (Errorw ("composing flow collectors' IPs: " +:+ Error err) err)
      | inr host => collectorsLoop (S n) rest (joined1 +:+ JoinHostPortInt32 host (Port v))
      end
  end.

(** [collectorsString]. *)
Definition collectorsString (targets : list HostPort) : error + string :=
  if (length targets =? 0)%nat
  then inl (Errorf "collector targets can't be empty")
  else
    match collectorsLoop 0 targets "" with
    | inl err => inl err
    | inr joined => inr (joined +:+ quote)
    end.

(** What stands between two entries: [","] with its quotes. *)
Definition separator : string := quote +:+ "," +:+ quote.

(** A target that needs the node's own address. *)
Definition needsNodeIP (v : HostPort) : bool :=
  match Host v with
  | Some ip => (length ip =? 0)%nat
  | None => true
  end.

(** One entry of the joined string, for a target whose host is known. *)
Definition entry (nodeIP : string) (v : HostPort) : string :=
  JoinHostPortInt32
    (match Host v with
     | Some ip => if negb (length ip =? 0)%nat then IPString ip else nodeIP
     | None => nodeIP
     end) (Port v).

End Collectors.

End Collectors.

(** ** The periodic sweep of stale external-gateway entries *)

Module Sweep.

Section Sweep.

Variable ExternalGatewayPodIPsAnnotation : string.
Variable RoutingExternalGWsAnnotation : string.
Variable GetAdminPolicyBasedExternalRouteIPsForTargetNamespace :
  string -> error + gset string.
Variable IsIPv6String : string -> bool.
Variable GetMACAddressFromARP : string -> error + list Byte.byte.
Variable GetPods : string -> error + list Pod.
Variable DeleteConntrack :
  string -> Z -> Protocol -> ConntrackFilterType -> list (list Byte.byte) -> option error.

(** The answer of [nc.watchFactory.GetNamespaces]. *)
Variable GetNamespaces : error + list Namespace.

(** [exGatewayPodsAnnotationsChanged]. *)
Definition exGatewayPodsAnnotationsChanged (oldNs newNs : Namespace) : bool :=
  negb (String.eqb (annotation oldNs ExternalGatewayPodIPsAnnotation)
                   (annotation newNs ExternalGatewayPodIPsAnnotation))
  || negb (String.eqb (annotation oldNs RoutingExternalGWsAnnotation)
                      (annotation newNs RoutingExternalGWsAnnotation)).

(** Lines 1339-1341: the namespace carries one of the two annotations,
    whatever its value. *)
Definition annotated (namespace : Namespace) : bool :=
  let foundRoutingExternalGWsAnnotation :=
    bool_decide (is_Some (Annotations namespace !! RoutingExternalGWsAnnotation)) in
  let foundExternalGatewayPodIPsAnnotation :=
    bool_decide (is_Some (Annotations namespace !! ExternalGatewayPodIPsAnnotation)) in
  foundRoutingExternalGWsAnnotation || foundExternalGatewayPodIPsAnnotation.

(** Line 1346: [len (pods) > 0 || err != nil]. *)
Definition hasPodsOrFails (namespace : Namespace) : bool :=
  match GetPods (nsName namespace) with
  | inl _ => true
  | inr pods => (0 <? length pods)%nat
  end.

(** The loop of lines 1338-1352; what [syncConntrackForExternalGateways]
    returns is dropped. *)
Fixpoint sweepLoop (namespaces : list Namespace) : W unit :=
  match namespaces with
  | [] => ret tt
  | namespace :: rest =>
      if annotated namespace then
        if hasPodsOrFails namespace then
          Conntrack.syncConntrackForExternalGateways ExternalGatewayPodIPsAnnotation
            RoutingExternalGWsAnnotation
            GetAdminPolicyBasedExternalRouteIPsForTargetNamespace IsIPv6String
            GetMACAddressFromARP GetPods DeleteConntrack namespace ;;;
          sweepLoop rest
        else sweepLoop rest
      else sweepLoop rest
  end.

(** [checkAndDeleteStaleConntrackEntries]: when the namespaces cannot be
    listed the error is logged and the loop runs over no namespace. *)
Definition checkAndDeleteStaleConntrackEntries : W unit :=
  match GetNamespaces with
  | inl _ => sweepLoop []
  | inr namespaces => sweepLoop namespaces
  end.

End Sweep.

End Sweep.

(** ** Two more waits of [Start] *)

Module Waits.

(** A node with its labels and with what [util.HasDPUNodeReady] reads from
    its annotations. *)
Record LabelledNode : Type := {
  node : Node;
  Labels : gmap string string;
  HasDPUNodeReady : bool
}.

(** [IsDPUHostMode]. *)
Definition IsDPUHostMode (n : LabelledNode) : bool :=
  bool_decide (is_Some (Labels n !! "k8s.ovn.org/dpu-host")).

Section Waits.

Variable cfg : Config.
Variable name : string.

(** The answers of [nc.Kube.GetNodes] and of [nc.Kube.GetNode (nc.name)]
    during pass [k], and [strconv.Quote] for the verb [%q]. *)
Variable GetNodes : nat -> error + list LabelledNode.
Variable GetNode : nat -> error + Node.
Variable Quote : string -> string.

(** The loop of lines 1141-1147, left at the first accelerator node of the
    zone that is not ready. *)
Fixpoint dpuNodesLoop (sbZone : string) (nodes : list LabelledNode) (ready : bool) : bool :=
  match nodes with
  | [] => ready
  | n :: rest =>
      if negb (IsDPUHostMode n)
         && String.eqb (GetNodeZone (node n)) sbZone
         && negb (HasDPUNodeReady n)
      then false
      else dpuNodesLoop sbZone rest ready
  end.

(** The closure polled at lines 1128-1152. *)
Definition dpuCondition (k : nat) (vars : unit) : W (unit * bool) :=
  emit EvGetNodes ;;;
  match GetNodes k with
  | inl _ => ret (vars, false)
  | inr nodes =>
      let sbZone := Zone cfg in
      let ready := dpuNodesLoop sbZone nodes true in
      if ready then ret (vars, true) else ret (vars, false)
  end.

(** Lines 1128-1155, in DPU-host mode: the error [Start] returns, if any. *)
Definition Start_dpuHostWait : W (option error) :=
  r <~ PollUntilContextTimeout (500 * Millisecond) (300 * Second) dpuCondition tt ;;
  match snd r with
  | Some e =>
      ret (Some (Errorf ("timed out waiting for the dpu node to be ready: " +:+ Error e)))
  | None => ret None
  end.

(** The variables of [Start] the closure of lines 752-763 assigns.  The
    pointer that comes with an error of [GetNode] is never read: the closure
    answers [false], and the next pass or the return of [Start] replaces or
    drops it; it is kept as [None]. *)
Record switchVars : Type := {
  fetched : option Node;
  subnets : list IPNet
}.

(** The closure polled at lines 752-763. *)
Definition switchCondition (k : nat) (vars : switchVars) : W (switchVars * bool) :=
  match GetNode k with
  | inl _ => ret ({| fetched := None; subnets := subnets vars |}, false)
  | inr n =>
      match ParseNodeHostSubnetAnnotation n with
      | inl _ => ret ({| fetched := Some n; subnets := [] |}, false)
      | inr nets => ret ({| fetched := Some n; subnets := nets |}, true)
      end
  end.

(** Lines 751-766: the variables [node] and [subnets] as [Start] goes on with
    them, or the error it returns; [node0] is the node fetched at line 697. *)
Definition Start_switchWait (node0 : Node) : W (error + option Node * list IPNet) :=
  r <~ PollUntilContextTimeout (500 * Millisecond) (300 * Second) switchCondition
         {| fetched := Some node0; subnets := [] |} ;;
  let '(vars, err) := r in
  match err with
  | Some e =>
      ret (inl (Errorf ("timed out waiting for node's: " +:+ Quote name
                        +:+ " logical switch: " +:+ Error e)))
  | None =>
      ret (inr (fetched vars, subnets vars))
  end.

(** No accelerator node of the zone is still to become ready. *)
Definition zoneReady (nodes : list LabelledNode) : Prop :=
  forall n, n ∈ nodes ->
    IsDPUHostMode n = true \/ GetNodeZone (node n) <> Zone cfg \/ HasDPUNodeReady n = true.

(** Pass [k] lists the nodes and finds the zone ready. *)
Definition readyAt (k : nat) : Prop :=
  exists nodes, GetNodes k = inr nodes /\ zoneReady nodes.

(** Pass [k] fetches the node [n] and reads the subnets [nets] from its
    annotation. *)
Definition switchAt (k : nat) (n : Node) (nets : list IPNet) : Prop :=
  GetNode k = inr n /\ ParseNodeHostSubnetAnnotation n = inr nets.

(** Line 1097: whether [Start] watches the namespaces and sweeps the stale
    entries of external gateways. *)
Definition watchNamespacesGuard (OvnDefaultZone sbZone : string) : bool :=
  match Mode cfg with NodeModeDPUHost => false | _ => true end
  && (negb (EnableInterconnect cfg) || String.eqb sbZone OvnDefaultZone).

End Waits.

End Waits.

(** ** The two heartbeat loops of [heartbeat_dpu.go] *)

Module HeartbeatRun.

Import Heartbeat.

(** [heartbeatOptions]; the interval is a [time.Duration], in nanoseconds. *)
Record heartbeatOptions : Type := {
  holderIdentity : string;
  leaseDurationSeconds : Z;
  leaseNS : string;
  mode : string;
  interval : Z
}.

(** The five implementations of [HeartbeatOption]. *)
Inductive HeartbeatOption : Type :=
| HolderIdentityOption (o : string)
| LeaseDurationSecondsOption (o : Z)
| LeaseNSOption (o : string)
| ModeOption (o : string)
| IntervalOption (o : Z).

(** The five [Apply] methods. *)
Definition Apply (o : HeartbeatOption) (options : heartbeatOptions) : heartbeatOptions :=
  match o with
  | HolderIdentityOption v =>
      {| holderIdentity := v; leaseDurationSeconds := leaseDurationSeconds options;
         leaseNS := leaseNS options; mode := mode options; interval := interval options |}
  | LeaseDurationSecondsOption v =>
      {| holderIdentity := holderIdentity options; leaseDurationSeconds := v;
         leaseNS := leaseNS options; mode := mode options; interval := interval options |}
  | LeaseNSOption v =>
      {| holderIdentity := holderIdentity options;
         leaseDurationSeconds := leaseDurationSeconds options;
         leaseNS := v; mode := mode options; interval := interval options |}
  | ModeOption v =>
      {| holderIdentity := holderIdentity options;
         leaseDurationSeconds := leaseDurationSeconds options;
         leaseNS := leaseNS options; mode := v; interval := interval options |}
  | IntervalOption v =>
      {| holderIdentity := holderIdentity options;
         leaseDurationSeconds := leaseDurationSeconds options;
         leaseNS := leaseNS options; mode := mode options; interval := v |}
  end.

Definition defaultLeaseDurationSeconds : Z := 40.
Definition defaultLeaseNS : string := "dpu-lease-zone".

(** The fields of [heartbeat] the code reads and writes; the client and the
    error channel are the outside. *)
Record heartbeat : Type := {
  nodeName : string;
  lease : option Lease;
  options : heartbeatOptions
}.

Definition withLease (h : heartbeat) (l : option Lease) : heartbeat :=
  {| nodeName := nodeName h; lease := l; options := options h |}.

(** What a heartbeat does to the outside: the requests to the lease client
    and the sends on [h.errChan]. *)
Inductive call : Type :=
| CallGet (ns name : string)
| CallCreate (ns : string) (l : Lease)
| CallUpdate (ns : string) (l : Lease)
| CallDelete (ns name : string)
| CallList (ns : string)
| Send (err : option error).

Section Run.

(** [types.NodeModeDPU] and [types.NodeModeDPUHost]. *)
Variable NodeModeDPU : string.
Variable NodeModeDPUHost : string.

(** The answers of the lease client: of the one [Get], of [Create], of the
    [Update] made with the [i]-th reading of the clock, of the one [Delete],
    and of the [List] of tick [k]. *)
Variable Get : error + Lease.
Variable Create : Lease -> option Lease * option error.
Variable Update : nat -> Lease -> error + Lease.
Variable Delete : option error.
Variable List : nat -> error + list Lease.

(** [time.Now ()]: the [i]-th reading of the accelerator side, and the
    readings of tick [k] of the host side. *)
Variable clock : nat -> Z.
Variable hostClock : nat -> nat -> Z.

(** [newHeartbeat]. *)
Definition newHeartbeat (nodeName : string) (opts : list HeartbeatOption) : heartbeat :=
  let o0 := {| holderIdentity := ""; leaseDurationSeconds := 0; leaseNS := "";
               mode := ""; interval := 0 |} in
  let o1 := fold_left (fun o opt => Apply opt o) opts o0 in
  let o2 := if Z.eqb (leaseDurationSeconds o1) 0
            then Apply (LeaseDurationSecondsOption defaultLeaseDurationSeconds) o1
            else o1 in
  let o3 := if String.eqb (leaseNS o2) "" then Apply (LeaseNSOption defaultLeaseNS) o2
            else o2 in
  let o4 := if Z.eqb (interval o3) 0 then Apply (IntervalOption (10 * Second)) o3
            else o3 in
  let o5 := if String.eqb (mode o4) "" then Apply (ModeOption NodeModeDPU) o4
            else o4 in
  {| nodeName := nodeName; lease := None; options := o5 |}.

(** [h.createLeaseSpec]. *)
Definition createLeaseSpec (h : heartbeat) (acquireTime renewTime : Z) : LeaseSpec :=
  {| HolderIdentity := Some (holderIdentity (options h));
     LeaseDurationSeconds := Some (leaseDurationSeconds (options h));
     AcquireTime := Some acquireTime;
     RenewTime := Some renewTime |}.

(** [h.get]. *)
Definition get (h : heartbeat) : list call * (option Lease * option error) :=
  ([CallGet (leaseNS (options h)) (nodeName h)],
   match Get with
   | inl err => (None, Some err)
   | inr l => (Some l, None)
   end).

(** [h.update], made with the [i]-th reading of the clock: the new spec is
    written into [h.lease] before the request and stays there when the request
    fails. *)
Definition update (h : heartbeat) (i : nat) (leaseSpec : LeaseSpec)
  : list call * (option error * heartbeat) :=
  match lease h with
  | None => ([], (Some (Errorf "lease not initialized, call get or create first"), h))
  | Some l =>
      let l' := {| Name := Name l; Spec := leaseSpec |} in
      match Update i l' with
      | inl err => ([CallUpdate (leaseNS (options h)) l'], (Some err, withLease h (Some l')))
      | inr answered =>
          ([CallUpdate (leaseNS (options h)) l'], (None, withLease h (Some answered)))
      end
  end.

(** [h.create]: the object is created in the namespace [h.leaseNS], which is
    also the namespace its metadata names. *)
Definition create (h : heartbeat) (leaseSpec : LeaseSpec)
  : list call * (option error * heartbeat) :=
  let l := {| Name := nodeName h; Spec := leaseSpec |} in
  let '(answered, err) := Create l in
  ([CallCreate (leaseNS (options h)) l], (err, withLease h answered)).

(** The renewal of one tick, lines 147-150, and [n] ticks followed by the
    cancellation of the context, lines 138-152.  A lease without acquire time
    makes [h.lease.Spec.AcquireTime.Time] panic. *)
Fixpoint dpuLoop (n i : nat) (h : heartbeat) : list call * outcome unit :=
  match n with
  | O =>
      ([CallDelete (leaseNS (options h)) (nodeName h); Send Delete], Returned tt)
  | S n' =>
      match lease h with
      | None => ([], Panic)
      | Some l =>
          match AcquireTime (Spec l) with
          | None => ([], Panic)
          | Some acquireTime =>
              let '(t, (err, h')) := update h i (createLeaseSpec h acquireTime (clock i)) in
              let sent := match err with Some e => [Send (Some e)] | None => [] end in
              let '(t', r) := dpuLoop n' (S i) h' in
              (t ++ sent ++ t', r)
          end
      end
  end.

(** [h.runDPUNode], its goroutine running for [n] ticks before the context is
    cancelled: the requests and sends, and what the function returns.  [Panic]
    stands for a nil dereference that ends the process, at line 125 or, in the
    goroutine, at line 147. *)
Definition runDPUNode (n : nat) (h : heartbeat) : list call * outcome (option error) :=
  let '(t0, (found, err)) := get h in
  match err with
  | Some e =>
      if negb (IsNotFound e) then (t0, Returned (Some e))
      else
        let '(t1, (err1, h1)) := create h (createLeaseSpec h (clock 0) (clock 0)) in
        match err1 with
        | Some e1 => (t0 ++ t1, Returned (Some e1))
        | None =>
            let '(t2, r) := dpuLoop n 1 h1 in
            (t0 ++ t1 ++ t2,
             match r with Panic => Panic | Returned _ => Returned None end)
        end
  | None =>
      match found with
      | Some l =>
          match AcquireTime (Spec l) with
          | None => (t0, Panic)
          | Some acquireTime =>
              let h0 := withLease h (Some l) in
              let '(t1, (err1, h1)) :=
                update h0 0 (createLeaseSpec h0 acquireTime (clock 0)) in
              match err1 with
              | Some e1 => (t0 ++ t1, Returned (Some e1))
              | None =>
                  let '(t2, r) := dpuLoop n 1 h1 in
                  (t0 ++ t1 ++ t2,
                   match r with Panic => Panic | Returned _ => Returned None end)
              end
          end
      | None =>
          let '(t1, (err1, h1)) := create h (createLeaseSpec h (clock 0) (clock 0)) in
          match err1 with
          | Some e1 => (t0 ++ t1, Returned (Some e1))
          | None =>
              let '(t2, r) := dpuLoop n 1 h1 in
              (t0 ++ t1 ++ t2,
               match r with Panic => Panic | Returned _ => Returned None end)
          end
      end
  end.

(** [n] ticks of the host side followed by the cancellation, lines 160-172;
    [k] is the number of the next tick. *)
Fixpoint hostLoop (n k : nat) (h : heartbeat) : list call * outcome unit :=
  match n with
  | O => ([Send None], Returned tt)
  | S n' =>
      match isHeartBeatValid (List k) (leaseNS (options h)) (hostClock k) with
      | Panic => ([CallList (leaseNS (options h))], Panic)
      | Returned (valid, err) =>
          let sent :=
            if bool_decide (err <> None) || negb valid then [Send err] else [] in
          let '(t', r) := hostLoop n' (S k) h in
          (CallList (leaseNS (options h)) :: sent ++ t', r)
      end
  end.

(** [h.runDPUHost]. *)
Definition runDPUHost (n : nat) (h : heartbeat) : list call * outcome (option error) :=
  let '(t, r) := hostLoop n 0 h in
  (t, match r with Panic => Panic | Returned _ => Returned None end).

(** [h.run]. *)
Definition run (n : nat) (h : heartbeat) : list call * outcome (option error) :=
  if String.eqb (mode (options h)) NodeModeDPU then runDPUNode n h
  else if String.eqb (mode (options h)) NodeModeDPUHost then runDPUHost n h
  else ([], Returned (Some (Errorf ("unknown node mode: " +:+ mode (options h))))).

End Run.

End HeartbeatRun.

(** ** What the barrier waits for *)

Module Readiness.

Import Controller.

Section Readiness.

Variable GetLogicalPortName : string -> string -> string.
Variable cfg : Config.
Variable name : string.
Variable world : nat -> World.

(** The two match expressions of [checkOVNSBNodeLRSR] and the arguments of
    its query. *)
Definition matchv6 (nodeSubnet : IPNet) : string :=
  "match=" +:+ quote +:+ "reg7 == 0 && ip6.dst == " +:+ cidr nodeSubnet +:+ quote.

Definition matchv4 (nodeSubnet : IPNet) : string :=
  "match=" +:+ quote +:+ "reg7 == 0 && ip4.dst == " +:+ cidr nodeSubnet +:+ quote.

Definition routeArgs (matchvN : string) : list string :=
  ["--bare"; "--columns"; "_uuid"; "find"; "logical_flow"; matchvN].

(** [err == nil && stderr == "" && stdout != ""]. *)
Definition printedSomething (answer : string * string * option error) : bool :=
  let '(stdout, stderr, err) := answer in
  bool_decide (err = None) && String.eqb stderr "" && negb (String.eqb stdout "").

(** A node the barrier looks at: another node, of another zone, with a host
    subnet. *)
Definition remote (node : Node) : Prop :=
  name <> nodeName node /\ GetNodeZone node <> Zone cfg /\ NoHostSubnet node = false.

(** During pass [k] the node has no subnet annotation yet, or the route of
    every one of its subnets is found. *)
Definition routed (k : nat) (node : Node) : Prop :=
  (exists err, ParseNodeHostSubnetAnnotation node = inl err
               /\ IsAnnotationNotSetError err = true)
  \/ (exists nodeSubnets,
        ParseNodeHostSubnetAnnotation node = inr nodeSubnets
        /\ forall nodeSubnet, nodeSubnet ∈ nodeSubnets ->
             snd (checkOVNSBNodeLRSR cfg world k nodeSubnet) = true).

(** A pod the barrier looks at: scheduled on this node, not completed, not on
    the host network. *)
Definition awaited (p : Pod) : Prop :=
  PodScheduled p = true /\ PodCompleted p = false /\ PodWantsHostNetwork p = false
  /\ podNodeName p = name.

(** What each block of the barrier needs of pass [k] to set its flag. *)
Definition nodesReady (k : nat) : Prop :=
  exists nodes,
    GetNodes (world k) = inr nodes
    /\ forall node, node ∈ nodes -> remote node -> routed k node.

Definition servicesReady (k : nat) : Prop :=
  exists services,
    GetServices (world k) = inr services
    /\ forall s, s ∈ services ->
         ServiceTypeHasClusterIP s = true -> IsClusterIPSet s = true ->
         Contains (snd (fetchLBNames world k))
           ("Service_" +:+ svcNamespace s +:+ "/" +:+ svcName s) = true.

Definition podsReady (k : nat) : Prop :=
  exists pods,
    GetAllPods (world k) = inr pods
    /\ forall p, p ∈ pods -> awaited p ->
         snd (portExists GetLogicalPortName world k (podNamespace p) (podName p)) = true.

End Readiness.

End Readiness.

(** ** What the two conntrack passes leave *)

Module Stale.

Import Conntrack.

Section Stale.

Variable IsIPv6String : string -> bool.
Variable GetMACAddressFromARP : string -> error + list Byte.byte.
Variable DoesEndpointSliceContainEndpoint :
  EndpointSlice -> string -> Z -> Protocol -> option Service -> bool.
Variable ParseIPSloppy : string -> string.

(** The gateway IP is a non-empty IPv4 string whose resolution gives a
    non-empty hardware address, of which [mac] is the byte-wise reversal. *)
Definition resolvesTo (gwIP : string) (mac : list Byte.byte) : Prop :=
  gwIP <> "" /\ IsIPv6String gwIP = false
  /\ exists hwAddr, GetMACAddressFromARP gwIP = inr hwAddr
                    /\ hwAddr <> [] /\ mac = rev hwAddr.

(** The new slice, if there is one, still contains the endpoint. *)
Definition kept (newEndpointSlice : option EndpointSlice) (svc : option Service)
    (oldIP : string) (port : Z) : bool :=
  match newEndpointSlice with
  | Some new =>
      DoesEndpointSliceContainEndpoint new (ParseIPSloppy oldIP) port ProtocolUDP svc
  | None => false
  end.

(** The deletions for the addresses of the old slice the new one does not
    keep, for one port number. *)
Definition staleAddresses (newEndpointSlice : option EndpointSlice) (svc : option Service)
    (port : Z) (endpoints : list Endpoint) : list event :=
  flat_map
    (fun oldEndpoint =>
       flat_map
         (fun oldIP =>
            if kept newEndpointSlice svc oldIP port then []
            else [EvDeleteConntrackServicePort (ParseIPSloppy oldIP) port ProtocolUDP
                    ConntrackReplyAnyIP []])
         (Addresses oldEndpoint))
    endpoints.

(** The same for every UDP port of the old slice, port after port. *)
Definition staleEntries (old : EndpointSlice) (newEndpointSlice : option EndpointSlice)
    (svc : option Service) : list event :=
  flat_map
    (fun oldPort =>
       match portProtocol oldPort, portPort oldPort with
       | Some ProtocolUDP, Some port =>
           staleAddresses newEndpointSlice svc port (Endpoints old)
       | _, _ => []
       end)
    (Ports old).

(** Both pointers of a port are set. *)
Definition portSet (p : EndpointPort) : Prop :=
  is_Some (portProtocol p) /\ is_Some (portPort p).

End Stale.

End Stale.

(** ** What a heartbeat is built from and what it leaves on the wire *)

Module Beats.

Import Heartbeat HeartbeatRun.

(** The value an option carries for each of the five settings. *)
Definition pickHolderIdentity (o : HeartbeatOption) : option string :=
  match o with HolderIdentityOption v => Some v | _ => None end.

Definition pickLeaseDurationSeconds (o : HeartbeatOption) : option Z :=
  match o with LeaseDurationSecondsOption v => Some v | _ => None end.

Definition pickLeaseNS (o : HeartbeatOption) : option string :=
  match o with LeaseNSOption v => Some v | _ => None end.

Definition pickMode (o : HeartbeatOption) : option string :=
  match o with ModeOption v => Some v | _ => None end.

Definition pickInterval (o : HeartbeatOption) : option Z :=
  match o with IntervalOption v => Some v | _ => None end.

(** The value the last option of one kind carries, [zero] when there is no
    option of that kind. *)
Definition given {A : Type} (pick : HeartbeatOption -> option A)
    (opts : list HeartbeatOption) (zero : A) : A :=
  default zero (last (omap pick opts)).

(** The specs of the leases sent in update requests, in order. *)
Definition updatedSpecs (t : list call) : list LeaseSpec :=
  flat_map (fun c => match c with CallUpdate _ l => [Spec l] | _ => [] end) t.

(** A renewal, or the report of a failure. *)
Definition isRenewal (ns : string) (c : call) : Prop :=
  (exists l, c = CallUpdate ns l) \/ (exists e, c = Send (Some e)).

(** A listing, or the report of a failure. *)
Definition isCheck (ns : string) (c : call) : Prop :=
  c = CallList ns \/ (exists e, c = Send (Some e)).

Definition isSend (c : call) : Prop := exists err, c = Send err.

Definition isDelete (c : call) : Prop := exists ns name, c = CallDelete ns name.

(** A run that has not started renewing: at most two requests, nothing sent,
    nothing deleted. *)
Definition notStarted (t : list call) : Prop :=
  (length t <= 2)%nat
  /\ Forall (fun c => ~ isSend c) t
  /\ Forall (fun c => ~ isDelete c) t.

(** A run that ends with the one deletion of the lease [name] of [ns] and the
    send of its result, every earlier send carrying an error. *)
Definition released (ns name : string) (Delete : option error) (t : list call) : Prop :=
  exists t0,
    t = t0 ++ [CallDelete ns name; Send Delete]
    /\ Forall (fun c => ~ isDelete c) t0
    /\ Forall (fun c => c <> Send None) t0.

(** The server answers an update with a lease that has kept its acquire
    time. *)
Definition echoes (Update : nat -> Lease -> error + Lease) : Prop :=
  forall i l answered,
    Update i l = inr answered -> AcquireTime (Spec answered) = AcquireTime (Spec l).

(** What tick [k] of the host side leaves: the listing, and a send unless the
    check answered [(true, nil)]. *)
Definition hostTick (List : nat -> error + list Lease) (hostClock : nat -> nat -> Z)
    (ns : string) (k : nat) : list call :=
  CallList ns ::
  match isHeartBeatValid (List k) ns (hostClock k) with
  | Returned (true, None) => []
  | Returned (_, err) => [Send err]
  | Panic => []
  end.

End Beats.

(** ** More concrete inputs *)

Module MoreExamples.

(** The environment of a node whose management port comes from the resource
    [mellanox.com/sriov_mgmt], with two devices. *)
Definition getenv (envName : string) : string :=
  if String.eqb envName "PCIDEVICE_MELLANOX_COM_SRIOV_MGMT"
  then "0000:03:00.2,0000:03:00.3"
  else "".

(** Two NetFlow collectors, the second on the node itself. *)
Definition collector1 : Collectors.HostPort :=
  {| Collectors.Host := Some [Byte.x0a; Byte.x00; Byte.x00; Byte.x01];
     Collectors.Port := 2055 |}.

Definition collector2 : Collectors.HostPort :=
  {| Collectors.Host := None; Collectors.Port := 2056 |}.

Definition ipString (ip : list Byte.byte) : string := "10.0.0.1".

Definition joinHostPort (host : string) (port : Z) : string :=
  host +:+ ":" +:+ (if Z.eqb port 2055 then "2055" else "2056").

(** A namespace with [key] set to [value]. *)
Definition withAnnotation (namespace : Namespace) (key value : string) : Namespace :=
  {| nsName := nsName namespace;
     Annotations := <[key := value]> (Annotations namespace) |}.

(** A DPU-host configuration of zone ["zoneA"]. *)
Definition cfgHost : Config :=
  {| Mode := NodeModeDPUHost; Zone := "zoneA"; EnableInterconnect := true;
     IPv4Mode := true; IPv6Mode := false |}.

(** The accelerator node of zone ["zoneA"], ready or not, and the host it
    sits in. *)
Definition dpuNode (ready : bool) : Waits.LabelledNode :=
  {| Waits.node := Examples.nodeA; Waits.Labels := ∅; Waits.HasDPUNodeReady := ready |}.

Definition hostNode : Waits.LabelledNode :=
  {| Waits.node := Examples.nodeA;
     Waits.Labels := {[ "k8s.ovn.org/dpu-host" := "" ]};
     Waits.HasDPUNodeReady := false |}.

(** The node list cannot be fetched at first, then shows the accelerator not
    ready, and ready from the third pass on. *)
Definition dpuNodes (k : nat) : error + list Waits.LabelledNode :=
  match k with
  | 0%nat => inl (Errorf "the server is currently unable to handle the request")
  | 1%nat => inr [hostNode; dpuNode false]
  | _ => inr [hostNode; dpuNode true]
  end.

(** The node [nodeA] once it has recorded itself as migrated. *)
Definition nodeMigrated : Node :=
  {| nodeName := "node1"; GetNodeZone := "zoneA"; NoHostSubnet := false;
     ParseNodeHostSubnetAnnotation := inr []; HasNodeMigratedZone := true |}.

(** The node without its host-subnet annotation, and with it. *)
Definition nodeNoSubnet : Node :=
  {| nodeName := "node1"; GetNodeZone := "zoneA"; NoHostSubnet := false;
     ParseNodeHostSubnetAnnotation :=
       inl (mkError "node annotation k8s.ovn.org/node-subnets not found" AnnotationNotSet);
     HasNodeMigratedZone := false |}.

Definition subnetA : IPNet := {| cidr := "10.244.1.0/24"; IsIPv6CIDR := false |}.

Definition nodeSubnet : Node :=
  {| nodeName := "node1"; GetNodeZone := "zoneA"; NoHostSubnet := false;
     ParseNodeHostSubnetAnnotation := inr [subnetA];
     HasNodeMigratedZone := false |}.

(** The node is annotated with its subnet from the second pass on. *)
Definition getNode (k : nat) : error + Node :=
  match k with
  | 0%nat => inr nodeNoSubnet
  | _ => inr nodeSubnet
  end.

(** A node of zone ["zoneB"] with one subnet, and a world in which the
    southbound database prints a row for every query. *)
Definition subnetB : IPNet := {| cidr := "10.244.2.0/24"; IsIPv6CIDR := false |}.

Definition nodeB : Node :=
  {| nodeName := "node2"; GetNodeZone := "zoneB"; NoHostSubnet := false;
     ParseNodeHostSubnetAnnotation := inr [subnetB];
     HasNodeMigratedZone := false |}.

Definition readyWorld (k : nat) : World :=
  {| GetNodes := inr [Examples.nodeA; nodeB]; GetServices := inr [];
     GetAllPods := inr [Examples.pod1];
     RunOVNSbctl := fun _ => ("0b8c5bd4-45a2-4d52-9d2c-7f3a5a5f0a11", "", None) |}.

(** The gateway [192.0.2.1] answers ARP requests. *)
Definition gatewayMAC : list Byte.byte :=
  [Byte.x0a; Byte.x58; Byte.x0a; Byte.xf4; Byte.x00; Byte.x01].

Definition arpAnswers (gwIP : string) : error + list Byte.byte :=
  if String.eqb gwIP "192.0.2.1" then inr gatewayMAC
  else inl (Errorf "no ARP reply").

(** A lease server that stores what it is sent, a lease that does not exist
    yet, and a clock that advances by 10s between two readings. *)
Definition notFound : error := mkError "leases.coordination.k8s.io node1 not found" NotFound.

Definition stores (i : nat) (l : Heartbeat.Lease) : error + Heartbeat.Lease := inr l.

Definition creates (l : Heartbeat.Lease) : option Heartbeat.Lease * option error :=
  (Some l, None).

Definition everyTenSeconds (i : nat) : Z := Z.of_nat i * 10 * Second.

Definition beat : HeartbeatRun.heartbeat :=
  HeartbeatRun.newHeartbeat "dpu" "node1" [HeartbeatRun.HolderIdentityOption "node1"].

(** A lease that was created without renew time and never renewed: both
    times are [nil]. *)
Definition unsetLease : Heartbeat.Lease :=
  {| Heartbeat.Name := "dpu-0";
     Heartbeat.Spec :=
       {| Heartbeat.HolderIdentity := Some "dpu-0";
          Heartbeat.LeaseDurationSeconds := Some 40;
          Heartbeat.AcquireTime := None;
          Heartbeat.RenewTime := None |} |}.

(** The host is shown one fresh and one stale lease in every tick. *)
Definition listsBoth (k : nat) : error + list Heartbeat.Lease :=
  inr [Examples.freshLease; Examples.staleLease].

End MoreExamples.

(** * Properties *)

(** ** Strings *)

Module GoProps.

Lemma HasPrefix_app (sub rest : string) : HasPrefix (sub +:+ rest) sub = true.
Proof.
  induction sub as [|c sub IH]; simpl; [reflexivity|].
  rewrite Ascii.eqb_refl. exact IH.
Qed.

Lemma HasPrefix_inv (s sub : string) :
  HasPrefix s sub = true -> exists rest, s = sub +:+ rest.
Proof.
  revert s. induction sub as [|c sub IH]; intros s H; simpl in *.
  - exists s. reflexivity.
  - destruct s as [|d s]; [discriminate|].
    destruct (Ascii.eqb c d) eqn:E; [|discriminate].
    apply Ascii.eqb_eq in E. subst d.
    destruct (IH _ H) as [rest ->]. exists rest. reflexivity.
Qed.

Lemma HasPrefix_Contains (s sub : string) :
  HasPrefix s sub = true -> Contains s sub = true.
Proof. intros H. destruct s; simpl; rewrite H; reflexivity. Qed.

(** [strings.Contains] finds exactly the substrings. *)
Lemma Contains_spec (s sub : string) :
  Contains s sub = true <-> exists before after, s = before +:+ sub +:+ after.
Proof.
  split.
  - induction s as [|c s IH]; simpl; intros H.
    + rewrite orb_false_r in H. apply HasPrefix_inv in H as [rest H].
      exists "", rest. exact H.
    + apply orb_true_iff in H as [H|H].
      * apply HasPrefix_inv in H as [rest H]. exists "", rest. exact H.
      * destruct (IH H) as (before & after & ->).
        exists (String c before), after. reflexivity.
  - intros (before & after & ->).
    induction before as [|c before IH].
    + change (Contains (sub +:+ after) sub = true).
      apply HasPrefix_Contains, HasPrefix_app.
    + change (Contains (String c (before +:+ sub +:+ after)) sub = true).
      simpl. rewrite IH. apply orb_true_r.
Qed.

Lemma Contains_app (before sub after : string) :
  Contains (before +:+ sub +:+ after) sub = true.
Proof. apply Contains_spec. eauto. Qed.

(** An [int32] number of seconds fits a [time.Duration]. *)
Lemma wrap64_small (z : Z) : - 2 ^ 63 <= z < 2 ^ 63 -> wrap64 z = z.
Proof.
  intros H. unfold wrap64.
  rewrite Z.mod_small by lia. lia.
Qed.

End GoProps.

(** ** The lease check *)

Module HeartbeatProps.

Import Heartbeat GoProps.

Lemma seconds_int32 (d : Z) : int32_range d -> seconds d = 1000000000 * d.
Proof.
  unfold int32_range, seconds. intros H. apply wrap64_small. lia.
Qed.

Lemma expiredAt_iff (l : Lease) (renew d now : Z) :
  typed l ->
  RenewTime (Spec l) = Some renew ->
  LeaseDurationSeconds (Spec l) = Some d ->
  expiredAt renew d now = true <-> expired l now.
Proof.
  intros Ht Hr Hd. unfold expiredAt, expired.
  rewrite (seconds_int32 d (Ht d Hd)), Z.ltb_lt. split.
  - intros H. exists renew, d. auto.
  - intros (r' & d' & Hr' & Hd' & H). congruence.
Qed.

Lemma checkLeases_expired (clock : nat -> Z) (items : list Lease) :
  Forall typed items ->
  forall (k j : nat) (l : Lease),
    items !! j = Some l ->
    expired l (clock (k + j)%nat) ->
    (forall i l', (i < j)%nat -> items !! i = Some l' -> set l') ->
    exists e, checkLeases clock k items = Returned (false, Some e).
Proof.
  induction 1 as [|l0 items Ht0 Hts IH]; intros k j l Hl Hexp Hset.
  - discriminate.
  - destruct j as [|j]; simpl in Hl.
    + injection Hl as <-. destruct Hexp as (renew & d & Hr & Hd & Hlt).
      simpl. rewrite Hr, Hd.
      replace (k + 0)%nat with k in Hlt by lia.
      assert (expiredAt renew d (clock k) = true) as ->.
      { apply (expiredAt_iff l0); auto. exists renew, d. auto. }
      eauto.
    + destruct (Hset 0%nat l0 ltac:(lia) eq_refl) as [[renew Hr] [d Hd]].
      simpl. rewrite Hr, Hd.
      destruct (expiredAt renew d (clock k)); [eauto|].
      apply (IH (S k) j l Hl).
      * replace (S k + j)%nat with (k + S j)%nat by lia. exact Hexp.
      * intros i l' Hi Hl'. apply (Hset (S i) l'); [lia | exact Hl'].
Qed.

Lemma checkLeases_true (clock : nat -> Z) (items : list Lease) :
  Forall typed items ->
  forall k : nat,
    checkLeases clock k items = Returned (true, None) <->
    (forall j l, items !! j = Some l -> set l /\ ~ expired l (clock (k + j)%nat)).
Proof.
  induction 1 as [|l0 items Ht0 Hts IH]; intros k; simpl.
  - split; [intros _ j l H; discriminate | reflexivity].
  - destruct (RenewTime (Spec l0)) as [renew|] eqn:Hr.
    2:{ split; [discriminate|]. intros H.
        destruct (H 0%nat l0 eq_refl) as [[[? Hs] _] _]. congruence. }
    destruct (LeaseDurationSeconds (Spec l0)) as [d|] eqn:Hd.
    2:{ split; [discriminate|]. intros H.
        destruct (H 0%nat l0 eq_refl) as [[_ [? Hs]] _]. congruence. }
    destruct (expiredAt renew d (clock k)) eqn:E.
    + split; [discriminate|]. intros H.
      destruct (H 0%nat l0 eq_refl) as [_ Hn]. exfalso. apply Hn.
      replace (k + 0)%nat with k by lia.
      apply (expiredAt_iff l0 renew d); auto.
    + rewrite IH. split.
      * intros H [|j] l Hl; simpl in Hl.
        -- injection Hl as <-. split; [split; eauto|].
           replace (k + 0)%nat with k by lia.
           rewrite <- (expiredAt_iff l0 renew d) by auto. congruence.
        -- replace (k + S j)%nat with (S k + j)%nat by lia. auto.
      * intros H j l Hl.
        replace (S k + j)%nat with (k + S j)%nat by lia. apply H. exact Hl.
Qed.

(** [isHeartBeatValid] answers [false] with an error when no lease is
    listed; it answers [false] as soon as one listed lease has
    [renewTime + leaseDurationSeconds < now] when it is examined, whatever the
    other leases are, provided the leases examined before it have their renew
    time and their duration set; and it answers [true] exactly when the list is
    not empty and no lease is expired. *)
Theorem isHeartBeatValid_spec (ns : string) (clock : nat -> Z) (items : list Lease) :
  Forall typed items ->
  (items = [] ->
   exists e, isHeartBeatValid (inr items) ns clock = Returned (false, Some e))
  /\ (forall j l,
        items !! j = Some l ->
        expired l (clock j) ->
        (forall i l', (i < j)%nat -> items !! i = Some l' -> set l') ->
        exists e, isHeartBeatValid (inr items) ns clock = Returned (false, Some e))
  /\ (isHeartBeatValid (inr items) ns clock = Returned (true, None) <->
      items <> [] /\
      forall j l, items !! j = Some l -> set l /\ ~ expired l (clock j)).
Proof.
  intros Ht. split; [|split].
  - intros ->. simpl. eauto.
  - intros j l Hl Hexp Hset. unfold isHeartBeatValid.
    destruct items as [|l0 items]; [discriminate|].
    change (length (l0 :: items) =? 0)%nat with false. cbv iota.
    apply (checkLeases_expired clock _ Ht 0 j l); auto.
  - unfold isHeartBeatValid. destruct items as [|l0 items].
    + simpl. split; [discriminate | intros [H _]; congruence].
    + change (length (l0 :: items) =? 0)%nat with false. cbv iota.
      rewrite (checkLeases_true clock _ Ht 0). simpl. split.
      * intros H. split; [discriminate | exact H].
      * intros [_ H]. exact H.
Qed.

Import Examples.

Lemma leaseOf_typed (name : string) (renewedAt : Z) : typed (leaseOf name renewedAt).
Proof. intros d [= <-]. unfold int32_range. lia. Qed.

(** A fresh lease followed by a stale one: the check answers [false]. *)
Lemma isHeartBeatValid_spec_witness :
  Forall typed [freshLease; staleLease]
  /\ expired staleLease (atSecond100 1)
  /\ ~ expired freshLease (atSecond100 0)
  /\ exists e,
       isHeartBeatValid (inr [freshLease; staleLease]) "dpu-lease-zone" atSecond100
       = Returned (false, Some e).
Proof.
  assert (Ht : Forall typed [freshLease; staleLease]).
  { constructor; [apply leaseOf_typed|]. constructor; [apply leaseOf_typed|]. constructor. }
  assert (He : expired staleLease (atSecond100 1)).
  { exists (10 * Second), 40. repeat split. }
  split; [exact Ht|]. split; [exact He|]. split.
  - intros (renew & d & [= <-] & [= <-] & H). vm_compute in H. discriminate.
  - destruct (isHeartBeatValid_spec "dpu-lease-zone" atSecond100 _ Ht) as (_ & H & _).
    apply (H 1%nat staleLease eq_refl He).
    intros [|i] l' Hi Hl'; [|lia]. injection Hl' as <-.
    split; eexists; reflexivity.
Defined.

(** C9 fails on the code: a lease without renew time is listed before an
    expired lease.  The list holds a lease with
    [renewTime + leaseDurationSeconds < now], so the check has to answer
    [false]; the loop dereferences the renew time of the first lease and
    panics before it has looked at the expired one. *)
Theorem isHeartBeatValid_unset_lease_panics :
  RenewTime (Spec MoreExamples.unsetLease) = None
  /\ expired staleLease (atSecond100 1)
  /\ isHeartBeatValid (inr [MoreExamples.unsetLease; staleLease]) "dpu-lease-zone"
       atSecond100
     = Panic
  /\ isHeartBeatValid (inr [freshLease; MoreExamples.unsetLease; staleLease])
       "dpu-lease-zone" atSecond100
     = Panic.
Proof.
  split; [reflexivity|]. split.
  - exists (10 * Second), 40. repeat split.
  - split; vm_compute; reflexivity.
Qed.

End HeartbeatProps.

(** ** Polling *)

Module WaitProps.

Section Poll.

Context {S : Type}.
Variable condition : nat -> S -> W (S * bool).

#[local] Abbreviation passes := (passes condition).

Lemma passes_length (n k : nat) (vars : S) : (length (passes n k vars) <= n)%nat.
Proof.
  revert k vars. induction n as [|n IH]; intros k vars; simpl; [lia|].
  destruct (snd (snd (condition k vars))); simpl; [lia|].
  specialize (IH (Datatypes.S k) (fst (snd (condition k vars)))). lia.
Qed.

(** The trace of a wait is the traces of its passes, in order. *)
Lemma pollFrom_trace (n k : nat) (vars : S) :
  fst (pollFrom condition n k vars) = concat (map fst (passes n k vars)).
Proof.
  revert k vars. induction n as [|n IH]; intros k vars; simpl; [reflexivity|].
  unfold bind. destruct (condition k vars) as [t [vars' done]]; simpl.
  destruct done; simpl.
  - reflexivity.
  - specialize (IH (Datatypes.S k) vars').
    destruct (pollFrom condition n (Datatypes.S k) vars') as [t2 r]. simpl in *.
    congruence.
Qed.

(** A wait succeeds exactly when its last pass answers [true]. *)
Lemma pollFrom_result (n k : nat) (vars : S) :
  snd (pollFrom condition n k vars) =
  match last (passes n k vars) with
  | Some (_, (vars', true)) => (vars', None)
  | Some (_, (vars', false)) => (vars', Some (Errorf "context deadline exceeded"))
  | None => (vars, Some (Errorf "context deadline exceeded"))
  end.
Proof.
  revert k vars. induction n as [|n IH]; intros k vars; simpl; [reflexivity|].
  unfold bind. destruct (condition k vars) as [t [vars' done]] eqn:E; simpl.
  destruct done; simpl; [reflexivity|].
  specialize (IH (Datatypes.S k) vars').
  destruct (pollFrom condition n (Datatypes.S k) vars') as [t2 r]. simpl in *.
  rewrite IH.
  destruct (passes n (Datatypes.S k) vars') as [|p ps] eqn:Ep.
  - simpl. destruct n; [reflexivity|]. simpl in Ep. discriminate.
  - change (last ((t, (vars', false)) :: p :: ps)) with (last (p :: ps)).
    destruct (last (p :: ps)) as [q|] eqn:El; [reflexivity|].
    apply last_None in El. discriminate.
Qed.

(** Passes that all answer [false] use up the whole deadline. *)
Lemma passes_all_false (n k : nat) (vars : S) :
  Forall (fun p => snd (snd p) = false) (passes n k vars) ->
  length (passes n k vars) = n.
Proof.
  revert k vars. induction n as [|n IH]; intros k vars; simpl; [reflexivity|].
  intros H. inversion H as [|p ps Hp Hps]; subst. rewrite Hp in *.
  simpl. f_equal. apply IH. exact Hps.
Qed.

(** The first pass starts from the initial variables; every later pass
    starts from what the pass before it left, which answered [false]. *)
Lemma passes_lookup_0 (n k : nat) (vars : S) (p : list event * (S * bool)) :
  passes n k vars !! 0%nat = Some p -> p = condition k vars.
Proof. destruct n; simpl; [discriminate | congruence]. Qed.

Lemma passes_lookup_S (n k j : nat) (vars : S) (q : list event * (S * bool)) :
  passes n k vars !! Datatypes.S j = Some q ->
  exists p, passes n k vars !! j = Some p
    /\ snd (snd p) = false
    /\ q = condition (k + Datatypes.S j) (fst (snd p)).
Proof.
  revert k j vars. induction n as [|n IH]; intros k j vars; simpl; [discriminate|].
  destruct (snd (snd (condition k vars))) eqn:E; [discriminate|].
  destruct j as [|j].
  - intros H. apply passes_lookup_0 in H. exists (condition k vars).
    replace (k + 1)%nat with (Datatypes.S k) by lia. auto.
  - intros H. destruct (IH _ _ _ H) as (p & Hp & Hf & ->).
    exists p. replace (k + Datatypes.S (Datatypes.S j))%nat
      with (Datatypes.S k + Datatypes.S j)%nat by lia. auto.
Qed.

(** A property of the variables that every pass keeps holds after every
    pass. *)
Lemma passes_invariant (P : S -> Prop) :
  (forall k vars, P vars -> P (fst (snd (condition k vars)))) ->
  forall n k vars, P vars -> Forall (fun p => P (fst (snd p))) (passes n k vars).
Proof.
  intros Hstep. induction n as [|n IH]; intros k vars HP; simpl; [constructor|].
  constructor; [apply Hstep, HP|].
  destruct (snd (snd (condition k vars))); [constructor|].
  apply IH, Hstep, HP.
Qed.

End Poll.

(** Checking by computation that every pass of a list answered [false]. *)
Lemma Forall_false_check {A : Type} (f : A -> bool) (l : list A) :
  forallb (fun p => negb (f p)) l = true -> Forall (fun p => f p = false) l.
Proof.
  induction l as [|x l IH]; simpl; [constructor|].
  intros H. apply andb_true_iff in H as [Hx Hl].
  constructor; [apply negb_true_iff, Hx | apply IH, Hl].
Qed.

Lemma attempts_500ms_300s : attempts (500 * Millisecond) (300 * Second) = 600%nat.
Proof. reflexivity. Qed.

End WaitProps.

(** ** The zone-match wait *)

Module ZoneProps.

Import Controller WaitProps GoProps.

Section Zone.

Variable OvnDefaultZone : string.
Variable cfg : Config.
Variable name : string.
Variable world : nat -> World.

#[local] Abbreviation getZone := (getOVNSBZone OvnDefaultZone world).
#[local] Abbreviation condition := (zoneCondition OvnDefaultZone cfg name world).
#[local] Abbreviation zoneRead := (zoneRead OvnDefaultZone world).
#[local] Abbreviation matches := (matches OvnDefaultZone cfg world).
#[local] Abbreviation missErr := (missErr OvnDefaultZone cfg name world).
#[local] Abbreviation missVars := (missVars OvnDefaultZone cfg name world).

Lemma getOVNSBZone_trace (k : nat) : getZone k = ([zoneQuery], zoneRead k).
Proof.
  unfold zoneRead, getOVNSBZone, sbctl, bind, emit, ret. simpl.
  destruct (RunOVNSbctl (world k) _) as [[dbZone stderr] [e|]]; simpl;
    [destruct (Contains stderr _)|]; reflexivity.
Qed.

Lemma zoneCondition_miss (k : nat) (vars : zoneVars) :
  ~ matches k -> condition k vars = ([zoneQuery], (missVars k, false)).
Proof.
  intros Hm. unfold zoneCondition, bind, missVars, missErr, matches in *.
  rewrite getOVNSBZone_trace. destruct (zoneRead k) as [zone [e|]]; simpl.
  - reflexivity.
  - destruct (String.eqb (Zone cfg) zone) eqn:E; simpl; [|reflexivity].
    apply String.eqb_eq in E. subst zone. contradiction.
Qed.

Lemma zoneCondition_hit (k : nat) (vars : zoneVars) :
  matches k ->
  condition k vars =
  ([zoneQuery],
   ({| sbZone := Zone cfg; zoneErr := None; zoneErr1 := zoneErr1 vars |}, true)).
Proof.
  intros Hm. unfold zoneCondition, bind, matches in *.
  rewrite getOVNSBZone_trace, Hm. simpl. rewrite String.eqb_refl. reflexivity.
Qed.

Lemma poll_miss (n : nat) :
  forall (k : nat) (vars : zoneVars),
    (forall j, (k <= j < k + n)%nat -> ~ matches j) ->
    pollFrom condition n k vars =
    (repeat zoneQuery n,
     (match n with O => vars | Datatypes.S n' => missVars (k + n') end,
      Some (Errorf "context deadline exceeded"))).
Proof.
  induction n as [|n IH]; intros k vars Hm; simpl; [reflexivity|].
  rewrite zoneCondition_miss by (apply Hm; lia). unfold bind.
  rewrite IH by (intros j Hj; apply Hm; lia). simpl.
  destruct n as [|n]; simpl.
  - replace (k + 0)%nat with k by lia. reflexivity.
  - replace (Datatypes.S (k + n)) with (k + Datatypes.S n)%nat by lia. reflexivity.
Qed.

Lemma poll_hit (n : nat) :
  forall (k m : nat) (vars : zoneVars),
    (m < n)%nat ->
    matches (k + m) ->
    (forall j, (k <= j < k + m)%nat -> ~ matches j) ->
    exists vars',
      pollFrom condition n k vars = (repeat zoneQuery (Datatypes.S m), (vars', None))
      /\ sbZone vars' = Zone cfg.
Proof.
  induction n as [|n IH]; intros k m vars Hlt Hhit Hm; [lia|].
  destruct m as [|m]; simpl.
  - replace (k + 0)%nat with k in Hhit by lia.
    rewrite (zoneCondition_hit k vars Hhit). unfold bind, ret. simpl. eauto.
  - rewrite zoneCondition_miss by (apply Hm; lia). unfold bind.
    destruct (IH (Datatypes.S k) m (missVars k)) as (vars' & -> & Hz).
    + lia.
    + replace (Datatypes.S k + m)%nat with (k + Datatypes.S m)%nat by lia. exact Hhit.
    + intros j Hj. apply Hm. lia.
    + exists vars'. split; [reflexivity | exact Hz].
Qed.

(** C5, as amended.  Outside DPU-host mode the zone-match wait polls every
    500ms for 300s, 600 passes.  It succeeds at the first pass that reads the
    desired zone.  If none of the 600 passes does, it fails with an error that
    carries what the last pass recorded: the zone that pass read, when it read
    one, and the failure of the read otherwise. *)
Theorem Start_zoneMatch_spec :
  Mode cfg <> NodeModeDPUHost ->
  attempts zoneInterval zoneTimeout = 600%nat
  /\ (forall k,
        (k < 600)%nat -> matches k -> (forall j, (j < k)%nat -> ~ matches j) ->
        Start_zoneMatch OvnDefaultZone cfg name world
        = (repeat zoneQuery (Datatypes.S k), (Zone cfg, None)))
  /\ ((forall k, (k < 600)%nat -> ~ matches k) ->
      Start_zoneMatch OvnDefaultZone cfg name world
      = (repeat zoneQuery 600,
         (fst (zoneRead 599%nat),
          Some (Errorf ("timed out waiting for the node zone " +:+ Zone cfg
                        +:+ " to match the OVN Southbound db zone, err: "
                        +:+ "context deadline exceeded"
                        +:+ ", err1: " +:+ Error (missErr 599%nat)))))
      /\ (forall zone, zoneRead 599%nat = (zone, None) ->
          Error (missErr 599%nat)
          = "node " +:+ name +:+ " zone " +:+ Zone cfg
            +:+ " mismatch with the Southbound zone " +:+ zone)
      /\ (forall zone e, zoneRead 599%nat = (zone, Some e) ->
          Error (missErr 599%nat)
          = "failed to get the zone name from the OVN Southbound db server, err : "
            +:+ Error e)).
Proof.
  intros Hmode.
  assert (Hat : attempts zoneInterval zoneTimeout = 600%nat) by reflexivity.
  split; [exact Hat|]. split.
  - intros k Hk Hhit Hmiss. unfold Start_zoneMatch, PollUntilContextTimeout.
    rewrite Hat.
    destruct (poll_hit 600 0 k zoneVars0 Hk Hhit) as (vars' & E & Hz).
    { intros j Hj. apply Hmiss. lia. }
    destruct (Mode cfg); try contradiction; rewrite E; cbv [bind ret];
      rewrite Hz, app_nil_r; reflexivity.
  - intros Hmiss. split; [|split].
    + unfold Start_zoneMatch, PollUntilContextTimeout. rewrite Hat.
      pose proof (poll_miss 600 0 zoneVars0) as E.
      rewrite E by (intros j Hj; apply Hmiss; lia).
      destruct (Mode cfg); try contradiction; cbv [bind ret];
        rewrite app_nil_r; reflexivity.
    + intros zone E. unfold Controller.missErr.
      change (Controller.zoneRead OvnDefaultZone world 599) with (zoneRead 599%nat).
      rewrite E. reflexivity.
    + intros zone e E. unfold Controller.missErr.
      change (Controller.zoneRead OvnDefaultZone world 599) with (zoneRead 599%nat).
      rewrite E. reflexivity.
Qed.

End Zone.

Import Examples.

Lemma zoneBWorld_no_match (k : nat) :
  ~ Controller.matches "global" cfgA zoneBWorld k.
Proof. destruct k; unfold Controller.matches; simpl; discriminate. Qed.

Lemma flakyWorld_no_match (k : nat) :
  ~ Controller.matches "global" cfgA flakyWorld k.
Proof. destruct k; unfold Controller.matches; simpl; discriminate. Qed.

(** The example of the specification: desired zone ["zoneA"], observed zones
    [""], ["zoneB"], ["zoneB"], ... for 300s; the failure names ["zoneB"]. *)
Lemma Start_zoneMatch_spec_witness :
  Mode cfgA <> NodeModeDPUHost
  /\ exists z e,
       Start_zoneMatch "global" cfgA "node1" zoneBWorld
       = (repeat zoneQuery 600, (z, Some e))
       /\ Contains (Error e) "zoneB" = true.
Proof.
  assert (Hmode : Mode cfgA <> NodeModeDPUHost) by discriminate.
  split; [exact Hmode|].
  destruct (Start_zoneMatch_spec "global" cfgA "node1" zoneBWorld Hmode)
    as (_ & _ & Hfail).
  destruct (Hfail (fun k _ => zoneBWorld_no_match k)) as (E & _ & _).
  eexists _, _. split; [exact E|]. vm_compute. reflexivity.
Defined.

(** C5, as stated, fails: the southbound database answers ["zoneB"] at the
    first pass and cannot be reached at any later one.  No pass matches, the
    last observed zone is ["zoneB"], and the error of the wait does not
    mention it. *)
Lemma Start_zoneMatch_error_without_zone :
  (forall k, ~ Controller.matches "global" cfgA flakyWorld k)
  /\ lastObservedZone "global" flakyWorld 600 = Some "zoneB"
  /\ exists z e,
       snd (Start_zoneMatch "global" cfgA "node1" flakyWorld) = (z, Some e)
       /\ Contains (Error e) "zoneB" = false.
Proof.
  split; [exact flakyWorld_no_match|].
  split; [vm_compute; reflexivity|].
  eexists _, _. split; vm_compute; reflexivity.
Qed.

End ZoneProps.

(** ** The interconnect upgrade barrier *)

Module BarrierProps.

Import Controller WaitProps GoProps.

Lemma bind_fst {A B} (m : W A) (f : A -> W B) :
  fst (bind m f) = fst m ++ fst (f (snd m)).
Proof. unfold bind. destruct m as [t a]. simpl. destruct (f a). reflexivity. Qed.

Lemma bind_snd {A B} (m : W A) (f : A -> W B) :
  snd (bind m f) = snd (f (snd m)).
Proof. unfold bind. destruct m as [t a]. simpl. destruct (f a). reflexivity. Qed.

Lemma Forall_isSbctl_app (t1 t2 : list event) :
  Forall isSbctl t1 -> Forall isSbctl t2 -> Forall isSbctl (t1 ++ t2).
Proof. intros H1 H2. apply Forall_app. auto. Qed.

Section Barrier.

Variable OvnDefaultZone : string.
Variable GetLogicalPortName : string -> string -> string.
Variable cfg : Config.
Variable name : string.
Variable world : nat -> World.
Variable SetNodeZoneMigrated : string -> option error.
Variable AnnotatorRun : option error.
Variable SetDBAuth : OvnDB -> option error.

#[local] Abbreviation nodesBlock := (nodesBlock cfg name world).
#[local] Abbreviation servicesBlock := (servicesBlock world).
#[local] Abbreviation podsBlock := (podsBlock GetLogicalPortName name world).
#[local] Abbreviation hackCondition := (hackCondition GetLogicalPortName cfg name world).

Lemma sbctl_trace (k : nat) (args : list string) :
  Forall isSbctl (fst (sbctl world k args)).
Proof. unfold sbctl. simpl. repeat constructor. Qed.

Lemma checkOVNSBNodeLRSR_trace (k : nat) (nodeSubnet : IPNet) :
  Forall isSbctl (fst (checkOVNSBNodeLRSR cfg world k nodeSubnet)).
Proof.
  unfold checkOVNSBNodeLRSR. rewrite !bind_fst.
  repeat apply Forall_isSbctl_app.
  - destruct (_ && _); [|constructor]. rewrite bind_fst.
    apply Forall_isSbctl_app; [apply sbctl_trace|].
    destruct (snd _) as [[? ?] ?]. constructor.
  - destruct (IPv4Mode cfg && _); [|constructor]. rewrite bind_fst.
    apply Forall_isSbctl_app; [apply sbctl_trace|].
    destruct (snd _) as [[? ?] ?]. constructor.
  - constructor.
Qed.

Lemma subnetsLoop_trace (k : nat) (node : Node) (nodeSubnets : list IPNet) :
  Forall isSbctl (fst (subnetsLoop cfg world k node nodeSubnets)).
Proof.
  induction nodeSubnets as [|s rest IH]; simpl; [constructor|].
  rewrite bind_fst. apply Forall_isSbctl_app; [apply checkOVNSBNodeLRSR_trace|].
  destruct (negb _); [constructor | exact IH].
Qed.

Lemma nodesLoop_trace (k : nat) (nodes : list Node) :
  Forall isSbctl (fst (nodesLoop cfg name world k nodes)).
Proof.
  induction nodes as [|node rest IH]; simpl; [constructor|].
  destruct (_ && _); [|exact IH].
  destruct (ParseNodeHostSubnetAnnotation node) as [err|nodeSubnets].
  - destruct (IsAnnotationNotSetError err); [exact IH | constructor].
  - rewrite bind_fst. apply Forall_isSbctl_app; [apply subnetsLoop_trace|].
    destruct (snd _); [constructor | exact IH].
Qed.

Lemma podsLoop_trace (k : nat) (pods : list Pod) :
  Forall isSbctl (fst (podsLoop GetLogicalPortName name world k pods)).
Proof.
  induction pods as [|p rest IH]; simpl; [constructor|].
  destruct (_ || _); [exact IH|].
  destruct (negb (String.eqb _ _)); [exact IH|].
  rewrite bind_fst. apply Forall_isSbctl_app.
  - unfold portExists. rewrite bind_fst.
    apply Forall_isSbctl_app; [apply sbctl_trace|].
    destruct (snd _) as [[? ?] ?]. constructor.
  - destruct (negb _); [constructor | exact IH].
Qed.

(** What a block does when it runs: it asks the cluster once, then reads the
    southbound database, sets its own flag exactly when it goes on, and leaves
    the other two flags alone. *)
Lemma nodesBlock_spec (k : nat) (vars : hackVars) :
  exists t vars' go,
    nodesBlock k vars = (EvGetNodes :: t, (vars', go))
    /\ Forall isSbctl t
    /\ syncNodes vars' = (syncNodes vars || go)
    /\ syncServices vars' = syncServices vars
    /\ syncPods vars' = syncPods vars.
Proof.
  unfold Controller.nodesBlock, bind, emit. simpl.
  destruct (GetNodes (world k)) as [err|nodes]; simpl.
  - eexists _, _, _. split; [reflexivity|]. simpl.
    rewrite orb_false_r. repeat split; constructor.
  - pose proof (nodesLoop_trace k nodes) as Ht.
    destruct (nodesLoop cfg name world k nodes) as [t [e|]]; simpl in *.
    + eexists _, _, _. split; [reflexivity|]. simpl.
      rewrite app_nil_r, orb_false_r. repeat split; exact Ht.
    + eexists _, _, _. split; [reflexivity|]. simpl.
      rewrite app_nil_r, orb_true_r. repeat split; exact Ht.
Qed.

Lemma servicesBlock_spec (k : nat) (vars : hackVars) :
  exists t vars' go,
    servicesBlock k vars = (EvGetServices :: t, (vars', go))
    /\ Forall isSbctl t
    /\ syncNodes vars' = syncNodes vars
    /\ syncServices vars' = (syncServices vars || go)
    /\ syncPods vars' = syncPods vars.
Proof.
  unfold Controller.servicesBlock, fetchLBNames, sbctl, bind, emit. simpl.
  destruct (GetServices (world k)) as [err|services]; simpl.
  - eexists _, _, _. split; [reflexivity|]. simpl.
    rewrite orb_false_r. repeat split; constructor.
  - destruct (RunOVNSbctl (world k) _) as [[stdout stderr] err]. simpl.
    destruct (servicesLoop stdout services); simpl.
    + eexists _, _, _. split; [reflexivity|]. simpl.
      rewrite orb_true_r. repeat split; repeat constructor.
    + eexists _, _, _. split; [reflexivity|]. simpl.
      rewrite orb_false_r. repeat split; repeat constructor.
Qed.

Lemma podsBlock_spec (k : nat) (vars : hackVars) :
  exists t vars' go,
    podsBlock k vars = (EvGetAllPods :: t, (vars', go))
    /\ Forall isSbctl t
    /\ syncNodes vars' = syncNodes vars
    /\ syncServices vars' = syncServices vars
    /\ syncPods vars' = (syncPods vars || go).
Proof.
  unfold Controller.podsBlock, bind, emit. simpl.
  destruct (GetAllPods (world k)) as [err|pods]; simpl.
  - eexists _, _, _. split; [reflexivity|]. simpl.
    rewrite orb_false_r. repeat split; constructor.
  - pose proof (podsLoop_trace k pods) as Ht.
    destruct (podsLoop GetLogicalPortName name world k pods) as [t [|]]; simpl in *.
    + eexists _, _, _. split; [reflexivity|]. simpl.
      rewrite app_nil_r, orb_true_r. repeat split; exact Ht.
    + eexists _, _, _. split; [reflexivity|]. simpl.
      rewrite app_nil_r, orb_false_r. repeat split; exact Ht.
Qed.

(** A block behind its flag: nothing happens when the flag is set; the flag
    afterwards tells whether the closure goes on. *)
Lemma guarded_nodes (k : nat) (vars : hackVars) :
  exists t vars' go,
    guarded syncNodes (nodesBlock k) vars = (t, (vars', go))
    /\ Forall (fun e => isSbctl e \/ e = EvGetNodes) t
    /\ (syncNodes vars = true -> t = [])
    /\ (syncNodes vars = true -> go = true)
    /\ syncNodes vars' = go
    /\ syncServices vars' = syncServices vars
    /\ syncPods vars' = syncPods vars.
Proof.
  unfold guarded. destruct (syncNodes vars) eqn:E.
  - exists [], vars, true. repeat split; auto.
  - destruct (nodesBlock_spec k vars) as (t & vars' & go & -> & Ht & Hn & Hs & Hp).
    exists (EvGetNodes :: t), vars', go. rewrite E in Hn.
    repeat split; auto; try discriminate.
    constructor; [auto|]. eapply Forall_impl; [exact Ht | auto].
Qed.

Lemma guarded_services (k : nat) (vars : hackVars) :
  exists t vars' go,
    guarded syncServices (servicesBlock k) vars = (t, (vars', go))
    /\ Forall (fun e => isSbctl e \/ e = EvGetServices) t
    /\ (syncServices vars = true -> t = [])
    /\ (syncServices vars = true -> go = true)
    /\ syncNodes vars' = syncNodes vars
    /\ syncServices vars' = go
    /\ syncPods vars' = syncPods vars.
Proof.
  unfold guarded. destruct (syncServices vars) eqn:E.
  - exists [], vars, true. repeat split; auto.
  - destruct (servicesBlock_spec k vars) as (t & vars' & go & -> & Ht & Hn & Hs & Hp).
    exists (EvGetServices :: t), vars', go. rewrite E in Hs.
    repeat split; auto; try discriminate.
    constructor; [auto|]. eapply Forall_impl; [exact Ht | auto].
Qed.

Lemma guarded_pods (k : nat) (vars : hackVars) :
  exists t vars' go,
    guarded syncPods (podsBlock k) vars = (t, (vars', go))
    /\ Forall (fun e => isSbctl e \/ e = EvGetAllPods) t
    /\ (syncPods vars = true -> t = [])
    /\ (syncPods vars = true -> go = true)
    /\ syncNodes vars' = syncNodes vars
    /\ syncServices vars' = syncServices vars
    /\ syncPods vars' = go.
Proof.
  unfold guarded. destruct (syncPods vars) eqn:E.
  - exists [], vars, true. repeat split; auto.
  - destruct (podsBlock_spec k vars) as (t & vars' & go & -> & Ht & Hn & Hs & Hp).
    exists (EvGetAllPods :: t), vars', go. rewrite E in Hp.
    repeat split; auto; try discriminate.
    constructor; [auto|]. eapply Forall_impl; [exact Ht | auto].
Qed.

Lemma not_elem_of_others (ev ev' : event) (t : list event) :
  ~ isSbctl ev -> ev <> ev' ->
  Forall (fun e => isSbctl e \/ e = ev') t -> ev ∉ t.
Proof.
  intros Hs Hne Ht Hin. rewrite Forall_forall in Ht.
  destruct (Ht ev Hin) as [H|H]; [exact (Hs H) | exact (Hne H)].
Qed.

(** Uses every implication whose premise follows from the equations at hand,
    then closes a goal about a flag or about the absence of an event. *)
Ltac close_flags :=
  intros;
  repeat match goal with
    | Hgo : ?a = true -> _ |- _ =>
        let X := fresh in
        assert (X : a = true) by congruence; specialize (Hgo X); clear X
    end;
  subst;
  try discriminate; try congruence;
  rewrite ?not_elem_of_app; repeat split; auto using not_elem_of_nil.

(** One pass of the barrier. *)
Lemma hackCondition_spec (k : nat) (vars : hackVars) :
  exists t vars' done,
    hackCondition k vars = (t, (vars', done))
    /\ Forall isQuery t
    /\ done = syncNodes vars' && syncServices vars' && syncPods vars'
    /\ (syncNodes vars = true -> syncNodes vars' = true /\ EvGetNodes ∉ t)
    /\ (syncServices vars = true -> syncServices vars' = true /\ EvGetServices ∉ t)
    /\ (syncPods vars = true -> syncPods vars' = true /\ EvGetAllPods ∉ t).
Proof.
  unfold Controller.hackCondition.
  destruct (guarded_nodes k vars)
    as (t1 & vars1 & go1 & -> & Ht1 & Hskip1 & Hgo1 & Hn1 & Hs1 & Hp1).
  destruct (guarded_services k vars1)
    as (t2 & vars2 & go2 & E2 & Ht2 & Hskip2 & Hgo2 & Hn2 & Hs2 & Hp2).
  destruct (guarded_pods k vars2)
    as (t3 & vars3 & go3 & E3 & Ht3 & Hskip3 & Hgo3 & Hn3 & Hs3 & Hp3).
  assert (Q1 : Forall isQuery t1).
  { eapply Forall_impl; [exact Ht1|]. intros e [He| ->]; [destruct e; (contradiction || exact I) | exact I]. }
  assert (Q2 : Forall isQuery t2).
  { eapply Forall_impl; [exact Ht2|]. intros e [He| ->]; [destruct e; (contradiction || exact I) | exact I]. }
  assert (Q3 : Forall isQuery t3).
  { eapply Forall_impl; [exact Ht3|]. intros e [He| ->]; [destruct e; (contradiction || exact I) | exact I]. }
  assert (N1 : EvGetNodes ∉ t2).
  { apply (not_elem_of_others EvGetNodes EvGetServices); [intros [] | discriminate | exact Ht2]. }
  assert (N2 : EvGetNodes ∉ t3).
  { apply (not_elem_of_others EvGetNodes EvGetAllPods); [intros [] | discriminate | exact Ht3]. }
  assert (S1 : EvGetServices ∉ t1).
  { apply (not_elem_of_others EvGetServices EvGetNodes); [intros [] | discriminate | exact Ht1]. }
  assert (S2 : EvGetServices ∉ t3).
  { apply (not_elem_of_others EvGetServices EvGetAllPods); [intros [] | discriminate | exact Ht3]. }
  assert (P1 : EvGetAllPods ∉ t1).
  { apply (not_elem_of_others EvGetAllPods EvGetNodes); [intros [] | discriminate | exact Ht1]. }
  assert (P2 : EvGetAllPods ∉ t2).
  { apply (not_elem_of_others EvGetAllPods EvGetServices); [intros [] | discriminate | exact Ht2]. }
  unfold bind at 1. destruct go1; simpl.
  2:{ exists (t1 ++ []), vars1, false. rewrite Hn1. simpl.
      split; [reflexivity|]. rewrite app_nil_r. split; [exact Q1|].
      split; [reflexivity|]. repeat split; close_flags. }
  rewrite E2. unfold bind at 1. destruct go2; simpl.
  2:{ exists (t1 ++ t2 ++ []), vars2, false. rewrite Hn2, Hn1, Hs2. simpl.
      split; [reflexivity|]. rewrite app_nil_r.
      split; [apply Forall_app; auto|].
      split; [reflexivity|]. repeat split; close_flags. }
  rewrite E3. unfold bind at 1. simpl.
  exists (t1 ++ t2 ++ t3 ++ []), vars3, go3.
  split; [destruct go3; reflexivity|].
  rewrite app_nil_r, Hn3, Hn2, Hn1, Hs3, Hs2, Hp3. simpl.
  split; [rewrite !Forall_app; auto|].
  split; [reflexivity|].
  repeat split; close_flags.
Qed.

#[local] Abbreviation barrierPasses := (passes hackCondition).



(** A pass answers [true] exactly when it leaves all three flags set. *)
Lemma pass_done (k : nat) (vars : hackVars) :
  snd (snd (hackCondition k vars))
  = syncNodes (fst (snd (hackCondition k vars)))
    && syncServices (fst (snd (hackCondition k vars)))
    && syncPods (fst (snd (hackCondition k vars))).
Proof.
  destruct (hackCondition_spec k vars) as (t & v & d & -> & _ & Hd & _). exact Hd.
Qed.

Lemma barrier_trace_queries (n k : nat) (vars : hackVars) :
  Forall isQuery (fst (pollFrom hackCondition n k vars)).
Proof.
  revert k vars. induction n as [|n IH]; intros k vars; simpl; [constructor|].
  rewrite bind_fst.
  destruct (hackCondition_spec k vars) as (t & v & d & -> & Hq & _). simpl.
  apply Forall_app. split; [exact Hq|].
  destruct d; [constructor | apply IH].
Qed.

#[local] Abbreviation Start_upgradeHack :=
  (Start_upgradeHack OvnDefaultZone GetLogicalPortName cfg name world
     SetNodeZoneMigrated AnnotatorRun SetDBAuth).
#[local] Abbreviation barrierRun :=
  (PollUntilContextTimeout hackInterval hackTimeout hackCondition hackVars0).

Lemma attempts_barrier : attempts hackInterval hackTimeout = 600%nat.
Proof. reflexivity. Qed.

(** C1, as amended.  The barrier polls every 500ms with a timeout of 300
    seconds (5 minutes): 600 passes, pass [j] at [j * 500ms].  A pass answers
    [true] exactly when it leaves all three flags set; when none of the 600
    passes does, the wait times out and [Start] ends the process. *)
Theorem Start_upgradeHack_timeout (sbZone : string) (node : Node) :
  hackGuard OvnDefaultZone cfg sbZone node = true ->
  hackInterval = 500 * Millisecond
  /\ hackTimeout = 300 * Second
  /\ attempts hackInterval hackTimeout = 600%nat
  /\ (599 * hackInterval < hackTimeout <= 600 * hackInterval)
  /\ fst barrierRun = concat (map fst (barrierPasses 600 0 hackVars0))
  /\ (forall p, p ∈ barrierPasses 600 0 hackVars0 ->
       snd (snd p)
       = syncNodes (fst (snd p)) && syncServices (fst (snd p)) && syncPods (fst (snd p)))
  /\ (Forall (fun p => snd (snd p) = false) (barrierPasses 600 0 hackVars0) ->
      length (barrierPasses 600 0 hackVars0) = 600%nat
      /\ exists msg, Start_upgradeHack sbZone node = (fst barrierRun, Exits msg)).
Proof.
  intros Hguard.
  split; [reflexivity|]. split; [reflexivity|]. split; [reflexivity|].
  split; [vm_compute; split; [reflexivity | discriminate]|].
  split; [apply pollFrom_trace|]. split.
  - intros p Hp. apply list_elem_of_lookup in Hp as [j Hj].
    destruct j as [|j].
    + apply passes_lookup_0 in Hj as ->. apply pass_done.
    + apply passes_lookup_S in Hj as (p' & _ & _ & ->). apply pass_done.
  - intros Hall. split; [apply passes_all_false, Hall|].
    unfold Controller.Start_upgradeHack. rewrite Hguard.
    pose proof (pollFrom_result hackCondition 600 0 hackVars0) as Hres.
    pose proof (passes_all_false hackCondition 600 0 hackVars0 Hall) as Hlen.
    unfold PollUntilContextTimeout. rewrite attempts_barrier.
    destruct (last (barrierPasses 600 0 hackVars0)) as [[t [v d]]|] eqn:El.
    2:{ apply last_None in El. rewrite El in Hlen. discriminate. }
    assert (d = false) as ->.
    { rewrite Forall_forall in Hall.
      apply (Hall (t, (v, d))). apply last_Some_elem_of. exact El. }
    destruct (pollFrom hackCondition 600 0 hackVars0) as [tr r]. simpl in Hres.
    subst r. cbv [bind ret]. rewrite app_nil_r. eauto.
Qed.

(** What [Start] does after a wait that succeeded: one of five endings. *)
Lemma authLoop_both :
  authLoop SetDBAuth [OvnNorth; OvnSouth]
  = match SetDBAuth OvnNorth with
    | Some _ =>
        ([EvSetDBAuth OvnNorth],
         Exits "Upgrade hack: Unable to set the authentication towards OVN local dbs")
    | None =>
        match SetDBAuth OvnSouth with
        | Some _ =>
            ([EvSetDBAuth OvnNorth; EvSetDBAuth OvnSouth],
             Exits "Upgrade hack: Unable to set the authentication towards OVN local dbs")
        | None => ([EvSetDBAuth OvnNorth; EvSetDBAuth OvnSouth], Continues)
        end
    end.
Proof.
  simpl. unfold bind, emit, ret. simpl.
  destruct (SetDBAuth OvnNorth); [reflexivity|].
  destruct (SetDBAuth OvnSouth); reflexivity.
Qed.

(** On one and the same node object, [Start] either points the credentials
    at the databases right after the zone-match wait or enters the barrier,
    never both. *)
Lemma earlyAuth_excludes_barrier (sbZone : string) (node : Node) :
  hackGuard OvnDefaultZone cfg sbZone node = true ->
  earlyAuthGuard OvnDefaultZone cfg sbZone node = false.
Proof.
  unfold hackGuard, earlyAuthGuard. intros H.
  apply andb_true_iff in H as [H Hm]. apply andb_true_iff in H as [H Hz].
  apply andb_true_iff in H as [_ Hi].
  rewrite Hi. apply negb_true_iff in Hz, Hm. rewrite Hz, Hm.
  apply andb_false_r.
Qed.

(** C2. In every run of the barrier, each retarget of the database
    credentials comes after the marker write and after the persistence call of
    the annotator, in that order, and both have succeeded. *)
Theorem marker_before_retarget (sbZone : string) (node : Node) (i : nat) (db : OvnDB) :
  fst (Start_upgradeHack sbZone node) !! i = Some (EvSetDBAuth db) ->
  exists j1 j2 : nat,
    (j1 < j2 < i)%nat
    /\ fst (Start_upgradeHack sbZone node) !! j1 = Some (EvSetNodeZoneMigrated sbZone)
    /\ fst (Start_upgradeHack sbZone node) !! j2 = Some EvAnnotatorRun
    /\ SetNodeZoneMigrated sbZone = None
    /\ AnnotatorRun = None.
Proof.
  unfold Controller.Start_upgradeHack.
  destruct (hackGuard OvnDefaultZone cfg sbZone node); [|simpl; intros H; discriminate].
  pose proof (barrier_trace_queries (attempts hackInterval hackTimeout) 0 hackVars0) as Hq.
  unfold PollUntilContextTimeout.
  destruct (pollFrom hackCondition _ 0 hackVars0) as [tr [vars err]]. simpl in Hq.
  assert (Hpre : forall tl e, (tr ++ tl) !! i = Some e -> ~ isQuery e ->
            exists i', i = (length tr + i')%nat /\ tl !! i' = Some e).
  { intros tl e He Hn. apply lookup_app_Some in He as [He|[Hle He]].
    - rewrite Forall_forall in Hq. exfalso. apply Hn, Hq.
      apply list_elem_of_lookup. eauto.
    - exists (i - length tr)%nat. split; [lia | exact He]. }
  cbv [bind]. destruct err as [e|].
  { cbv [ret]. intros H. apply Hpre in H as (i' & _ & H); [|intros []].
    destruct i'; discriminate. }
  cbv [emit]. destruct (SetNodeZoneMigrated sbZone) as [e|].
  { cbv [ret]. intros H. apply Hpre in H as (i' & _ & H); [|intros []].
    destruct i' as [|[|i']]; discriminate. }
  destruct AnnotatorRun as [e|].
  { cbv [ret]. intros H. apply Hpre in H as (i' & _ & H); [|intros []].
    destruct i' as [|[|[|i']]]; discriminate. }
  rewrite authLoop_both.
  assert (Hfin : forall tl,
            (tr ++ EvSetNodeZoneMigrated sbZone :: EvAnnotatorRun :: tl) !! i
            = Some (EvSetDBAuth db) ->
            exists j1 j2 : nat,
              (j1 < j2 < i)%nat
              /\ (tr ++ EvSetNodeZoneMigrated sbZone :: EvAnnotatorRun :: tl) !! j1
                 = Some (EvSetNodeZoneMigrated sbZone)
              /\ (tr ++ EvSetNodeZoneMigrated sbZone :: EvAnnotatorRun :: tl) !! j2
                 = Some EvAnnotatorRun
              /\ (None : option error) = None /\ (None : option error) = None).
  { intros tl H. apply Hpre in H as (i' & -> & H); [|intros []].
    destruct i' as [|[|i']]; [discriminate | discriminate |].
    exists (length tr), (Datatypes.S (length tr)).
    split; [lia|]. split; [|split; [|split; reflexivity]].
    - rewrite lookup_app_r by lia. replace (length tr - length tr)%nat with 0%nat by lia.
      reflexivity.
    - rewrite lookup_app_r by lia.
      replace (Datatypes.S (length tr) - length tr)%nat with 1%nat by lia.
      reflexivity. }
  destruct (SetDBAuth OvnNorth); [|destruct (SetDBAuth OvnSouth)]; simpl; apply Hfin.
Qed.

(** The loop over the services answers [true] exactly when the listing of
    load-balancer names contains the stitched name of every service that has
    a cluster IP. *)
Lemma servicesLoop_spec (lbNames : string) (services : list Service) :
  servicesLoop lbNames services = true <->
  (forall s, s ∈ services ->
     ServiceTypeHasClusterIP s = true -> IsClusterIPSet s = true ->
     Contains lbNames ("Service_" +:+ svcNamespace s +:+ "/" +:+ svcName s) = true).
Proof.
  induction services as [|s rest IH]; simpl.
  - split; [intros _ s Hs; inversion Hs | reflexivity].
  - unfold lbExists.
    destruct (ServiceTypeHasClusterIP s) eqn:Et, (IsClusterIPSet s) eqn:Ei; simpl.
    + destruct (Contains lbNames _) eqn:Ec; simpl.
      * rewrite IH. split.
        -- intros H s' Hs'. apply elem_of_cons in Hs' as [->|Hs']; auto.
        -- intros H s' Hs'. apply H. apply elem_of_cons. auto.
      * split; [discriminate|]. intros H.
        rewrite <- Ec. apply H; auto. apply elem_of_cons. auto.
    + rewrite IH. split.
      * intros H s' Hs'. apply elem_of_cons in Hs' as [->|Hs']; auto. congruence.
      * intros H s' Hs'. apply H. apply elem_of_cons. auto.
    + rewrite IH. split.
      * intros H s' Hs'. apply elem_of_cons in Hs' as [->|Hs']; auto. congruence.
      * intros H s' Hs'. apply H. apply elem_of_cons. auto.
    + rewrite IH. split.
      * intros H s' Hs'. apply elem_of_cons in Hs' as [->|Hs']; auto. congruence.
      * intros H s' Hs'. apply H. apply elem_of_cons. auto.
Qed.

(** C7, as amended.  A pass that runs the service check sets the services
    flag exactly when the services can be listed and, for every service that
    has a cluster IP, the text ["Service_<namespace>/<name>"] occurs somewhere
    in the listing of load-balancer names read from the southbound database;
    services without a cluster IP are not looked at. *)
Theorem services_ready_spec (k : nat) (vars : hackVars) :
  syncServices vars = false ->
  syncServices (fst (snd (servicesBlock k vars))) = true <->
  exists services,
    GetServices (world k) = inr services
    /\ forall s, s ∈ services ->
         ServiceTypeHasClusterIP s = true -> IsClusterIPSet s = true ->
         exists before after,
           snd (fetchLBNames world k)
           = before +:+ ("Service_" +:+ svcNamespace s +:+ "/" +:+ svcName s) +:+ after.
Proof.
  intros Hflag. unfold Controller.servicesBlock. rewrite !bind_snd. simpl.
  destruct (GetServices (world k)) as [err|services]; simpl.
  - rewrite Hflag. split; [discriminate | intros (services & H & _); discriminate].
  - rewrite bind_snd.
    destruct (servicesLoop (snd (fetchLBNames world k)) services) eqn:E; simpl.
    + split; [intros _ | reflexivity]. exists services. split; [reflexivity|].
      intros s Hs Ht Hi. apply Contains_spec.
      apply (proj1 (servicesLoop_spec _ _) E); auto.
    + rewrite Hflag. split; [discriminate|].
      intros (services' & [= <-] & H).
      rewrite <- E. apply servicesLoop_spec.
      intros s Hs Ht Hi. apply Contains_spec. auto.
Qed.

End Barrier.

Import Examples.

(** C1, as stated, fails: the node list cannot be fetched for 300s and
    everything is ready from the pass at 300s on, long before 1800s; the wait
    has timed out by then and [Start] ends the process. *)
Lemma barrier_exits_after_300s :
  hackTimeout <> 1800 * Second
  /\ 600 * hackInterval = 300 * Second
  /\ snd (snd (hackCondition portName cfgA "node1" lateWorld 600 hackVars0)) = true
  /\ exists msg,
       snd (Start_upgradeHack "global" portName cfgA "node1" lateWorld
              (fun _ => None) None (fun _ => None) "zoneA" nodeA)
       = Exits msg.
Proof.
  split; [discriminate|]. split; [reflexivity|]. split; [vm_compute; reflexivity|].
  eexists. vm_compute. reflexivity.
Qed.

Lemma Start_upgradeHack_timeout_witness :
  hackGuard "global" cfgA "zoneA" nodeA = true
  /\ exists msg,
       snd (Start_upgradeHack "global" portName cfgA "node1" lateWorld
              (fun _ => None) None (fun _ => None) "zoneA" nodeA)
       = Exits msg.
Proof.
  assert (Hguard : hackGuard "global" cfgA "zoneA" nodeA = true) by reflexivity.
  split; [exact Hguard|].
  destruct (Start_upgradeHack_timeout "global" portName cfgA "node1" lateWorld
              (fun _ => None) None (fun _ => None) "zoneA" nodeA Hguard)
    as (_ & _ & _ & _ & _ & _ & Hexit).
  destruct Hexit as (_ & msg & E).
  - apply (Forall_false_check (fun p => snd (snd p))). vm_compute. reflexivity.
  - exists msg. rewrite E. reflexivity.
Defined.

(** A run in which everything is ready at the first pass and every call
    succeeds: both retargets come after the marker and its persistence. *)
Lemma marker_before_retarget_witness :
  fst (Start_upgradeHack "global" portName cfgA "node1"
         (fun _ => emptyWorld ("", "", None))
         (fun _ => None) None (fun _ => None) "zoneA" nodeA) !! 6%nat
  = Some (EvSetDBAuth OvnNorth)
  /\ exists j1 j2 : nat,
       (j1 < j2 < 6)%nat
       /\ fst (Start_upgradeHack "global" portName cfgA "node1"
                 (fun _ => emptyWorld ("", "", None))
                 (fun _ => None) None (fun _ => None) "zoneA" nodeA) !! j1
          = Some (EvSetNodeZoneMigrated "zoneA")
       /\ fst (Start_upgradeHack "global" portName cfgA "node1"
                 (fun _ => emptyWorld ("", "", None))
                 (fun _ => None) None (fun _ => None) "zoneA" nodeA) !! j2
          = Some EvAnnotatorRun.
Proof.
  assert (H : fst (Start_upgradeHack "global" portName cfgA "node1"
                     (fun _ => emptyWorld ("", "", None))
                     (fun _ => None) None (fun _ => None) "zoneA" nodeA) !! 6%nat
              = Some (EvSetDBAuth OvnNorth)) by reflexivity.
  split; [exact H|].
  destruct (marker_before_retarget _ _ _ _ _ _ _ _ _ _ _ _ H)
    as (j1 & j2 & Hlt & H1 & H2 & _ & _).
  exists j1, j2. auto.
Defined.


(** C7, as stated, fails: the southbound database holds one load balancer,
    named ["Service_default/web_TCP_cluster"]; no load balancer is keyed
    exactly ["Service_default/web"], and the service check of the barrier is
    satisfied for the service [default/web], which has a cluster IP. *)
Lemma services_ready_without_exact_key :
  "Service_" +:+ svcNamespace web +:+ "/" +:+ svcName web = "Service_default/web"
  /\ ServiceTypeHasClusterIP web = true
  /\ IsClusterIPSet web = true
  /\ GetServices (lbWorld ["Service_default/web_TCP_cluster"] 0) = inr [web]
  /\ ("Service_default/web" ∉ ["Service_default/web_TCP_cluster"])
  /\ syncServices
       (fst (snd (servicesBlock (lbWorld ["Service_default/web_TCP_cluster"]) 0 hackVars0)))
     = true.
Proof.
  split; [reflexivity|]. split; [reflexivity|]. split; [reflexivity|].
  split; [reflexivity|]. split; [|vm_compute; reflexivity].
  intros H. apply list_elem_of_singleton in H. discriminate.
Qed.

Lemma services_ready_spec_witness :
  syncServices hackVars0 = false
  /\ exists before after,
       snd (fetchLBNames (lbWorld ["Service_default/web_TCP_cluster"]) 0)
       = before +:+ "Service_default/web" +:+ after.
Proof.
  assert (Hflag : syncServices hackVars0 = false) by reflexivity.
  split; [exact Hflag|].
  destruct (proj1 (services_ready_spec (lbWorld ["Service_default/web_TCP_cluster"])
                     0 hackVars0 Hflag))
    as (services & Hs & H).
  - vm_compute. reflexivity.
  - injection Hs as <-. apply (H web); [constructor | reflexivity | reflexivity].
Defined.

End BarrierProps.

(** ** The conntrack reconciliation passes *)

Module ConntrackProps.

Import Conntrack BarrierProps.

Section Reconcile.

Variable ExternalGatewayPodIPsAnnotation : string.
Variable RoutingExternalGWsAnnotation : string.
Variable GetAdminPolicyBasedExternalRouteIPsForTargetNamespace :
  string -> error + gset string.
Variable IsIPv6String : string -> bool.
Variable GetMACAddressFromARP : string -> error + list Byte.byte.
Variable GetPods : string -> error + list Pod.
Variable DeleteConntrack :
  string -> Z -> Protocol -> ConntrackFilterType -> list (list Byte.byte) -> option error.
Variable ServiceNamespacedNameFromEndpointSlice : EndpointSlice -> error + string * string.
Variable GetService : string -> string -> error + Service.
Variable DoesEndpointSliceContainEndpoint :
  EndpointSlice -> string -> Z -> Protocol -> option Service -> bool.
Variable ParseIPSloppy : string -> string.
Variable DeleteConntrackServicePort :
  string -> Z -> Protocol -> ConntrackFilterType -> list (list Byte.byte) -> option error.

#[local] Abbreviation unresolved := (unresolved IsIPv6String GetMACAddressFromARP).
#[local] Abbreviation resolve := (resolve IsIPv6String GetMACAddressFromARP).
#[local] Abbreviation resolveAll := (resolveAll IsIPv6String GetMACAddressFromARP).
#[local] Abbreviation insertAnnotations :=
  (insertAnnotations ExternalGatewayPodIPsAnnotation RoutingExternalGWsAnnotation).
#[local] Abbreviation podIPsLoop := (podIPsLoop DeleteConntrack).
#[local] Abbreviation gatewayPodsLoop := (gatewayPodsLoop DeleteConntrack).
#[local] Abbreviation deletionError := (deletionError DeleteConntrack).
#[local] Abbreviation podErrors := (podErrors DeleteConntrack).
#[local] Abbreviation syncConntrackForExternalGateways :=
  (syncConntrackForExternalGateways ExternalGatewayPodIPsAnnotation
     RoutingExternalGWsAnnotation GetAdminPolicyBasedExternalRouteIPsForTargetNamespace
     IsIPv6String GetMACAddressFromARP GetPods DeleteConntrack).

Lemma resolve_unresolved (gwIP : string) (validMACs : gmap string (list Byte.byte)) :
  unresolved gwIP -> resolve gwIP validMACs = validMACs.
Proof.
  unfold Conntrack.unresolved, Conntrack.resolve.
  intros [->|[H|[[e H]|H]]].
  - reflexivity.
  - rewrite H, andb_false_r. reflexivity.
  - rewrite H. destruct (_ && _); reflexivity.
  - rewrite H. destruct (_ && _); reflexivity.
Qed.

(** When no gateway IP resolves, the goroutines leave the map empty. *)
Lemma resolveAll_unresolved (gatewayIPs : gset string) :
  (forall gwIP, gwIP ∈ gatewayIPs -> unresolved gwIP) ->
  resolveAll gatewayIPs = ∅.
Proof.
  intros H. unfold Conntrack.resolveAll.
  assert (Hl : forall gwIP, gwIP ∈ elements gatewayIPs -> unresolved gwIP).
  { intros gwIP Hin. apply H, elem_of_elements, Hin. }
  induction (elements gatewayIPs) as [|gwIP l IH]; simpl; [reflexivity|].
  rewrite IH by (intros x Hx; apply Hl, elem_of_cons; auto).
  apply resolve_unresolved, Hl, elem_of_cons. auto.
Qed.

Lemma allowList_empty : allowList ∅ = [sentinel].
Proof. unfold allowList. rewrite map_to_list_empty. reflexivity. Qed.

(** The sentinel is 25 bytes long, longer than the 16 bytes of a conntrack
    label and than any hardware address (6, 8 or 20 bytes): none equals it. *)
Lemma sentinel_matches_nothing (mac : list Byte.byte) :
  (length mac < 25)%nat -> mac <> sentinel.
Proof. intros H ->. vm_compute in H. lia. Qed.

(** The swap loop reverses the part of the slice between its two indices. *)
Lemma reverseLoop_rev (fuel : nat) :
  forall (pre mid suf : list Byte.byte) (i j : nat),
    (length mid <= fuel)%nat ->
    i = length pre ->
    j = (length pre + length mid - 1)%nat ->
    reverseLoop fuel i j (pre ++ mid ++ suf) = pre ++ rev mid ++ suf.
Proof.
  induction fuel as [|fuel IH]; intros pre mid suf i j Hlen Hi Hj.
  - destruct mid; [reflexivity | simpl in Hlen; lia].
  - cbn [reverseLoop]. destruct mid as [|a mid].
    { destruct (Nat.ltb_spec i j); [simpl in Hj; lia | reflexivity]. }
    destruct mid as [|b mid _] using rev_ind.
    { destruct (Nat.ltb_spec i j); [simpl in Hj; lia | reflexivity]. }
    rewrite length_cons, length_app in Hlen, Hj. simpl in Hlen, Hj.
    destruct (Nat.ltb_spec i j); [|lia].
    assert (Ei : (pre ++ (a :: mid ++ [b]) ++ suf) !! i = Some a).
    { subst i. rewrite lookup_app_r by lia. rewrite Nat.sub_diag. reflexivity. }
    assert (Ej : (pre ++ (a :: mid ++ [b]) ++ suf) !! j = Some b).
    { rewrite lookup_app_r by lia.
      replace (j - length pre)%nat with (S (length mid)) by lia.
      simpl. rewrite <- app_assoc. rewrite lookup_app_r by lia.
      rewrite Nat.sub_diag. reflexivity. }
    rewrite Ei, Ej.
    assert (Hswap : <[j := a]> (<[i := b]> (pre ++ (a :: mid ++ [b]) ++ suf))
                    = (pre ++ [b]) ++ mid ++ ([a] ++ suf)).
    { subst i. rewrite (insert_app_r_alt pre _ (length pre)) by lia.
      rewrite Nat.sub_diag. simpl.
      rewrite insert_app_r_alt by lia.
      replace (j - length pre)%nat with (S (length mid)) by lia.
      simpl. rewrite <- !app_assoc. simpl.
      rewrite insert_app_r_alt by lia. rewrite Nat.sub_diag. simpl.
      reflexivity. }
    rewrite Hswap.
    rewrite (IH (pre ++ [b]) mid ([a] ++ suf) (S i) (j - 1)%nat).
    + simpl. rewrite rev_app_distr. simpl. rewrite <- !app_assoc. reflexivity.
    + lia.
    + rewrite length_app. simpl. lia.
    + rewrite length_app. simpl. lia.
Qed.

(** Lines 1380-1382 reverse the hardware address, and reversing twice gives
    the address back. *)
Lemma reverse_rev (hwAddr : list Byte.byte) : reverse hwAddr = rev hwAddr.
Proof.
  unfold reverse.
  pose proof (reverseLoop_rev (length hwAddr) [] hwAddr [] 0 (length hwAddr - 1)
                (le_n _) eq_refl eq_refl) as H.
  simpl in H. rewrite !app_nil_r in H. exact H.
Qed.

Lemma reverse_involutive (hwAddr : list Byte.byte) : reverse (reverse hwAddr) = hwAddr.
Proof. rewrite !reverse_rev. apply rev_involutive. Qed.

(** The loops of the external-gateway pass request one deletion per pod IP,
    whatever the connection tracker answers, and add one error per failure. *)
Lemma podIPsLoop_spec (macs : list (list Byte.byte)) (podIPs : list string)
    (errs : list error) :
  podIPsLoop podIPs macs errs
  = (map (deletionFor macs) podIPs, errs ++ flat_map (deletionError macs) podIPs).
Proof.
  revert errs. induction podIPs as [|podIP rest IH]; intros errs; simpl.
  - rewrite app_nil_r. reflexivity.
  - unfold bind, emit, Conntrack.deletionError at 1. simpl.
    destruct (DeleteConntrack podIP 0 ProtocolUDP ConntrackOrigDstIP macs) as [err|];
      rewrite IH; simpl; [rewrite <- app_assoc|]; reflexivity.
Qed.

Lemma gatewayPodsLoop_spec (macs : list (list Byte.byte)) (pods : list Pod)
    (errs : list error) :
  gatewayPodsLoop pods macs errs
  = (flat_map (fun pod => map (deletionFor macs) (fst (GetPodIPsOfNetwork pod))) pods,
     errs ++ flat_map (podErrors macs) pods).
Proof.
  revert errs. induction pods as [|pod rest IH]; intros errs; simpl.
  - rewrite app_nil_r. reflexivity.
  - unfold Conntrack.podErrors at 1.
    destruct (GetPodIPsOfNetwork pod) as [podIPs err]. simpl.
    unfold bind. rewrite podIPsLoop_spec, IH. f_equal.
    destruct err as [e|]; [destruct (negb (IsErrNoPodIPFound e))|];
      rewrite <- ?app_assoc; reflexivity.
Qed.

(** The external-gateway pass, once the gateway IPs and the pods are known:
    it requests the deletion for every IP of every pod and returns the
    aggregate of all the errors met on the way. *)
Lemma syncConntrack_run (newNs : Namespace) (gatewayIPs0 : gset string)
    (pods : list Pod) :
  GetAdminPolicyBasedExternalRouteIPsForTargetNamespace (nsName newNs) = inr gatewayIPs0 ->
  GetPods (nsName newNs) = inr pods ->
  syncConntrackForExternalGateways newNs
  = (flat_map
       (fun pod =>
          map (deletionFor (allowList (resolveAll (insertAnnotations newNs gatewayIPs0))))
              (fst (GetPodIPsOfNetwork pod))) pods,
     NewAggregate
       (flat_map (podErrors (allowList (resolveAll (insertAnnotations newNs gatewayIPs0))))
                 pods)).
Proof.
  intros Hapb Hpods. unfold Conntrack.syncConntrackForExternalGateways.
  rewrite Hapb, Hpods. unfold bind, ret.
  rewrite gatewayPodsLoop_spec. simpl. rewrite app_nil_r. reflexivity.
Qed.

(** C3. When the namespace's gateway IPs and pods are known and no gateway IP
    leaves an address (there is none, or none resolves), the allow-list is the
    one sentinel, which no address shorter than its 25 bytes equals, and the
    pass requests, for every IP of every pod of the namespace, the deletion of
    the UDP entries with that one-element allow-list. *)
Theorem syncConntrack_sentinel (newNs : Namespace) (gatewayIPs0 : gset string)
    (pods : list Pod) :
  GetAdminPolicyBasedExternalRouteIPsForTargetNamespace (nsName newNs) = inr gatewayIPs0 ->
  GetPods (nsName newNs) = inr pods ->
  (forall gwIP, gwIP ∈ insertAnnotations newNs gatewayIPs0 -> unresolved gwIP) ->
  allowList (resolveAll (insertAnnotations newNs gatewayIPs0)) = [sentinel]
  /\ (forall mac, (length mac < 25)%nat -> mac <> sentinel)
  /\ fst (syncConntrackForExternalGateways newNs)
     = flat_map
         (fun pod =>
            map (fun podIP =>
                   EvDeleteConntrack podIP 0 ProtocolUDP ConntrackOrigDstIP [sentinel])
                (fst (GetPodIPsOfNetwork pod))) pods.
Proof.
  intros Hapb Hpods Hnone.
  assert (Hallow : allowList (resolveAll (insertAnnotations newNs gatewayIPs0)) = [sentinel]).
  { rewrite (resolveAll_unresolved _ Hnone). apply allowList_empty. }
  split; [exact Hallow|]. split; [exact sentinel_matches_nothing|].
  rewrite (syncConntrack_run newNs gatewayIPs0 pods Hapb Hpods), Hallow. reflexivity.
Qed.

#[local] Abbreviation addressesLoop :=
  (addressesLoop DoesEndpointSliceContainEndpoint ParseIPSloppy DeleteConntrackServicePort).
#[local] Abbreviation endpointsLoop :=
  (endpointsLoop DoesEndpointSliceContainEndpoint ParseIPSloppy DeleteConntrackServicePort).
#[local] Abbreviation portsLoop :=
  (portsLoop DoesEndpointSliceContainEndpoint ParseIPSloppy DeleteConntrackServicePort).
#[local] Abbreviation reconcileConntrackUponEndpointSliceEvents :=
  (reconcileConntrackUponEndpointSliceEvents ServiceNamespacedNameFromEndpointSlice
     GetService DoesEndpointSliceContainEndpoint ParseIPSloppy DeleteConntrackServicePort).

(** Every request of the address loop is for the port and protocol it was
    given. *)
Lemma addressesLoop_trace (new : option EndpointSlice) (svc : option Service)
    (oldPort : EndpointPort) (protocol : Protocol) (addresses : list string) :
  Forall (fun e => exists ip port,
            portPort oldPort = Some port
            /\ e = EvDeleteConntrackServicePort ip port protocol ConntrackReplyAnyIP [])
         (fst (addressesLoop new svc oldPort protocol addresses)).
Proof.
  induction addresses as [|oldIP rest IH]; [constructor|].
  cbn [Conntrack.addressesLoop].
  destruct (portPort oldPort) as [port|] eqn:Eport; [|constructor].
  destruct (match new with Some _ => _ | None => _ end); [exact IH|].
  rewrite bind_fst. cbn [emit fst snd app]. constructor; [eauto|].
  destruct (DeleteConntrackServicePort _ _ _ _ _); exact IH.
Qed.

Lemma endpointsLoop_trace (new : option EndpointSlice) (svc : option Service)
    (oldPort : EndpointPort) (protocol : Protocol) (endpoints : list Endpoint) :
  Forall (fun e => exists ip port,
            portPort oldPort = Some port
            /\ e = EvDeleteConntrackServicePort ip port protocol ConntrackReplyAnyIP [])
         (fst (endpointsLoop new svc oldPort protocol endpoints)).
Proof.
  induction endpoints as [|oldEndpoint rest IH]; [constructor|].
  cbn [Conntrack.endpointsLoop].
  rewrite bind_fst. apply Forall_app. split; [apply addressesLoop_trace|].
  destruct (snd _); [exact IH | constructor].
Qed.

Lemma portsLoop_trace (new : option EndpointSlice) (svc : option Service)
    (endpoints : list Endpoint) (ports : list EndpointPort) :
  Forall (isUDPDeletionOf ports) (fst (portsLoop new svc endpoints ports)).
Proof.
  induction ports as [|oldPort rest IH]; [constructor|].
  cbn [Conntrack.portsLoop].
  assert (IH' : Forall (isUDPDeletionOf (oldPort :: rest))
                  (fst (portsLoop new svc endpoints rest))).
  { eapply Forall_impl; [exact IH|].
    intros e (ip & port & p & -> & Hp & Hproto & Hport).
    exists ip, port, p. rewrite elem_of_cons. auto. }
  destruct (portProtocol oldPort) as [protocol|] eqn:Eproto; [|constructor].
  destruct (bool_decide (protocol <> ProtocolUDP)) eqn:Eudp; [exact IH'|].
  apply bool_decide_eq_false in Eudp.
  assert (protocol = ProtocolUDP) as ->.
  { destruct (decide (protocol = ProtocolUDP)); [assumption | contradiction]. }
  rewrite bind_fst. apply Forall_app. split.
  - eapply Forall_impl; [apply endpointsLoop_trace|].
    intros e (ip & port & Hport & ->).
    exists ip, port, oldPort. rewrite elem_of_cons. auto.
  - destruct (snd _); [exact IH' | constructor].
Qed.

(** Ports of other protocols are passed over. *)
Lemma portsLoop_skip (new : option EndpointSlice) (svc : option Service)
    (endpoints : list Endpoint) (pre rest : list EndpointPort) :
  Forall nonUDP pre ->
  portsLoop new svc endpoints (pre ++ rest) = portsLoop new svc endpoints rest.
Proof.
  induction 1 as [|p pre (protocol & Hp & Hne) _ IH]; simpl; [reflexivity|].
  rewrite Hp, bool_decide_eq_true_2 by exact Hne. exact IH.
Qed.

Lemma portsLoop_nonUDP (new : option EndpointSlice) (svc : option Service)
    (endpoints : list Endpoint) (ports : list EndpointPort) :
  Forall nonUDP ports -> portsLoop new svc endpoints ports = ([], Returned tt).
Proof.
  intros H. rewrite <- (app_nil_r ports). rewrite portsLoop_skip by exact H.
  reflexivity.
Qed.

(** The pass once the service of the old slice has been looked up: the
    loops, and [nil] unless they panic. *)
Lemma reconcile_loops (old : EndpointSlice) (new : option EndpointSlice)
    (namespace name : string) :
  ServiceNamespacedNameFromEndpointSlice old = inr (namespace, name) ->
  (forall err, GetService namespace name = inl err -> IsNotFound err = true) ->
  reconcileConntrackUponEndpointSliceEvents (Some old) new
  = (fst (portsLoop new (foundService (GetService namespace name))
            (Endpoints old) (Ports old)),
     match snd (portsLoop new (foundService (GetService namespace name))
                  (Endpoints old) (Ports old)) with
     | Panic => Panic
     | Returned _ => Returned None
     end).
Proof.
  intros Hname Hsvc. unfold Conntrack.reconcileConntrackUponEndpointSliceEvents.
  rewrite Hname. unfold bind.
  destruct (portsLoop new _ (Endpoints old) (Ports old)) as [t [[]|]] eqn:E; simpl;
    destruct (GetService namespace name) as [err|s] eqn:Eg;
    rewrite ?(Hsvc err eq_refl); simpl; rewrite ?app_nil_r; reflexivity.
Qed.

(** The endpoint-slice pass does not depend on what the connection tracker
    answers: a failed deletion neither stops the pass nor shows in what it
    returns. *)
Lemma addressesLoop_ignores_answers
    (tracker : string -> Z -> Protocol -> ConntrackFilterType ->
               list (list Byte.byte) -> option error)
    (new : option EndpointSlice) (svc : option Service)
    (oldPort : EndpointPort) (protocol : Protocol) (addresses : list string) :
  Conntrack.addressesLoop DoesEndpointSliceContainEndpoint ParseIPSloppy tracker
    new svc oldPort protocol addresses
  = addressesLoop new svc oldPort protocol addresses.
Proof.
  induction addresses as [|oldIP rest IH]; [reflexivity|].
  cbn [Conntrack.addressesLoop].
  destruct (portPort oldPort) as [port|]; [|reflexivity].
  destruct (match new with Some _ => _ | None => _ end); [exact IH|].
  unfold bind, emit. rewrite IH.
  destruct (tracker _ _ _ _ _), (DeleteConntrackServicePort _ _ _ _ _); reflexivity.
Qed.

Lemma reconcile_ignores_answers
    (tracker : string -> Z -> Protocol -> ConntrackFilterType ->
               list (list Byte.byte) -> option error)
    (old new : option EndpointSlice) :
  Conntrack.reconcileConntrackUponEndpointSliceEvents
    ServiceNamespacedNameFromEndpointSlice GetService DoesEndpointSliceContainEndpoint
    ParseIPSloppy tracker old new
  = reconcileConntrackUponEndpointSliceEvents old new.
Proof.
  assert (He : forall svc oldPort protocol endpoints,
            Conntrack.endpointsLoop DoesEndpointSliceContainEndpoint ParseIPSloppy tracker
              new svc oldPort protocol endpoints
            = endpointsLoop new svc oldPort protocol endpoints).
  { intros svc oldPort protocol endpoints.
    induction endpoints as [|oldEndpoint rest IH]; [reflexivity|].
    cbn [Conntrack.endpointsLoop]. rewrite addressesLoop_ignores_answers, IH.
    reflexivity. }
  assert (Hp : forall svc endpoints ports,
            Conntrack.portsLoop DoesEndpointSliceContainEndpoint ParseIPSloppy tracker
              new svc endpoints ports
            = portsLoop new svc endpoints ports).
  { intros svc endpoints ports.
    induction ports as [|oldPort rest IH]; [reflexivity|].
    cbn [Conntrack.portsLoop].
    destruct (portProtocol oldPort) as [protocol|]; [|reflexivity].
    destruct (bool_decide (protocol <> ProtocolUDP)); [exact IH|].
    rewrite He, IH. reflexivity. }
  unfold Conntrack.reconcileConntrackUponEndpointSliceEvents.
  destruct old as [old|]; [|reflexivity].
  destruct (ServiceNamespacedNameFromEndpointSlice old) as [err|[namespace name]];
    [reflexivity|].
  rewrite Hp. reflexivity.
Qed.

(** C4. The pass does nothing and returns no error when the old slice is
    [nil].  Given an old slice whose only UDP port is [port] and whose only
    address is [ip], a service that is found or reported as not found, and a
    new slice that is [nil] or does not contain that endpoint, it requests
    exactly one deletion, for [(ip, port, UDP)].  Whatever its arguments,
    every deletion it requests is for a UDP port of the old slice. *)
Theorem reconcile_endpointslice_spec :
  (forall new,
     reconcileConntrackUponEndpointSliceEvents None new = ([], Returned None))
  /\ (forall old new namespace name pre post ip port,
        ServiceNamespacedNameFromEndpointSlice old = inr (namespace, name) ->
        (forall err, GetService namespace name = inl err -> IsNotFound err = true) ->
        Ports old
        = pre ++ {| portProtocol := Some ProtocolUDP; portPort := Some port |} :: post ->
        Forall nonUDP pre -> Forall nonUDP post ->
        Endpoints old = [{| Addresses := [ip] |}] ->
        (forall n, new = Some n ->
           DoesEndpointSliceContainEndpoint n (ParseIPSloppy ip) port ProtocolUDP
             (foundService (GetService namespace name)) = false) ->
        reconcileConntrackUponEndpointSliceEvents (Some old) new
        = ([EvDeleteConntrackServicePort (ParseIPSloppy ip) port ProtocolUDP
              ConntrackReplyAnyIP []],
           Returned None))
  /\ (forall old new e,
        e ∈ fst (reconcileConntrackUponEndpointSliceEvents (Some old) new) ->
        isUDPDeletionOf (Ports old) e).
Proof.
  split; [reflexivity|]. split.
  - intros old new namespace name pre post ip port Hname Hsvc Hports Hpre Hpost Heps Hnew.
    rewrite (reconcile_loops old new namespace name Hname Hsvc).
    rewrite Hports, Heps, portsLoop_skip by exact Hpre.
    assert (Hc : match new with
                 | Some n =>
                     DoesEndpointSliceContainEndpoint n (ParseIPSloppy ip) port ProtocolUDP
                       (foundService (GetService namespace name))
                 | None => false
                 end = false).
    { destruct new as [n|]; [apply Hnew|]; reflexivity. }
    cbn [Conntrack.portsLoop portProtocol].
    rewrite bool_decide_eq_false_2 by (intros H; apply H; reflexivity).
    cbn [Conntrack.endpointsLoop Addresses Conntrack.addressesLoop portPort].
    rewrite Hc, (portsLoop_nonUDP _ _ _ post Hpost).
    unfold bind, emit, ret.
    destruct (DeleteConntrackServicePort _ _ _ _ _); reflexivity.
  - intros old new e.
    unfold Conntrack.reconcileConntrackUponEndpointSliceEvents.
    destruct (ServiceNamespacedNameFromEndpointSlice old) as [err|[namespace name]];
      [intros H; inversion H|].
    pose proof (portsLoop_trace new (foundService (GetService namespace name))
                  (Endpoints old) (Ports old)) as Ht.
    rewrite Forall_forall in Ht.
    assert (Hloops : forall k : W (outcome (option error)),
              k = (r <~ portsLoop new (foundService (GetService namespace name))
                          (Endpoints old) (Ports old) ;;
                   match r with
                   | Panic => ret Panic
                   | Returned _ => ret (Returned (NewAggregate []))
                   end) ->
              e ∈ fst k -> isUDPDeletionOf (Ports old) e).
    { intros k -> Hin. rewrite bind_fst in Hin.
      apply elem_of_app in Hin as [Hin|Hin]; [apply Ht, Hin|].
      destruct (snd _); inversion Hin. }
    destruct (GetService namespace name) as [err|svc].
    + destruct (negb (IsNotFound err)).
      * destruct new; intros H; inversion H.
      * apply Hloops. reflexivity.
    + apply Hloops. reflexivity.
Qed.

(** C10. On a delete event (a [nil] new slice), when the service lookup
    fails with an error other than not-found, the pass panics before it
    requests anything; on an update event it returns an error instead. *)
Theorem reconcile_delete_lookup_failure_panics
    (old : EndpointSlice) (namespace name : string) (err : error) :
  ServiceNamespacedNameFromEndpointSlice old = inr (namespace, name) ->
  GetService namespace name = inl err ->
  IsNotFound err = false ->
  reconcileConntrackUponEndpointSliceEvents (Some old) None = ([], Panic)
  /\ forall new, exists e,
       reconcileConntrackUponEndpointSliceEvents (Some old) (Some new)
       = ([], Returned (Some e)).
Proof.
  intros Hname Hsvc Hnf. unfold Conntrack.reconcileConntrackUponEndpointSliceEvents.
  rewrite Hname, Hsvc, Hnf. simpl. split; [reflexivity|]. eauto.
Qed.

End Reconcile.

Import Examples.

Lemma syncConntrack_sentinel_witness :
  fst (syncConntrackForExternalGateways "k8s.ovn.org/external-gw-pod-ips"
         "k8s.ovn.org/routing-external-gws" noPolicy hasColon arpFails getPods comply ns1)
  = [EvDeleteConntrack "10.244.1.5" 0 ProtocolUDP ConntrackOrigDstIP [sentinel];
     EvDeleteConntrack "fd00:10:244:1::5" 0 ProtocolUDP ConntrackOrigDstIP [sentinel];
     EvDeleteConntrack "10.244.1.6" 0 ProtocolUDP ConntrackOrigDstIP [sentinel]].
Proof.
  destruct (syncConntrack_sentinel "k8s.ovn.org/external-gw-pod-ips"
              "k8s.ovn.org/routing-external-gws" noPolicy hasColon arpFails getPods comply
              ns1 ∅ [pod1; pod2] eq_refl eq_refl) as (_ & _ & E).
  - intros gwIP _. right. right. left. exists (Errorf "no ARP reply"). reflexivity.
  - rewrite E. reflexivity.
Defined.

Lemma reconcile_endpointslice_spec_witness :
  reconcileConntrackUponEndpointSliceEvents serviceNameOf (fun _ _ => inr dns)
    containsEndpoint (fun ip => ip) comply (Some dnsSlice) (Some dnsSliceEmpty)
  = ([EvDeleteConntrackServicePort "10.244.1.5" 53 ProtocolUDP ConntrackReplyAnyIP []],
     Returned None).
Proof.
  destruct (reconcile_endpointslice_spec serviceNameOf (fun _ _ => inr dns)
              containsEndpoint (fun ip => ip) comply) as (_ & H & _).
  apply (H dnsSlice (Some dnsSliceEmpty) "default" "dns" [] [] "10.244.1.5" 53).
  - reflexivity.
  - intros err E. discriminate.
  - reflexivity.
  - constructor.
  - constructor.
  - reflexivity.
  - intros n [= <-]. reflexivity.
Defined.

Lemma reconcile_delete_lookup_failure_panics_witness :
  reconcileConntrackUponEndpointSliceEvents serviceNameOf
    (fun _ _ => inl (Errorf "connection refused"))
    containsEndpoint (fun ip => ip) comply (Some dnsSlice) None
  = ([], Panic).
Proof.
  apply (reconcile_delete_lookup_failure_panics serviceNameOf
           (fun _ _ => inl (Errorf "connection refused"))
           containsEndpoint (fun ip => ip) comply dnsSlice "default" "dns"
           (Errorf "connection refused")); reflexivity.
Defined.

(** The external-gateway pass with a connection tracker that refuses every
    request: all three deletions are still requested and all three failures
    are in the aggregate the pass returns. *)
Lemma syncConntrack_collects_failures :
  syncConntrackForExternalGateways "k8s.ovn.org/external-gw-pod-ips"
    "k8s.ovn.org/routing-external-gws" noPolicy hasColon arpFails getPods refuse ns1
  = ([EvDeleteConntrack "10.244.1.5" 0 ProtocolUDP ConntrackOrigDstIP [sentinel];
      EvDeleteConntrack "fd00:10:244:1::5" 0 ProtocolUDP ConntrackOrigDstIP [sentinel];
      EvDeleteConntrack "10.244.1.6" 0 ProtocolUDP ConntrackOrigDstIP [sentinel]],
     Some (Aggregate
       [Errorf "failed to delete conntrack entry for pod 10.244.1.5: operation not permitted";
        Errorf "failed to delete conntrack entry for pod fd00:10:244:1::5: operation not permitted";
        Errorf "failed to delete conntrack entry for pod 10.244.1.6: operation not permitted"])).
Proof. vm_compute. reflexivity. Qed.

(** C8 fails for the endpoint-slice pass: the slice [dnsSlice] is deleted
    and the connection tracker refuses the one deletion the pass requests;
    the pass returns [nil]. *)
Theorem endpointslice_deletion_failure_dropped :
  refuse "10.244.1.5" 53 ProtocolUDP ConntrackReplyAnyIP []
  = Some (Errorf "operation not permitted")
  /\ reconcileConntrackUponEndpointSliceEvents serviceNameOf (fun _ _ => inr dns)
       containsEndpoint (fun ip => ip) refuse (Some dnsSlice) None
     = ([EvDeleteConntrackServicePort "10.244.1.5" 53 ProtocolUDP ConntrackReplyAnyIP []],
        Returned None).
Proof. split; [reflexivity | vm_compute; reflexivity]. Qed.

End ConntrackProps.

(** * Further properties *)

(** ** Strings *)

Module TextProps.

Lemma sapp_cons (c : ascii) (a b : string) : String c a +:+ b = String c (a +:+ b).
Proof. reflexivity. Qed.

Lemma sapp_nil_l (a : string) : "" +:+ a = a.
Proof. reflexivity. Qed.

Lemma sapp_nil_r (a : string) : a +:+ "" = a.
Proof. induction a as [|c a IH]; [reflexivity|]. rewrite sapp_cons, IH. reflexivity. Qed.

Lemma sapp_assoc (a b c : string) : (a +:+ b) +:+ c = a +:+ b +:+ c.
Proof.
  induction a as [|x a IH]; [reflexivity|]. rewrite !sapp_cons, IH. reflexivity.
Qed.

Lemma slength_app (a b : string) :
  String.length (a +:+ b) = (String.length a + String.length b)%nat.
Proof.
  induction a as [|x a IH]; [reflexivity|]. rewrite sapp_cons. simpl. rewrite IH.
  reflexivity.
Qed.

Lemma chars_app (a b : string) :
  list_ascii_of_string (a +:+ b) = list_ascii_of_string a ++ list_ascii_of_string b.
Proof.
  induction a as [|x a IH]; [reflexivity|]. rewrite sapp_cons. simpl. rewrite IH.
  reflexivity.
Qed.

(** [strings.Split] never gives an empty slice. *)
Lemma SplitFrom_cons (cur s : string) :
  exists piece pieces, SplitFrom cur s = piece :: pieces.
Proof.
  revert cur. induction s as [|c s IH]; intros cur; simpl; [eauto|].
  destruct (Ascii.eqb c ","); [eauto | apply IH].
Qed.

(** Joining the pieces with commas gives the string back. *)
Lemma SplitFrom_concat (cur s : string) :
  String.concat "," (SplitFrom cur s) = cur +:+ s.
Proof.
  revert cur. induction s as [|c s IH]; intros cur; simpl.
  - rewrite sapp_nil_r. reflexivity.
  - destruct (Ascii.eqb c ",") eqn:E.
    + apply Ascii.eqb_eq in E. subst c.
      destruct (SplitFrom_cons "" s) as (piece & pieces & Hs).
      specialize (IH ""). rewrite Hs in *. simpl. simpl in IH. rewrite IH.
      reflexivity.
    + rewrite IH, sapp_assoc. reflexivity.
Qed.

(** No piece holds a comma. *)
Lemma SplitFrom_no_comma (cur s : string) :
  ","%char ∉ list_ascii_of_string cur ->
  Forall (fun piece => ","%char ∉ list_ascii_of_string piece) (SplitFrom cur s).
Proof.
  revert cur. induction s as [|c s IH]; intros cur Hcur; simpl.
  - constructor; [exact Hcur | constructor].
  - destruct (Ascii.eqb c ",") eqn:E.
    + constructor; [exact Hcur|]. apply IH. simpl. apply not_elem_of_nil.
    + apply IH. rewrite chars_app. simpl. rewrite not_elem_of_app. split; [exact Hcur|].
      intros H. apply list_elem_of_singleton in H. subst c.
      rewrite Ascii.eqb_refl in E. discriminate.
Qed.

(** There is one piece more than there are commas. *)
Lemma SplitFrom_length (cur s : string) :
  length (SplitFrom cur s)
  = S (length (filter (fun c => c = ","%char) (list_ascii_of_string s))).
Proof.
  revert cur. induction s as [|c s IH]; intros cur; simpl; [reflexivity|].
  destruct (Ascii.eqb c ",") eqn:E.
  - apply Ascii.eqb_eq in E. subst c. rewrite filter_cons_True by reflexivity.
    simpl. rewrite IH. reflexivity.
  - rewrite filter_cons_False; [apply IH|].
    intros ->. rewrite Ascii.eqb_refl in E. discriminate.
Qed.

End TextProps.

(** ** Device-plugin resources *)

Module DevicesProps.

Import Devices TextProps.

Lemma envChar_alphabet (c : ascii) :
  envChar c <> "."%char /\ envChar c <> "/"%char /\ isLower (envChar c) = false.
Proof. destruct c as [[] [] [] [] [] [] [] []]; vm_compute; repeat split; discriminate. Qed.

Lemma ToUpper_Replace_chars (resource : string) :
  ToUpper (ReplaceAll1 (ReplaceAll1 resource "." "_") "/" "_")
  = string_of_list_ascii (map envChar (list_ascii_of_string resource)).
Proof.
  induction resource as [|c resource IH]; [reflexivity|].
  simpl. rewrite IH. f_equal.
  destruct c as [[] [] [] [] [] [] [] []]; reflexivity.
Qed.

(** X1. The name of the environment variable of a resource of ASCII name is
    [PCIDEVICE_] followed by the name byte for byte, with [.] and [/] turned
    into [_] and small letters into capitals: it is ten bytes longer than the
    name, and after the prefix it holds no [.], no [/] and no small letter. *)
Theorem getEnvNameFromResourceName_spec (resource : string) :
  isASCII resource = true ->
  getEnvNameFromResourceName resource
  = "PCIDEVICE_" +:+ string_of_list_ascii (map envChar (list_ascii_of_string resource))
  /\ String.length (getEnvNameFromResourceName resource)
     = (10 + String.length resource)%nat
  /\ Forall (fun c => c <> "."%char /\ c <> "/"%char /\ isLower c = false)
       (map envChar (list_ascii_of_string resource)).
Proof.
  intros _. unfold getEnvNameFromResourceName. rewrite ToUpper_Replace_chars.
  split; [reflexivity|]. split.
  - rewrite slength_app. simpl. f_equal.
    induction resource as [|c resource IH]; simpl; [reflexivity | rewrite IH; reflexivity].
  - apply Forall_fmap, Forall_forall. intros c _. apply envChar_alphabet.
Qed.

Lemma getEnvNameFromResourceName_spec_witness :
  isASCII "mellanox.com/sriov_mgmt" = true
  /\ getEnvNameFromResourceName "mellanox.com/sriov_mgmt"
     = "PCIDEVICE_MELLANOX_COM_SRIOV_MGMT".
Proof.
  assert (H : isASCII "mellanox.com/sriov_mgmt" = true) by reflexivity.
  split; [exact H|].
  destruct (getEnvNameFromResourceName_spec "mellanox.com/sriov_mgmt" H) as (E & _ & _).
  rewrite E. reflexivity.
Defined.

Section Resources.

Variable Getenv : string -> string.
Variable GetNetdevNameFromDeviceId : string -> error + string.

#[local] Abbreviation getDeviceIdsFromEnv := (getDeviceIdsFromEnv Getenv).
#[local] Abbreviation handleDevicePluginResources := (handleDevicePluginResources Getenv).
#[local] Abbreviation handleNetdevResources :=
  (handleNetdevResources GetNetdevNameFromDeviceId).
#[local] Abbreviation reservations := (reservations GetNetdevNameFromDeviceId).

Lemma getDeviceIdsFromEnv_ok (envName : string) :
  Getenv envName <> "" ->
  getDeviceIdsFromEnv envName = inr (SplitComma (Getenv envName)).
Proof.
  intros H. unfold Devices.getDeviceIdsFromEnv.
  destruct (Getenv envName); [contradiction | reflexivity].
Qed.

(** X2. [handleDevicePluginResources] with a variable that is set: the device IDs
    of the resource are the pieces of the variable between its commas, at
    least one, none holding a comma, and joined by commas they are the
    variable again; whatever the map held for any other resource is gone.
    With an empty or missing variable it returns an error and leaves the map
    as it was. *)
Theorem handleDevicePluginResources_spec (resource : string)
    (deviceIdsMap : gmap string (list string)) :
  (Getenv (getEnvNameFromResourceName resource) <> "" ->
   exists deviceIdsMap',
     handleDevicePluginResources resource deviceIdsMap = (None, deviceIdsMap')
     /\ deviceIdsOf deviceIdsMap' resource <> []
     /\ String.concat "," (deviceIdsOf deviceIdsMap' resource)
        = Getenv (getEnvNameFromResourceName resource)
     /\ Forall (fun id => ","%char ∉ list_ascii_of_string id)
          (deviceIdsOf deviceIdsMap' resource)
     /\ forall other, other <> resource -> deviceIdsOf deviceIdsMap' other = [])
  /\ (Getenv (getEnvNameFromResourceName resource) = "" ->
      exists err, handleDevicePluginResources resource deviceIdsMap = (Some err, deviceIdsMap)).
Proof.
  split.
  - intros Hset. unfold Devices.handleDevicePluginResources.
    rewrite (getDeviceIdsFromEnv_ok _ Hset).
    eexists. split; [reflexivity|].
    unfold deviceIdsOf. rewrite lookup_insert_eq. simpl. split; [|split; [|split]].
    + unfold SplitComma.
      destruct (SplitFrom_cons "" (Getenv (getEnvNameFromResourceName resource)))
        as (piece & pieces & ->). discriminate.
    + unfold SplitComma. rewrite SplitFrom_concat. reflexivity.
    + apply SplitFrom_no_comma. simpl. apply not_elem_of_nil.
    + intros other Hne. rewrite lookup_insert_ne by congruence.
      rewrite lookup_empty. reflexivity.
  - intros Hempty. unfold Devices.handleDevicePluginResources, Devices.getDeviceIdsFromEnv.
    rewrite Hempty. simpl. eauto.
Qed.

(** One reservation from a list that is not empty takes its head. *)
Lemma handleNetdevResources_cons (resource deviceId : string) (rest : list string)
    (deviceIdsMap : gmap string (list string)) :
  deviceIdsOf deviceIdsMap resource = deviceId :: rest ->
  handleNetdevResources resource deviceIdsMap
  = (Returned (GetNetdevNameFromDeviceId deviceId), <[resource := rest]> deviceIdsMap).
Proof.
  intros H. unfold Devices.handleNetdevResources. rewrite H. simpl.
  destruct (GetNetdevNameFromDeviceId deviceId); reflexivity.
Qed.

Lemma handleNetdevResources_nil (resource : string)
    (deviceIdsMap : gmap string (list string)) :
  deviceIdsOf deviceIdsMap resource = [] ->
  handleNetdevResources resource deviceIdsMap
  = (Returned (inl (Errorf ("insufficient device IDs for resource: " +:+ resource))),
     deviceIdsMap).
Proof. intros H. unfold Devices.handleNetdevResources. rewrite H. reflexivity. Qed.

(** X3. Successive calls of [handleNetdevResources] for one resource hand out its
    device IDs in their order, each once: the [k]-th call looks up the name of
    the [k]-th ID, also consuming the ID when that lookup fails; the calls
    after the last ID get the error of insufficient IDs.  No call panics, the
    IDs not handed out yet stay in the map, and the IDs of other resources are
    untouched. *)
Theorem reservations_spec (n : nat) (resource : string)
    (deviceIdsMap : gmap string (list string)) :
  exists deviceIdsMap',
    reservations n resource deviceIdsMap
    = (map (fun id => Returned (GetNetdevNameFromDeviceId id))
           (take n (deviceIdsOf deviceIdsMap resource))
       ++ replicate (n - length (deviceIdsOf deviceIdsMap resource))
            (Returned (inl (Errorf ("insufficient device IDs for resource: "
                                    +:+ resource)))),
       deviceIdsMap')
    /\ deviceIdsOf deviceIdsMap' resource = drop n (deviceIdsOf deviceIdsMap resource)
    /\ forall other, other <> resource -> deviceIdsMap' !! other = deviceIdsMap !! other.
Proof.
  revert deviceIdsMap. induction n as [|n IH]; intros deviceIdsMap.
  - exists deviceIdsMap. repeat split; reflexivity.
  - cbn [Devices.reservations].
    destruct (deviceIdsOf deviceIdsMap resource) as [|deviceId rest] eqn:Hids.
    + rewrite (handleNetdevResources_nil _ _ Hids).
      destruct (IH deviceIdsMap) as (m' & -> & Hdrop & Hother).
      rewrite Hids in *. exists m'. simpl in *.
      rewrite Nat.sub_0_r in *. rewrite drop_nil in Hdrop. rewrite take_nil.
      auto.
    + rewrite (handleNetdevResources_cons _ _ _ _ Hids).
      destruct (IH (<[resource := rest]> deviceIdsMap)) as (m' & -> & Hdrop & Hother).
      assert (Hrest : deviceIdsOf (<[resource := rest]> deviceIdsMap) resource = rest).
      { unfold deviceIdsOf. rewrite lookup_insert_eq. reflexivity. }
      rewrite Hrest in *. exists m'. simpl. split; [reflexivity|]. split; [exact Hdrop|].
      intros other Hne. rewrite (Hother other Hne).
      apply lookup_insert_ne. congruence.
Qed.

End Resources.

Import MoreExamples.

Lemma handleDevicePluginResources_spec_witness :
  getenv (getEnvNameFromResourceName "mellanox.com/sriov_mgmt") <> ""
  /\ exists deviceIdsMap',
       handleDevicePluginResources getenv "mellanox.com/sriov_mgmt" ∅
       = (None, deviceIdsMap')
       /\ String.concat "," (deviceIdsOf deviceIdsMap' "mellanox.com/sriov_mgmt")
          = "0000:03:00.2,0000:03:00.3".
Proof.
  assert (H : getenv (getEnvNameFromResourceName "mellanox.com/sriov_mgmt") <> "")
    by discriminate.
  split; [exact H|].
  destruct (handleDevicePluginResources_spec getenv "mellanox.com/sriov_mgmt" ∅)
    as [Hset _].
  destruct (Hset H) as (m' & E & _ & Hjoin & _).
  exists m'. split; [exact E | exact Hjoin].
Defined.

End DevicesProps.

(** ** Flow collectors *)

Module CollectorsProps.

Import Collectors TextProps.

Section Collectors.

Variable IPString : list Byte.byte -> string.
Variable JoinHostPortInt32 : string -> Z -> string.
Variable GetNodePrimaryIP : error + string.

#[local] Abbreviation hostOf := (hostOf IPString GetNodePrimaryIP).
#[local] Abbreviation collectorsLoop :=
  (collectorsLoop IPString JoinHostPortInt32 GetNodePrimaryIP).
#[local] Abbreviation collectorsString :=
  (collectorsString IPString JoinHostPortInt32 GetNodePrimaryIP).
#[local] Abbreviation entry := (entry IPString JoinHostPortInt32).

(** The host of a target is known when the target names one or the node's own
    address is. *)
Lemma hostOf_known (nodeIP : string) (v : HostPort) :
  GetNodePrimaryIP = inr nodeIP \/ needsNodeIP v = false ->
  exists host, hostOf v = inr host /\ JoinHostPortInt32 host (Port v) = entry nodeIP v.
Proof.
  unfold Collectors.hostOf, needsNodeIP, Collectors.entry.
  intros [H|H]; destruct (Host v) as [ip|].
  - destruct (negb (length ip =? 0)%nat); eauto.
  - eauto.
  - rewrite H. simpl. eauto.
  - discriminate.
Qed.

(** From the second target on, the loop appends a separator and an entry for
    every target. *)
Lemma collectorsLoop_rest (nodeIP : string) (targets : list HostPort) :
  Forall (fun v => GetNodePrimaryIP = inr nodeIP \/ needsNodeIP v = false) targets ->
  forall (n : nat) (joined : string),
    collectorsLoop (S n) targets joined
    = inr (joined +:+ String.concat "" (map (fun v => separator +:+ entry nodeIP v) targets)).
Proof.
  induction 1 as [|v rest Hv _ IH]; intros n joined; simpl.
  - rewrite sapp_nil_r. reflexivity.
  - destruct (hostOf_known nodeIP v Hv) as (host & -> & ->).
    rewrite IH. f_equal. unfold separator.
    destruct rest; simpl; rewrite ?sapp_assoc, ?sapp_nil_r; reflexivity.
Qed.

Lemma concat_separated (nodeIP : string) (v : HostPort) (rest : list HostPort) :
  String.concat separator (map (entry nodeIP) (v :: rest))
  = entry nodeIP v
    +:+ String.concat "" (map (fun v => separator +:+ entry nodeIP v) rest).
Proof.
  revert v. induction rest as [|w rest IH]; intros v.
  - simpl. rewrite sapp_nil_r. reflexivity.
  - change (String.concat separator (map (entry nodeIP) (v :: w :: rest)))
      with (entry nodeIP v +:+ separator
            +:+ String.concat separator (map (entry nodeIP) (w :: rest))).
    rewrite IH. destruct rest; simpl; rewrite ?sapp_assoc, ?sapp_nil_r; reflexivity.
Qed.

(** X4. [collectorsString] fails on an empty list of targets.  On a list in which
    every target names a host, or when the node's own address is known, it
    returns the entries of the targets in their order, separated by [","] and
    enclosed in one pair of double quotes.  When the node's address is not
    known and some target names no host, it fails. *)
Theorem collectorsString_spec (targets : list HostPort) :
  (targets = [] -> collectorsString targets = inl (Errorf "collector targets can't be empty"))
  /\ (forall nodeIP,
        targets <> [] ->
        Forall (fun v => GetNodePrimaryIP = inr nodeIP \/ needsNodeIP v = false) targets ->
        collectorsString targets
        = inr (quote +:+ String.concat separator (map (entry nodeIP) targets) +:+ quote))
  /\ (forall err,
        GetNodePrimaryIP = inl err ->
        Exists (fun v => needsNodeIP v = true) targets ->
        exists e, collectorsString targets = inl e).
Proof.
  split; [intros ->; reflexivity|]. split.
  - intros nodeIP Hne Hall. destruct targets as [|v rest]; [contradiction|].
    unfold Collectors.collectorsString.
    change (length (v :: rest) =? 0)%nat with false. cbv iota.
    rewrite concat_separated. cbn [Collectors.collectorsLoop Nat.eqb].
    inversion Hall as [|v' rest' Hv Hrest]; subst.
    destruct (hostOf_known nodeIP v Hv) as (host & -> & ->).
    rewrite (collectorsLoop_rest nodeIP rest Hrest).
    rewrite !sapp_assoc. reflexivity.
  - intros err Herr Hex. unfold Collectors.collectorsString.
    destruct targets as [|v rest]; [inversion Hex|].
    change (length (v :: rest) =? 0)%nat with false. cbv iota.
    assert (Hloop : forall n joined, exists e,
               collectorsLoop n (v :: rest) joined = inl e).
    { clear -Herr Hex. induction Hex as [w l Hw|w l _ IH]; intros n joined; simpl.
      - unfold Collectors.hostOf, needsNodeIP in *.
        destruct (Host w) as [ip|]; [rewrite Hw|]; simpl; rewrite Herr; eauto.
      - destruct (hostOf w) as [e|host]; [eauto | apply IH]. }
    destruct (Hloop 0%nat "") as [e ->]. eauto.
Qed.

End Collectors.

Import MoreExamples.

Lemma collectorsString_spec_witness :
  collectorsString ipString joinHostPort (inr "192.0.2.10") [collector1; collector2]
  = inr (quote +:+ "10.0.0.1:2055" +:+ quote +:+ "," +:+ quote
         +:+ "192.0.2.10:2056" +:+ quote).
Proof.
  destruct (collectorsString_spec ipString joinHostPort (inr "192.0.2.10")
              [collector1; collector2]) as (_ & H & _).
  rewrite (H "192.0.2.10").
  - reflexivity.
  - discriminate.
  - constructor; [left; reflexivity|]. constructor; [left; reflexivity|]. constructor.
Defined.

End CollectorsProps.

(** ** The periodic sweep *)

Module SweepProps.

Import Sweep BarrierProps MoreExamples.

Section Sweep.

Variable ExternalGatewayPodIPsAnnotation : string.
Variable RoutingExternalGWsAnnotation : string.
Variable GetAdminPolicyBasedExternalRouteIPsForTargetNamespace :
  string -> error + gset string.
Variable IsIPv6String : string -> bool.
Variable GetMACAddressFromARP : string -> error + list Byte.byte.
Variable GetPods : string -> error + list Pod.
Variable DeleteConntrack :
  string -> Z -> Protocol -> ConntrackFilterType -> list (list Byte.byte) -> option error.
Variable GetNamespaces : error + list Namespace.

#[local] Abbreviation changed :=
  (exGatewayPodsAnnotationsChanged ExternalGatewayPodIPsAnnotation
     RoutingExternalGWsAnnotation).
#[local] Abbreviation annotated :=
  (annotated ExternalGatewayPodIPsAnnotation RoutingExternalGWsAnnotation).
#[local] Abbreviation hasPodsOrFails := (hasPodsOrFails GetPods).
#[local] Abbreviation sync :=
  (Conntrack.syncConntrackForExternalGateways ExternalGatewayPodIPsAnnotation
     RoutingExternalGWsAnnotation GetAdminPolicyBasedExternalRouteIPsForTargetNamespace
     IsIPv6String GetMACAddressFromARP GetPods DeleteConntrack).
#[local] Abbreviation sweepLoop :=
  (sweepLoop ExternalGatewayPodIPsAnnotation RoutingExternalGWsAnnotation
     GetAdminPolicyBasedExternalRouteIPsForTargetNamespace IsIPv6String
     GetMACAddressFromARP GetPods DeleteConntrack).
#[local] Abbreviation checkAndDeleteStaleConntrackEntries :=
  (checkAndDeleteStaleConntrackEntries ExternalGatewayPodIPsAnnotation
     RoutingExternalGWsAnnotation GetAdminPolicyBasedExternalRouteIPsForTargetNamespace
     IsIPv6String GetMACAddressFromARP GetPods DeleteConntrack GetNamespaces).

Lemma annotation_insert_ne (namespace : Namespace) (key key' value : string) :
  key <> key' ->
  annotation (withAnnotation namespace key value) key' = annotation namespace key'.
Proof.
  intros H. unfold annotation, withAnnotation. simpl.
  rewrite lookup_insert_ne by exact H. reflexivity.
Qed.

(** X5. [exGatewayPodsAnnotationsChanged] compares what the two keys read as: it
    sees no change between a namespace and itself, none when another
    annotation is set or changed, and none when one of the two keys is added
    with an empty value to a namespace that did not have it, although the
    sweep counts the namespace as annotated from then on.  It does not depend
    on the order of its arguments. *)
Theorem exGatewayPodsAnnotationsChanged_spec (oldNs newNs : Namespace) :
  changed oldNs oldNs = false
  /\ changed oldNs newNs = changed newNs oldNs
  /\ (forall key value,
        key <> ExternalGatewayPodIPsAnnotation ->
        key <> RoutingExternalGWsAnnotation ->
        changed oldNs (withAnnotation oldNs key value) = false)
  /\ (Annotations oldNs !! ExternalGatewayPodIPsAnnotation = None ->
      changed oldNs (withAnnotation oldNs ExternalGatewayPodIPsAnnotation "") = false
      /\ annotated (withAnnotation oldNs ExternalGatewayPodIPsAnnotation "") = true)
  /\ (Annotations oldNs !! RoutingExternalGWsAnnotation = None ->
      changed oldNs (withAnnotation oldNs RoutingExternalGWsAnnotation "") = false
      /\ annotated (withAnnotation oldNs RoutingExternalGWsAnnotation "") = true).
Proof.
  unfold Sweep.exGatewayPodsAnnotationsChanged.
  split; [rewrite !String.eqb_refl; reflexivity|].
  split; [rewrite (String.eqb_sym (annotation oldNs ExternalGatewayPodIPsAnnotation)),
            (String.eqb_sym (annotation oldNs RoutingExternalGWsAnnotation));
          reflexivity|].
  split; [intros key value H1 H2; rewrite !annotation_insert_ne by assumption;
          rewrite !String.eqb_refl; reflexivity|].
  assert (Hsame : forall key key',
            Annotations oldNs !! key = None ->
            annotation (withAnnotation oldNs key "") key' = annotation oldNs key').
  { intros key key' Hnone. unfold annotation, withAnnotation. simpl.
    destruct (decide (key = key')) as [<-|Hne].
    - rewrite lookup_insert_eq, Hnone. reflexivity.
    - rewrite lookup_insert_ne by exact Hne. reflexivity. }
  split; intros Hnone.
  - rewrite !Hsame by exact Hnone. rewrite !String.eqb_refl.
    split; [reflexivity|]. unfold Sweep.annotated, withAnnotation. simpl.
    rewrite (bool_decide_eq_true_2 (is_Some (<[_ := _]> _ !! ExternalGatewayPodIPsAnnotation))).
    + apply orb_true_r.
    + rewrite lookup_insert_eq. eauto.
  - rewrite !Hsame by exact Hnone. rewrite !String.eqb_refl.
    split; [reflexivity|]. unfold Sweep.annotated, withAnnotation. simpl.
    rewrite (bool_decide_eq_true_2 (is_Some (<[_ := _]> _ !! RoutingExternalGWsAnnotation))).
    + reflexivity.
    + rewrite lookup_insert_eq. eauto.
Qed.

(** The requests of the loop are those of the passes for the namespaces that
    carry an annotation and have a pod, or whose pods cannot be listed. *)
Lemma sweepLoop_trace (namespaces : list Namespace) :
  fst (sweepLoop namespaces)
  = flat_map (fun namespace => fst (sync namespace))
      (filter (fun namespace => annotated namespace && hasPodsOrFails namespace = true)
              namespaces).
Proof.
  induction namespaces as [|namespace rest IH]; [reflexivity|].
  cbn [Sweep.sweepLoop].
  destruct (annotated namespace) eqn:Ea; [destruct (hasPodsOrFails namespace) eqn:Ep|].
  - rewrite filter_cons_True by (rewrite Ea, Ep; reflexivity).
    rewrite bind_fst. simpl. rewrite IH. reflexivity.
  - rewrite filter_cons_False by (rewrite Ea, Ep; discriminate). exact IH.
  - rewrite filter_cons_False by (rewrite Ea; discriminate). exact IH.
Qed.

(** Every request of one pass is the deletion of the UDP entries of an IP of
    a pod of the namespace. *)
Lemma sync_trace (namespace : Namespace) (e : event) :
  e ∈ fst (sync namespace) ->
  exists pods pod podIP labels,
    GetPods (nsName namespace) = inr pods
    /\ pod ∈ pods
    /\ podIP ∈ fst (GetPodIPsOfNetwork pod)
    /\ e = EvDeleteConntrack podIP 0 ProtocolUDP ConntrackOrigDstIP labels.
Proof.
  unfold Conntrack.syncConntrackForExternalGateways.
  destruct (GetAdminPolicyBasedExternalRouteIPsForTargetNamespace _) as [err|ips];
    [intros H; inversion H|].
  destruct (GetPods (nsName namespace)) as [err|pods]; [intros H; inversion H|].
  rewrite bind_fst, ConntrackProps.gatewayPodsLoop_spec. simpl. rewrite app_nil_r.
  intros H. apply list_elem_of_In, in_flat_map in H as (pod & Hpod & H).
  apply in_map_iff in H as (podIP & <- & HIP).
  exists pods, pod, podIP. eexists.
  rewrite <- !list_elem_of_In in *. repeat split; eauto.
Qed.

(** X6. The sweep requests nothing when the namespaces cannot be listed.
    Otherwise its requests are those of the external-gateway passes for the
    listed namespaces that carry one of the two annotations and have a pod or
    pods that cannot be listed, in the order of the list; each one is the
    deletion of the UDP entries of an IP of a pod of such a namespace. *)
Theorem checkAndDeleteStaleConntrackEntries_spec :
  (forall err, GetNamespaces = inl err -> checkAndDeleteStaleConntrackEntries = ([], tt))
  /\ (forall namespaces,
        GetNamespaces = inr namespaces ->
        fst checkAndDeleteStaleConntrackEntries
        = flat_map (fun namespace => fst (sync namespace))
            (filter (fun namespace =>
                       annotated namespace && hasPodsOrFails namespace = true)
                    namespaces)
        /\ forall e,
             e ∈ fst checkAndDeleteStaleConntrackEntries ->
             exists namespace pods pod podIP labels,
               namespace ∈ namespaces
               /\ annotated namespace = true
               /\ GetPods (nsName namespace) = inr pods
               /\ pod ∈ pods
               /\ podIP ∈ fst (GetPodIPsOfNetwork pod)
               /\ e = EvDeleteConntrack podIP 0 ProtocolUDP ConntrackOrigDstIP labels).
Proof.
  unfold Sweep.checkAndDeleteStaleConntrackEntries. split.
  - intros err ->. reflexivity.
  - intros namespaces ->. split; [apply sweepLoop_trace|].
    intros e. rewrite sweepLoop_trace. intros H.
    apply list_elem_of_In, in_flat_map in H as (namespace & Hns & H).
    apply list_elem_of_In, list_elem_of_filter in Hns as [Hq Hns].
    apply andb_true_iff in Hq as [Ha _].
    apply list_elem_of_In, sync_trace in H as (pods & pod & podIP & labels & H).
    exists namespace, pods, pod, podIP, labels. tauto.
Qed.

End Sweep.

Import Examples.

Lemma exGatewayPodsAnnotationsChanged_spec_witness :
  Annotations ns1 !! "k8s.ovn.org/external-gw-pod-ips" = None
  /\ exGatewayPodsAnnotationsChanged "k8s.ovn.org/external-gw-pod-ips"
       "k8s.ovn.org/routing-external-gws" ns1
       (withAnnotation ns1 "k8s.ovn.org/external-gw-pod-ips" "") = false.
Proof.
  assert (H : Annotations ns1 !! "k8s.ovn.org/external-gw-pod-ips" = None) by reflexivity.
  split; [exact H|].
  destruct (exGatewayPodsAnnotationsChanged_spec "k8s.ovn.org/external-gw-pod-ips"
              "k8s.ovn.org/routing-external-gws" ns1 ns1) as (_ & _ & _ & Hadd & _).
  exact (proj1 (Hadd H)).
Defined.

(** A sweep over the annotated namespace [ns1] and a namespace without
    annotations. *)
Lemma checkAndDeleteStaleConntrackEntries_spec_witness :
  fst (checkAndDeleteStaleConntrackEntries "k8s.ovn.org/external-gw-pod-ips"
         "k8s.ovn.org/routing-external-gws" noPolicy hasColon arpFails getPods comply
         (inr [ns1; {| nsName := "ns2"; Annotations := ∅ |}]))
  = [EvDeleteConntrack "10.244.1.5" 0 ProtocolUDP ConntrackOrigDstIP [Conntrack.sentinel];
     EvDeleteConntrack "fd00:10:244:1::5" 0 ProtocolUDP ConntrackOrigDstIP
       [Conntrack.sentinel];
     EvDeleteConntrack "10.244.1.6" 0 ProtocolUDP ConntrackOrigDstIP [Conntrack.sentinel]].
Proof.
  destruct (checkAndDeleteStaleConntrackEntries_spec "k8s.ovn.org/external-gw-pod-ips"
              "k8s.ovn.org/routing-external-gws" noPolicy hasColon arpFails getPods comply
              (inr [ns1; {| nsName := "ns2"; Annotations := ∅ |}])) as [_ H].
  destruct (H _ eq_refl) as [E _]. rewrite E. vm_compute. reflexivity.
Defined.

End SweepProps.

(** ** The waits for the switch and for the accelerator *)

Module WaitsProps.

Import Waits Controller BarrierProps.

Section Waits.

Variable cfg : Config.
Variable name : string.
Variable GetNodes : nat -> error + list LabelledNode.
Variable GetNode : nat -> error + Node.
Variable Quote : string -> string.

#[local] Abbreviation zoneReady := (zoneReady cfg).
#[local] Abbreviation readyAt := (readyAt cfg GetNodes).
#[local] Abbreviation switchAt := (switchAt GetNode).
#[local] Abbreviation dpuCondition := (dpuCondition cfg GetNodes).
#[local] Abbreviation Start_dpuHostWait := (Start_dpuHostWait cfg GetNodes).
#[local] Abbreviation switchCondition := (switchCondition GetNode).
#[local] Abbreviation Start_switchWait := (Start_switchWait name GetNode Quote).

Lemma dpuNodesLoop_ready (nodes : list LabelledNode) :
  dpuNodesLoop (Zone cfg) nodes true = true <-> zoneReady nodes.
Proof.
  unfold zoneReady. induction nodes as [|n rest IH]; simpl.
  - split; [intros _ n H; inversion H | reflexivity].
  - destruct (IsDPUHostMode n) eqn:Eh; simpl.
    { rewrite IH. split.
      - intros H n' Hn'. apply elem_of_cons in Hn' as [->|Hn']; auto.
      - intros H n' Hn'. apply H, elem_of_cons. auto. }
    destruct (String.eqb (GetNodeZone (node n)) (Zone cfg)) eqn:Ez; simpl.
    2:{ apply String.eqb_neq in Ez. rewrite IH. split.
        - intros H n' Hn'. apply elem_of_cons in Hn' as [->|Hn']; auto.
        - intros H n' Hn'. apply H, elem_of_cons. auto. }
    apply String.eqb_eq in Ez.
    destruct (HasDPUNodeReady n) eqn:Er; simpl.
    { rewrite IH. split.
      - intros H n' Hn'. apply elem_of_cons in Hn' as [->|Hn']; auto.
      - intros H n' Hn'. apply H, elem_of_cons. auto. }
    split; [discriminate|]. intros H.
    destruct (H n) as [H1|[H1|H1]]; [apply elem_of_cons; auto | | |]; congruence.
Qed.

Lemma dpuCondition_hit (k : nat) :
  readyAt k -> dpuCondition k tt = ([EvGetNodes], (tt, true)).
Proof.
  intros (nodes & E & H). unfold Waits.dpuCondition, bind, emit, ret. rewrite E.
  apply dpuNodesLoop_ready in H. rewrite H. reflexivity.
Qed.

Lemma dpuCondition_miss (k : nat) :
  ~ readyAt k -> dpuCondition k tt = ([EvGetNodes], (tt, false)).
Proof.
  intros Hn. unfold Waits.dpuCondition, bind, emit, ret.
  destruct (GetNodes k) as [err|nodes] eqn:E; [reflexivity|].
  destruct (dpuNodesLoop (Zone cfg) nodes true) eqn:El; [|reflexivity].
  exfalso. apply Hn. exists nodes. split; [exact E|]. apply dpuNodesLoop_ready, El.
Qed.

Lemma dpuPoll_miss (n : nat) :
  forall k,
    (forall j, (k <= j < k + n)%nat -> ~ readyAt j) ->
    pollFrom dpuCondition n k tt
    = (repeat EvGetNodes n, (tt, Some (Errorf "context deadline exceeded"))).
Proof.
  induction n as [|n IH]; intros k Hm; simpl; [reflexivity|].
  rewrite dpuCondition_miss by (apply Hm; lia). unfold bind.
  rewrite IH by (intros j Hj; apply Hm; lia). reflexivity.
Qed.

Lemma dpuPoll_hit (n : nat) :
  forall k m,
    (m < n)%nat ->
    readyAt (k + m) ->
    (forall j, (k <= j < k + m)%nat -> ~ readyAt j) ->
    pollFrom dpuCondition n k tt = (repeat EvGetNodes (S m), (tt, None)).
Proof.
  induction n as [|n IH]; intros k m Hlt Hhit Hm; [lia|].
  destruct m as [|m]; simpl.
  - replace (k + 0)%nat with k in Hhit by lia.
    rewrite (dpuCondition_hit k Hhit). reflexivity.
  - rewrite dpuCondition_miss by (apply Hm; lia). unfold bind.
    rewrite (IH (S k) m).
    + reflexivity.
    + lia.
    + replace (S k + m)%nat with (k + S m)%nat by lia. exact Hhit.
    + intros j Hj. apply Hm. lia.
Qed.

(** X7. In DPU-host mode [Start] waits, polling every 500ms for 300s, until the
    nodes can be listed and every node of its own zone that is not itself a
    DPU host has reported itself ready; DPU hosts and nodes of other zones are
    not waited for.  It goes on at the first pass that finds this, and returns
    a time-out error when none of the 600 passes does. *)
Theorem Start_dpuHostWait_spec :
  (forall k,
     (k < 600)%nat -> readyAt k -> (forall j, (j < k)%nat -> ~ readyAt j) ->
     Start_dpuHostWait = (repeat EvGetNodes (S k), None))
  /\ ((forall k, (k < 600)%nat -> ~ readyAt k) ->
      Start_dpuHostWait
      = (repeat EvGetNodes 600,
         Some (Errorf ("timed out waiting for the dpu node to be ready: "
                       +:+ "context deadline exceeded")))).
Proof.
  unfold Waits.Start_dpuHostWait, PollUntilContextTimeout.
  rewrite WaitProps.attempts_500ms_300s. split.
  - intros k Hk Hhit Hmiss.
    rewrite (dpuPoll_hit 600 0 k Hk Hhit) by (intros j Hj; apply Hmiss; lia).
    cbv [bind ret snd]. rewrite app_nil_r. reflexivity.
  - intros Hmiss. rewrite (dpuPoll_miss 600 0) by (intros j Hj; apply Hmiss; lia).
    cbv [bind ret snd]. rewrite app_nil_r. reflexivity.
Qed.

Lemma switchCondition_hit (k : nat) (n : Node) (nets : list IPNet) (vars : switchVars) :
  switchAt k n nets ->
  switchCondition k vars = ([], ({| fetched := Some n; subnets := nets |}, true)).
Proof. intros [E1 E2]. unfold Waits.switchCondition. rewrite E1, E2. reflexivity. Qed.

Lemma switchCondition_miss (k : nat) (vars : switchVars) :
  (forall n nets, ~ switchAt k n nets) ->
  exists vars', switchCondition k vars = ([], (vars', false)).
Proof.
  intros Hn. unfold Waits.switchCondition.
  destruct (GetNode k) as [err|n] eqn:E1; [eauto|].
  destruct (ParseNodeHostSubnetAnnotation n) as [err|nets] eqn:E2; [eauto|].
  exfalso. exact (Hn n nets (conj E1 E2)).
Qed.

Lemma switchPoll_miss (n : nat) :
  forall k vars,
    (forall j, (k <= j < k + n)%nat -> forall nd nets, ~ switchAt j nd nets) ->
    exists vars',
      pollFrom switchCondition n k vars
      = ([], (vars', Some (Errorf "context deadline exceeded"))).
Proof.
  induction n as [|n IH]; intros k vars Hm; simpl; [eauto|].
  destruct (switchCondition_miss k vars) as [vars1 ->]; [apply Hm; lia|].
  unfold bind. destruct (IH (S k) vars1) as [vars' ->]; [intros j Hj; apply Hm; lia|].
  eauto.
Qed.

Lemma switchPoll_hit (n : nat) :
  forall k m vars nd nets,
    (m < n)%nat ->
    switchAt (k + m) nd nets ->
    (forall j, (k <= j < k + m)%nat -> forall nd' nets', ~ switchAt j nd' nets') ->
    pollFrom switchCondition n k vars
    = ([], ({| fetched := Some nd; subnets := nets |}, None)).
Proof.
  induction n as [|n IH]; intros k m vars nd nets Hlt Hhit Hm; [lia|].
  destruct m as [|m]; simpl.
  - replace (k + 0)%nat with k in Hhit by lia.
    rewrite (switchCondition_hit k nd nets vars Hhit). reflexivity.
  - destruct (switchCondition_miss k vars) as [vars1 ->]; [apply Hm; lia|].
    unfold bind. rewrite (IH (S k) m vars1 nd nets).
    + reflexivity.
    + lia.
    + replace (S k + m)%nat with (k + S m)%nat by lia. exact Hhit.
    + intros j Hj. apply Hm. lia.
Qed.

(** X8. [Start] waits, polling every 500ms for 300s, until its own node can be
    fetched and carries a host-subnet annotation that parses: it goes on with
    the node and the subnets of the first pass that finds both, and returns a
    time-out error when none of the 600 passes does. *)
Theorem Start_switchWait_spec (node0 : Node) :
  (forall k nd nets,
     (k < 600)%nat -> switchAt k nd nets ->
     (forall j, (j < k)%nat -> forall nd' nets', ~ switchAt j nd' nets') ->
     Start_switchWait node0 = ([], inr (Some nd, nets)))
  /\ ((forall k, (k < 600)%nat -> forall nd nets, ~ switchAt k nd nets) ->
      Start_switchWait node0
      = ([], inl (Errorf ("timed out waiting for node's: " +:+ Quote name
                          +:+ " logical switch: " +:+ "context deadline exceeded")))).
Proof.
  unfold Waits.Start_switchWait, PollUntilContextTimeout.
  rewrite WaitProps.attempts_500ms_300s. split.
  - intros k nd nets Hk Hhit Hmiss.
    rewrite (switchPoll_hit 600 0 k _ nd nets Hk Hhit)
      by (intros j Hj; apply Hmiss; lia).
    reflexivity.
  - intros Hmiss.
    destruct (switchPoll_miss 600 0 {| fetched := Some node0; subnets := [] |})
      as [vars' ->]; [intros j Hj; apply Hmiss; lia|].
    reflexivity.
Qed.

(** X9. [Start] reads the migrated annotation from two node objects: the
    guard of the early retarget of the credentials (line 737) tests [node0],
    fetched at line 697, and the guard of the upgrade barrier (line 864), which
    ends with the other retarget, tests [node], which the wait for the logical
    switch has fetched again at line 753.  In DPU-host mode neither guard
    holds.  Otherwise, when the annotation reads the same on both objects,
    exactly one of the two guards holds.  Both hold exactly when interconnect
    is enabled, the zone is not the default one, [node0] is migrated and
    [node] is not; and neither holds exactly when, with interconnect enabled
    and another zone than the default one, [node0] is not migrated and [node]
    is.  A start that goes through the barrier does not watch the namespaces
    for external gateways (line 1097). *)
Theorem Start_guards_spec (OvnDefaultZone sbZone : string) (node0 node : Node) :
  (Mode cfg = NodeModeDPUHost ->
   earlyAuthGuard OvnDefaultZone cfg sbZone node0 = false
   /\ hackGuard OvnDefaultZone cfg sbZone node = false
   /\ watchNamespacesGuard cfg OvnDefaultZone sbZone = false)
  /\ (Mode cfg <> NodeModeDPUHost ->
      HasNodeMigratedZone node = HasNodeMigratedZone node0 ->
      hackGuard OvnDefaultZone cfg sbZone node
      = negb (earlyAuthGuard OvnDefaultZone cfg sbZone node0))
  /\ (earlyAuthGuard OvnDefaultZone cfg sbZone node0 = true
      /\ hackGuard OvnDefaultZone cfg sbZone node = true
      <-> Mode cfg <> NodeModeDPUHost
          /\ EnableInterconnect cfg = true
          /\ sbZone <> OvnDefaultZone
          /\ HasNodeMigratedZone node0 = true
          /\ HasNodeMigratedZone node = false)
  /\ (Mode cfg <> NodeModeDPUHost ->
      (earlyAuthGuard OvnDefaultZone cfg sbZone node0 = false
       /\ hackGuard OvnDefaultZone cfg sbZone node = false
       <-> EnableInterconnect cfg = true
           /\ sbZone <> OvnDefaultZone
           /\ HasNodeMigratedZone node0 = false
           /\ HasNodeMigratedZone node = true))
  /\ (hackGuard OvnDefaultZone cfg sbZone node = true ->
      watchNamespacesGuard cfg OvnDefaultZone sbZone = false).
Proof.
  unfold hackGuard, earlyAuthGuard, Waits.watchNamespacesGuard.
  destruct (String.eqb_spec sbZone OvnDefaultZone) as [Ez|Ez];
    destruct (Mode cfg), (EnableInterconnect cfg), (HasNodeMigratedZone node0),
      (HasNodeMigratedZone node); simpl;
    repeat split; intros; try congruence;
    repeat match goal with
      | H : _ /\ _ |- _ => destruct H
      end; try congruence; try discriminate.
Qed.

End Waits.

Import Examples MoreExamples.

Lemma Start_dpuHostWait_spec_witness :
  Waits.Start_dpuHostWait cfgHost dpuNodes = ([EvGetNodes; EvGetNodes; EvGetNodes], None).
Proof.
  destruct (Start_dpuHostWait_spec cfgHost dpuNodes) as [H _].
  apply (H 2%nat).
  - lia.
  - exists [hostNode; dpuNode true]. split; [reflexivity|].
    intros n Hn. apply elem_of_cons in Hn as [->|Hn]; [left; reflexivity|].
    apply list_elem_of_singleton in Hn as ->. right. right. reflexivity.
  - intros j Hj (nodes & E & Hr).
    destruct j as [|[|j]]; [discriminate E| |lia].
    injection E as <-.
    destruct (Hr (dpuNode false)) as [H1|[H1|H1]].
    + apply elem_of_cons. right. apply elem_of_cons. left. reflexivity.
    + discriminate H1.
    + apply H1. reflexivity.
    + discriminate H1.
Defined.

Lemma Start_switchWait_spec_witness :
  Waits.Start_switchWait "node1" getNode (fun s => s) nodeNoSubnet
  = ([], inr (Some nodeSubnet, [subnetA])).
Proof.
  destruct (Start_switchWait_spec "node1" getNode (fun s => s) nodeNoSubnet) as [H _].
  apply (H 1%nat).
  - lia.
  - split; reflexivity.
  - intros j Hj nd nets [E1 E2].
    destruct j as [|j]; [|lia].
    injection E1 as <-. discriminate E2.
Defined.

(** The annotation appears between the two fetches: the credentials are set
    at neither place. *)
Lemma Start_guards_spec_witness :
  Mode cfgA <> NodeModeDPUHost
  /\ HasNodeMigratedZone nodeA = HasNodeMigratedZone nodeA
  /\ hackGuard "global" cfgA "zoneA" nodeA
     = negb (earlyAuthGuard "global" cfgA "zoneA" nodeA)
  /\ earlyAuthGuard "global" cfgA "zoneA" nodeA = false
  /\ hackGuard "global" cfgA "zoneA" nodeMigrated = false.
Proof.
  assert (Hm : Mode cfgA <> NodeModeDPUHost) by discriminate.
  assert (He : HasNodeMigratedZone nodeA = HasNodeMigratedZone nodeA) by reflexivity.
  split; [exact Hm|]. split; [exact He|]. split.
  - destruct (Start_guards_spec cfgA "global" "zoneA" nodeA nodeA) as (_ & H & _).
    exact (H Hm He).
  - destruct (Start_guards_spec cfgA "global" "zoneA" nodeA nodeMigrated)
      as (_ & _ & _ & H & _).
    apply (H Hm). repeat split; try reflexivity. discriminate.
Defined.

End WaitsProps.

(** ** What each block of the barrier waits for, and how the barrier ends *)

Module ReadinessProps.

Import Controller WaitProps GoProps BarrierProps Readiness.

Section Readiness.

Variable GetLogicalPortName : string -> string -> string.
Variable cfg : Config.
Variable name : string.
Variable world : nat -> World.

#[local] Abbreviation checkOVNSBNodeLRSR := (checkOVNSBNodeLRSR cfg world).
#[local] Abbreviation subnetsLoop := (subnetsLoop cfg world).
#[local] Abbreviation nodesLoop := (nodesLoop cfg name world).
#[local] Abbreviation nodesBlock := (nodesBlock cfg name world).
#[local] Abbreviation portExists := (portExists GetLogicalPortName world).
#[local] Abbreviation podsLoop := (podsLoop GetLogicalPortName name world).
#[local] Abbreviation podsBlock := (podsBlock GetLogicalPortName name world).
#[local] Abbreviation hackCondition := (hackCondition GetLogicalPortName cfg name world).
#[local] Abbreviation remote := (remote cfg name).
#[local] Abbreviation routed := (routed cfg world).
#[local] Abbreviation awaited := (awaited name).
#[local] Abbreviation barrierRun :=
  (PollUntilContextTimeout hackInterval hackTimeout hackCondition hackVars0).

(** X10. [checkOVNSBNodeLRSR] asks the southbound database one question, about
    the subnet's own address family, when the cluster runs that family, and
    answers whether the query printed something without any error.  For a
    subnet of a family the cluster does not run it asks nothing and answers
    [true]. *)
Theorem checkOVNSBNodeLRSR_spec (k : nat) (nodeSubnet : IPNet) :
  checkOVNSBNodeLRSR k nodeSubnet
  = if IPv6Mode cfg && IsIPv6CIDR nodeSubnet
    then ([EvRunOVNSbctl (routeArgs (matchv6 nodeSubnet))],
          printedSomething (RunOVNSbctl (world k) (routeArgs (matchv6 nodeSubnet))))
    else if IPv4Mode cfg && negb (IsIPv6CIDR nodeSubnet)
    then ([EvRunOVNSbctl (routeArgs (matchv4 nodeSubnet))],
          printedSomething (RunOVNSbctl (world k) (routeArgs (matchv4 nodeSubnet))))
    else ([], true).
Proof.
  unfold Controller.checkOVNSBNodeLRSR, routeArgs, matchv6, matchv4, printedSomething,
    sbctl, bind, emit, ret.
  destruct (IPv6Mode cfg), (IPv4Mode cfg), (IsIPv6CIDR nodeSubnet); simpl;
    try reflexivity;
    match goal with
    | |- context [RunOVNSbctl (world k) ?a] =>
        destruct (RunOVNSbctl (world k) a) as [[stdout stderr] err]
    end; simpl; rewrite ?andb_true_r; reflexivity.
Qed.

Lemma subnetsLoop_none (k : nat) (node : Node) (nodeSubnets : list IPNet) :
  snd (subnetsLoop k node nodeSubnets) = None
  <-> forall nodeSubnet, nodeSubnet ∈ nodeSubnets ->
        snd (checkOVNSBNodeLRSR k nodeSubnet) = true.
Proof.
  induction nodeSubnets as [|s rest IH]; cbn [Controller.subnetsLoop].
  - split; [intros _ x Hx; inversion Hx | reflexivity].
  - rewrite bind_snd. destruct (snd (checkOVNSBNodeLRSR k s)) eqn:E; simpl.
    + rewrite IH. split.
      * intros H x Hx. apply elem_of_cons in Hx as [->|Hx]; auto.
      * intros H x Hx. apply H, elem_of_cons. auto.
    + split; [discriminate|]. intros H.
      specialize (H s (list_elem_of_here _ _)). congruence.
Qed.

Lemma nodesLoop_none (k : nat) (nodes : list Node) :
  snd (nodesLoop k nodes) = None
  <-> forall node, node ∈ nodes -> remote node -> routed k node.
Proof.
  induction nodes as [|node rest IH]; cbn [Controller.nodesLoop].
  - split; [intros _ x Hx; inversion Hx | reflexivity].
  - assert (Hskip : (remote node -> routed k node) ->
                    (snd (nodesLoop k rest) = None
                     <-> forall n, n ∈ node :: rest -> remote n -> routed k n)).
    { intros Hn. rewrite IH. split.
      - intros H x Hx. apply elem_of_cons in Hx as [->|Hx]; auto.
      - intros H x Hx. apply H, elem_of_cons. auto. }
    assert (Hstop : remote node -> ~ routed k node ->
                    ~ forall n, n ∈ node :: rest -> remote n -> routed k n).
    { intros Hr Hn H. apply Hn, H; [apply list_elem_of_here | exact Hr]. }
    destruct (String.eqb name (nodeName node)) eqn:En; simpl.
    { apply String.eqb_eq in En. apply Hskip. intros (H & _). contradiction. }
    apply String.eqb_neq in En.
    destruct (String.eqb (GetNodeZone node) (Zone cfg)) eqn:Ez; simpl.
    { apply String.eqb_eq in Ez. apply Hskip. intros (_ & H & _). contradiction. }
    apply String.eqb_neq in Ez.
    destruct (NoHostSubnet node) eqn:Eh; simpl.
    { apply Hskip. intros (_ & _ & H). congruence. }
    assert (Hr : remote node) by (repeat split; assumption).
    destruct (ParseNodeHostSubnetAnnotation node) as [err|nodeSubnets] eqn:Ep.
    + destruct (IsAnnotationNotSetError err) eqn:Ea.
      * apply Hskip. intros _. left. exists err. rewrite Ep. auto.
      * simpl. split; [discriminate|]. intros H. exfalso. revert H. apply Hstop; [exact Hr|].
        intros [(err' & E1 & E2)|(ns & E1 & _)]; rewrite Ep in E1; [|discriminate].
        injection E1 as <-. congruence.
    + rewrite bind_snd.
      destruct (snd (subnetsLoop k node nodeSubnets)) as [e|] eqn:Es.
      * simpl. split; [discriminate|]. intros H. exfalso. revert H. apply Hstop; [exact Hr|].
        intros [(err' & E1 & _)|(ns & E1 & H)]; rewrite Ep in E1; [discriminate|].
        injection E1 as <-. apply (subnetsLoop_none k node) in H. congruence.
      * apply Hskip. intros _. right. exists nodeSubnets. rewrite Ep.
        split; [reflexivity|]. apply (subnetsLoop_none k node). exact Es.
Qed.

(** X11. The first block of the barrier sets its flag in a pass exactly when the
    nodes can be listed and, for every other node of another zone that has a
    host subnet, either the subnet annotation is not set yet or the
    southbound database holds the route of each of its subnets.  The node
    itself, the nodes of its own zone and the nodes without host subnet are
    not waited for. *)
Theorem nodes_ready_spec (k : nat) (vars : hackVars) :
  syncNodes vars = false ->
  syncNodes (fst (snd (nodesBlock k vars))) = true <->
  exists nodes,
    GetNodes (world k) = inr nodes
    /\ forall node, node ∈ nodes -> remote node -> routed k node.
Proof.
  intros Hflag. unfold Controller.nodesBlock. rewrite bind_snd. cbn [emit snd].
  destruct (GetNodes (world k)) as [err|nodes] eqn:Eg.
  - simpl. rewrite Hflag. split; [discriminate|]. intros (nodes & E & _). discriminate.
  - rewrite bind_snd.
    destruct (snd (nodesLoop k nodes)) as [e|] eqn:El; simpl.
    + rewrite Hflag. split; [discriminate|]. intros (nodes' & E & H).
      injection E as <-. apply nodesLoop_none in H. congruence.
    + split; [|reflexivity]. intros _. exists nodes. split; [reflexivity|].
      apply nodesLoop_none. exact El.
Qed.

Lemma podsLoop_true (k : nat) (pods : list Pod) :
  snd (podsLoop k pods) = true
  <-> forall p, p ∈ pods -> awaited p ->
        snd (portExists k (podNamespace p) (podName p)) = true.
Proof.
  induction pods as [|p rest IH]; cbn [Controller.podsLoop].
  - split; [intros _ x Hx; inversion Hx | reflexivity].
  - assert (Hskip : (awaited p -> snd (portExists k (podNamespace p) (podName p)) = true) ->
                    (snd (podsLoop k rest) = true
                     <-> forall q, q ∈ p :: rest -> awaited q ->
                           snd (portExists k (podNamespace q) (podName q)) = true)).
    { intros Hn. rewrite IH. split.
      - intros H x Hx. apply elem_of_cons in Hx as [->|Hx]; auto.
      - intros H x Hx. apply H, elem_of_cons. auto. }
    unfold Readiness.awaited in *.
    destruct (PodScheduled p) eqn:E1; simpl.
    2:{ apply Hskip. intros (H & _). discriminate. }
    destruct (PodCompleted p) eqn:E2; simpl.
    { apply Hskip. intros (_ & H & _). discriminate. }
    destruct (PodWantsHostNetwork p) eqn:E3; simpl.
    { apply Hskip. intros (_ & _ & H & _). discriminate. }
    destruct (String.eqb (podNodeName p) name) eqn:E4; simpl.
    2:{ apply String.eqb_neq in E4. apply Hskip. intros (_ & _ & _ & H). contradiction. }
    apply String.eqb_eq in E4.
    rewrite bind_snd.
    destruct (snd (portExists k (podNamespace p) (podName p))) eqn:E5; simpl.
    + apply Hskip. intros _. reflexivity.
    + split; [discriminate|]. intros H.
      specialize (H p (list_elem_of_here _ _)).
      rewrite E1, E2, E3, E5 in H. apply H. auto.
Qed.

(** X12. The third block of the barrier sets its flag in a pass exactly when the
    pods can be listed and every pod scheduled on this node that is neither
    completed nor on the host network has its port binding in the southbound
    database.  Pods of other nodes are not waited for. *)
Theorem pods_ready_spec (k : nat) (vars : hackVars) :
  syncPods vars = false ->
  syncPods (fst (snd (podsBlock k vars))) = true <->
  exists pods,
    GetAllPods (world k) = inr pods
    /\ forall p, p ∈ pods -> awaited p ->
         snd (portExists k (podNamespace p) (podName p)) = true.
Proof.
  intros Hflag. unfold Controller.podsBlock. rewrite bind_snd. cbn [emit snd].
  destruct (GetAllPods (world k)) as [err|pods] eqn:Eg.
  - simpl. rewrite Hflag. split; [discriminate|]. intros (pods & E & _). discriminate.
  - rewrite bind_snd.
    destruct (snd (podsLoop k pods)) eqn:El; simpl.
    + split; [|reflexivity]. intros _. exists pods. split; [reflexivity|].
      apply podsLoop_true. exact El.
    + rewrite Hflag. split; [discriminate|]. intros (pods' & E & H).
      injection E as <-. apply podsLoop_true in H. congruence.
Qed.

#[local] Abbreviation servicesBlock := (servicesBlock world).
#[local] Abbreviation nodesReady := (nodesReady cfg name world).
#[local] Abbreviation servicesReady := (servicesReady world).
#[local] Abbreviation podsReady := (podsReady GetLogicalPortName name world).

Lemma nodesBlock_go (k : nat) (vars : hackVars) :
  snd (snd (nodesBlock k vars)) = true <-> nodesReady k.
Proof.
  unfold Controller.nodesBlock, Readiness.nodesReady. rewrite bind_snd. cbn [emit snd].
  destruct (GetNodes (world k)) as [err|nodes] eqn:Eg.
  - simpl. split; [discriminate|]. intros (nodes & E & _). discriminate.
  - rewrite bind_snd.
    destruct (snd (nodesLoop k nodes)) as [e|] eqn:El; simpl.
    + split; [discriminate|]. intros (nodes' & E & H).
      injection E as <-. apply nodesLoop_none in H. congruence.
    + split; [|reflexivity]. intros _. exists nodes. split; [reflexivity|].
      apply nodesLoop_none. exact El.
Qed.

Lemma servicesBlock_go (k : nat) (vars : hackVars) :
  snd (snd (servicesBlock k vars)) = true <-> servicesReady k.
Proof.
  unfold Controller.servicesBlock, Readiness.servicesReady. rewrite bind_snd. cbn [emit snd].
  destruct (GetServices (world k)) as [err|services] eqn:Eg.
  - simpl. split; [discriminate|]. intros (services & E & _). discriminate.
  - rewrite bind_snd.
    destruct (servicesLoop (snd (fetchLBNames world k)) services) eqn:El; simpl.
    + split; [|reflexivity]. intros _. exists services. split; [reflexivity|].
      apply servicesLoop_spec. exact El.
    + split; [discriminate|]. intros (services' & E & H).
      injection E as <-. apply servicesLoop_spec in H. congruence.
Qed.

Lemma podsBlock_go (k : nat) (vars : hackVars) :
  snd (snd (podsBlock k vars)) = true <-> podsReady k.
Proof.
  unfold Controller.podsBlock, Readiness.podsReady. rewrite bind_snd. cbn [emit snd].
  destruct (GetAllPods (world k)) as [err|pods] eqn:Eg.
  - simpl. split; [discriminate|]. intros (pods & E & _). discriminate.
  - rewrite bind_snd.
    destruct (snd (podsLoop k pods)) eqn:El; simpl.
    + split; [|reflexivity]. intros _. exists pods. split; [reflexivity|].
      apply podsLoop_true. exact El.
    + split; [discriminate|]. intros (pods' & E & H).
      injection E as <-. apply podsLoop_true in H. congruence.
Qed.

(** The flags one pass of the barrier leaves. *)
Lemma pass_flags (k : nat) (vars : hackVars) :
  (syncNodes (fst (snd (hackCondition k vars))) = true
   <-> syncNodes vars = true \/ nodesReady k)
  /\ (syncServices (fst (snd (hackCondition k vars))) = true
      <-> syncServices vars = true
          \/ (syncNodes (fst (snd (hackCondition k vars))) = true /\ servicesReady k))
  /\ (syncPods (fst (snd (hackCondition k vars))) = true
      <-> syncPods vars = true
          \/ (syncNodes (fst (snd (hackCondition k vars))) = true
              /\ syncServices (fst (snd (hackCondition k vars))) = true
              /\ podsReady k)).
Proof.
  assert (T : true = true) by reflexivity.
  assert (NF : ~ false = true) by discriminate.
  unfold Controller.hackCondition. rewrite bind_snd.
  destruct (guarded_nodes cfg name world k vars)
    as (t1 & vars1 & go1 & E1 & _ & _ & Hpre1 & Hn1 & Hs1 & Hp1).
  assert (Hgo1 : go1 = true <-> syncNodes vars = true \/ nodesReady k).
  { unfold guarded in E1. destruct (syncNodes vars) eqn:F.
    - injection E1 as _ _ <-. tauto.
    - rewrite <- (nodesBlock_go k vars), E1. cbn [snd]. tauto. }
  rewrite E1. cbn [snd]. destruct go1; cbn [negb].
  2:{ cbn [ret fst snd]. rewrite Hn1, Hs1, Hp1. tauto. }
  rewrite bind_snd.
  destruct (guarded_services world k vars1)
    as (t2 & vars2 & go2 & E2 & _ & _ & Hpre2 & Hn2 & Hs2 & Hp2).
  assert (Hgo2 : go2 = true <-> syncServices vars = true \/ servicesReady k).
  { rewrite <- Hs1. unfold guarded in E2. destruct (syncServices vars1) eqn:F.
    - injection E2 as _ _ <-. tauto.
    - rewrite <- (servicesBlock_go k vars1), E2. cbn [snd]. tauto. }
  rewrite E2. cbn [snd]. destruct go2; cbn [negb].
  2:{ cbn [ret fst snd]. rewrite Hn2, Hs2, Hp2, Hn1, Hp1. tauto. }
  rewrite bind_snd.
  destruct (guarded_pods GetLogicalPortName name world k vars2)
    as (t3 & vars3 & go3 & E3 & _ & _ & Hpre3 & Hn3 & Hs3 & Hp3).
  assert (Hgo3 : go3 = true <-> syncPods vars = true \/ podsReady k).
  { rewrite <- Hp1, <- Hp2. unfold guarded in E3. destruct (syncPods vars2) eqn:F.
    - injection E3 as _ _ <-. tauto.
    - rewrite <- (podsBlock_go k vars2), E3. cbn [snd]. tauto. }
  rewrite E3. cbn [snd].
  assert (F1 : syncNodes vars3 = true) by (rewrite Hn3, Hn2, Hn1; reflexivity).
  assert (F2 : syncServices vars3 = true) by (rewrite Hs3, Hs2; reflexivity).
  destruct go3; cbn [negb ret fst snd]; rewrite F1, F2, Hp3; tauto.
Qed.

(** X24. One pass of the barrier answers that the cluster is ready exactly when
    each of its three flags is already set or can be set in this pass: the
    nodes are ready, the services are ready, the pods are ready, each as
    this very pass finds them. *)
Theorem hackCondition_done (k : nat) (vars : hackVars) :
  snd (snd (hackCondition k vars)) = true
  <-> (syncNodes vars = true \/ nodesReady k)
      /\ (syncServices vars = true \/ servicesReady k)
      /\ (syncPods vars = true \/ podsReady k).
Proof.
  rewrite (pass_done GetLogicalPortName cfg name world k vars).
  destruct (pass_flags k vars) as (H1 & H2 & H3).
  rewrite !andb_true_iff. rewrite H3, H2, H1. tauto.
Qed.

Lemma barrier_poll (n : nat) :
  forall (k : nat) (vars : hackVars),
    snd (snd (pollFrom hackCondition n k vars)) = None
    <-> exists k1 k2 k3,
          (k <= k1 <= k2)%nat /\ (k2 <= k3 < k + n)%nat
          /\ (syncNodes vars = true \/ nodesReady k1)
          /\ (syncServices vars = true \/ servicesReady k2)
          /\ (syncPods vars = true \/ podsReady k3).
Proof.
  induction n as [|n IH]; intros k vars.
  - simpl. split; [discriminate|]. intros (k1 & k2 & k3 & H1 & H2 & _). lia.
  - cbn [pollFrom]. rewrite bind_snd.
    pose proof (pass_done GetLogicalPortName cfg name world k vars) as Hdone.
    destruct (pass_flags k vars) as (F1 & F2 & F3).
    destruct (snd (hackCondition k vars)) as [vars' done] eqn:E.
    cbn [fst snd] in *. destruct done.
    + cbn [ret snd]. split; [intros _|reflexivity].
      symmetry in Hdone. rewrite !andb_true_iff in Hdone.
      destruct Hdone as [[D1 D2] D3].
      exists k, k, k. split; [lia|]. split; [lia|].
      apply F1 in D1. apply F2 in D2. apply F3 in D3. tauto.
    + rewrite IH. split.
      * intros (k1 & k2 & k3 & Hk1 & Hk3 & C1 & C2 & C3).
        destruct (syncNodes vars') eqn:N'.
        2:{ destruct C1 as [C1|C1]; [discriminate|].
            assert (N0 : ~ (syncNodes vars = true \/ nodesReady k)) by (rewrite <- F1; discriminate).
            destruct (syncServices vars') eqn:S'.
            - assert (S0 : syncServices vars = true).
              { destruct (proj1 F2 eq_refl) as [H|[H _]]; [exact H | discriminate]. }
              destruct (syncPods vars') eqn:P'.
              + assert (P0 : syncPods vars = true).
                { destruct (proj1 F3 eq_refl) as [H|[H _]]; [exact H | discriminate]. }
                exists k1, k1, k1. repeat split; auto; lia.
              + exists k1, k1, k3. destruct C3 as [C3|C3]; [discriminate|].
                repeat split; auto; lia.
            - destruct C2 as [C2|C2]; [discriminate|].
              destruct (syncPods vars') eqn:P'.
              + assert (P0 : syncPods vars = true).
                { destruct (proj1 F3 eq_refl) as [H|[H _]]; [exact H | discriminate]. }
                exists k1, k2, k2. repeat split; auto; lia.
              + destruct C3 as [C3|C3]; [discriminate|].
                exists k1, k2, k3. repeat split; auto; lia. }
        assert (N0 : syncNodes vars = true \/ nodesReady k) by (apply F1; reflexivity).
        destruct (syncServices vars') eqn:S'.
        2:{ destruct C2 as [C2|C2]; [discriminate|].
            destruct (syncPods vars') eqn:P'.
            - assert (P0 : syncPods vars = true).
              { destruct (proj1 F3 eq_refl) as [H|(_ & H & _)]; [exact H | discriminate]. }
              exists k, k2, k2. repeat split; auto; lia.
            - destruct C3 as [C3|C3]; [discriminate|].
              exists k, k2, k3. repeat split; auto; lia. }
        assert (S0 : syncServices vars = true \/ servicesReady k).
        { destruct (proj1 F2 eq_refl) as [H|[_ H]]; auto. }
        destruct (syncPods vars') eqn:P'.
        { discriminate Hdone. }
        destruct C3 as [C3|C3]; [discriminate|].
        exists k, k, k3. repeat split; auto; lia.
      * intros (k1 & k2 & k3 & Hk1 & Hk3 & C1 & C2 & C3).
        assert (N' : k1 = k -> syncNodes vars' = true).
        { intros ->. apply F1. exact C1. }
        assert (S' : k2 = k -> syncServices vars' = true).
        { intros ->. apply F2. destruct C2 as [C2|C2]; [auto|].
          right. split; [apply N'; lia | exact C2]. }
        assert (P' : k3 = k -> syncPods vars' = true).
        { intros ->. apply F3. destruct C3 as [C3|C3]; [auto|].
          right. split; [apply N'; lia|]. split; [apply S'; lia | exact C3]. }
        assert (Hk : (k < k3)%nat).
        { destruct (decide (k3 = k)) as [->|]; [|lia].
          rewrite N', S', P' in Hdone by lia. discriminate Hdone. }
        exists (Nat.max k1 (S k)), (Nat.max k2 (S k)), k3.
        split; [lia|]. split; [lia|]. split; [|split].
        -- destruct (decide (k1 = k)) as [->|]; [left; apply N'; reflexivity|].
           destruct C1 as [C1|C1]; [left; apply F1; auto|].
           right. replace (Nat.max k1 (S k)) with k1 by lia. exact C1.
        -- destruct (decide (k2 = k)) as [->|]; [left; apply S'; reflexivity|].
           destruct C2 as [C2|C2]; [left; apply F2; auto|].
           right. replace (Nat.max k2 (S k)) with k2 by lia. exact C2.
        -- destruct C3 as [C3|C3]; [left; apply F3; auto | right; exact C3].
Qed.

(** X25. The wait of the barrier succeeds exactly when, within its 600 passes,
    some pass finds the nodes ready, the same or a later pass finds the
    services ready, and that or a later pass finds the pods ready.  The three
    need not hold in one and the same pass: a flag once set is not put to the
    test again. *)
Theorem barrier_succeeds_iff :
  snd (snd barrierRun) = None
  <-> exists k1 k2 k3,
        (k1 <= k2)%nat /\ (k2 <= k3 < 600)%nat
        /\ nodesReady k1 /\ servicesReady k2 /\ podsReady k3.
Proof.
  unfold PollUntilContextTimeout. rewrite attempts_barrier, barrier_poll.
  split.
  - intros (k1 & k2 & k3 & H1 & H2 & [C1|C1] & [C2|C2] & [C3|C3]);
      try discriminate. exists k1, k2, k3. repeat split; auto; lia.
  - intros (k1 & k2 & k3 & H1 & H2 & C1 & C2 & C3).
    exists k1, k2, k3. repeat split; auto; lia.
Qed.

End Readiness.

Section Outcome.

Variable OvnDefaultZone : string.
Variable GetLogicalPortName : string -> string -> string.
Variable cfg : Config.
Variable name : string.
Variable world : nat -> World.
Variable SetNodeZoneMigrated : string -> option error.
Variable AnnotatorRun : option error.
Variable SetDBAuth : OvnDB -> option error.

#[local] Abbreviation hackCondition := (hackCondition GetLogicalPortName cfg name world).
#[local] Abbreviation Start_upgradeHack :=
  (Start_upgradeHack OvnDefaultZone GetLogicalPortName cfg name world
     SetNodeZoneMigrated AnnotatorRun SetDBAuth).
#[local] Abbreviation barrierRun :=
  (PollUntilContextTimeout hackInterval hackTimeout hackCondition hackVars0).

(** X13. How the barrier ends.  When its guard does not hold it does nothing.
    When it holds, [Start] goes on exactly when the wait succeeds and the
    marker write, the persistence call and both credential retargets succeed;
    it has then made, after the queries of the wait, these four calls once
    each and in this order.  A marker write that fails ends the process
    before anything else is called. *)
Theorem Start_upgradeHack_outcome (sbZone : string) (node : Node) :
  (hackGuard OvnDefaultZone cfg sbZone node = false ->
   Start_upgradeHack sbZone node = ([], Continues))
  /\ (hackGuard OvnDefaultZone cfg sbZone node = true ->
      (snd (Start_upgradeHack sbZone node) = Continues
       <-> snd (snd barrierRun) = None
           /\ SetNodeZoneMigrated sbZone = None
           /\ AnnotatorRun = None
           /\ SetDBAuth OvnNorth = None
           /\ SetDBAuth OvnSouth = None)
      /\ (snd (Start_upgradeHack sbZone node) = Continues ->
          fst (Start_upgradeHack sbZone node)
          = fst barrierRun
            ++ [EvSetNodeZoneMigrated sbZone; EvAnnotatorRun;
                EvSetDBAuth OvnNorth; EvSetDBAuth OvnSouth])
      /\ (snd (snd barrierRun) = None ->
          SetNodeZoneMigrated sbZone <> None ->
          fst (Start_upgradeHack sbZone node)
          = fst barrierRun ++ [EvSetNodeZoneMigrated sbZone]
          /\ exists msg, snd (Start_upgradeHack sbZone node) = Exits msg)).
Proof.
  unfold Controller.Start_upgradeHack. split; intros Hg; rewrite Hg; [reflexivity|].
  rewrite authLoop_both.
  destruct barrierRun as [t [vars err]]. cbn [fst snd]. unfold bind, emit, ret.
  destruct err as [e|]; simpl.
  { rewrite app_nil_r. repeat split; try discriminate.
    intros (H & _). discriminate. }
  destruct (SetNodeZoneMigrated sbZone) as [e1|]; simpl.
  { repeat split; try discriminate; eauto.
    intros (_ & H & _). discriminate. }
  destruct AnnotatorRun as [e2|]; simpl.
  { repeat split; try discriminate; try contradiction.
    intros (_ & _ & H & _). discriminate. }
  destruct (SetDBAuth OvnNorth) as [e3|]; simpl.
  { repeat split; try discriminate; try contradiction.
    intros (_ & _ & _ & H & _). discriminate. }
  destruct (SetDBAuth OvnSouth) as [e4|]; simpl.
  { repeat split; try discriminate; try contradiction.
    intros (_ & _ & _ & _ & H). discriminate. }
  repeat split; try contradiction; reflexivity.
Qed.

End Outcome.

Import Examples MoreExamples.

Lemma nodes_ready_spec_witness :
  syncNodes hackVars0 = false
  /\ syncNodes (fst (snd (nodesBlock cfgA "node1" readyWorld 0 hackVars0))) = true.
Proof.
  assert (H : syncNodes hackVars0 = false) by reflexivity.
  split; [exact H|].
  apply (nodes_ready_spec cfgA "node1" readyWorld 0 hackVars0 H).
  exists [nodeA; nodeB]. split; [reflexivity|].
  intros node Hn Hr. apply elem_of_cons in Hn as [->|Hn].
  - destruct Hr as [Hr _]. exfalso. apply Hr. reflexivity.
  - apply list_elem_of_singleton in Hn as ->. right. exists [subnetB].
    split; [reflexivity|]. intros s Hs. apply list_elem_of_singleton in Hs as ->.
    reflexivity.
Defined.

Lemma pods_ready_spec_witness :
  syncPods hackVars0 = false
  /\ syncPods (fst (snd (podsBlock portName "node1" readyWorld 0 hackVars0))) = true.
Proof.
  assert (H : syncPods hackVars0 = false) by reflexivity.
  split; [exact H|].
  apply (pods_ready_spec portName "node1" readyWorld 0 hackVars0 H).
  exists [pod1]. split; [reflexivity|].
  intros p Hp _. apply list_elem_of_singleton in Hp as ->. reflexivity.
Defined.

(** The load balancer of the one service appears for the third pass only:
    the nodes are found ready in the first pass, the services and the pods in
    the third. *)
Lemma barrier_succeeds_iff_witness :
  snd (snd (PollUntilContextTimeout hackInterval hackTimeout
              (hackCondition portName cfgA "node1" slowServicesWorld) hackVars0))
  = None.
Proof.
  apply (barrier_succeeds_iff portName cfgA "node1" slowServicesWorld).
  exists 0%nat, 2%nat, 2%nat. split; [lia|]. split; [lia|]. split; [|split].
  - exists []. split; [reflexivity|]. intros node Hn. inversion Hn.
  - exists [web]. split; [reflexivity|]. intros s Hs _ _.
    apply list_elem_of_singleton in Hs as ->. vm_compute. reflexivity.
  - exists []. split; [reflexivity|]. intros p Hp. inversion Hp.
Defined.

Lemma Start_upgradeHack_outcome_witness :
  hackGuard "global" cfgA "zoneA" nodeA = true
  /\ snd (Start_upgradeHack "global" portName cfgA "node1" readyWorld
            (fun _ => None) None (fun _ => None) "zoneA" nodeA)
     = Continues.
Proof.
  assert (Hg : hackGuard "global" cfgA "zoneA" nodeA = true) by reflexivity.
  split; [exact Hg|].
  destruct (Start_upgradeHack_outcome "global" portName cfgA "node1" readyWorld
              (fun _ => None) None (fun _ => None) "zoneA" nodeA) as [_ H].
  destruct (H Hg) as (Hiff & _). apply Hiff.
  repeat split; vm_compute; reflexivity.
Defined.

End ReadinessProps.

(** ** What the two conntrack passes request and report *)

Module StaleProps.

Import Conntrack BarrierProps ConntrackProps Stale.

Section Reconcile.

Variable ExternalGatewayPodIPsAnnotation : string.
Variable RoutingExternalGWsAnnotation : string.
Variable GetAdminPolicyBasedExternalRouteIPsForTargetNamespace :
  string -> error + gset string.
Variable IsIPv6String : string -> bool.
Variable GetMACAddressFromARP : string -> error + list Byte.byte.
Variable GetPods : string -> error + list Pod.
Variable DeleteConntrack :
  string -> Z -> Protocol -> ConntrackFilterType -> list (list Byte.byte) -> option error.
Variable ServiceNamespacedNameFromEndpointSlice : EndpointSlice -> error + string * string.
Variable GetService : string -> string -> error + Service.
Variable DoesEndpointSliceContainEndpoint :
  EndpointSlice -> string -> Z -> Protocol -> option Service -> bool.
Variable ParseIPSloppy : string -> string.
Variable DeleteConntrackServicePort :
  string -> Z -> Protocol -> ConntrackFilterType -> list (list Byte.byte) -> option error.

#[local] Abbreviation resolve := (resolve IsIPv6String GetMACAddressFromARP).
#[local] Abbreviation resolveAll := (resolveAll IsIPv6String GetMACAddressFromARP).
#[local] Abbreviation resolvesTo := (resolvesTo IsIPv6String GetMACAddressFromARP).
#[local] Abbreviation insertAnnotations :=
  (insertAnnotations ExternalGatewayPodIPsAnnotation RoutingExternalGWsAnnotation).
#[local] Abbreviation podErrors := (podErrors DeleteConntrack).
#[local] Abbreviation syncConntrackForExternalGateways :=
  (syncConntrackForExternalGateways ExternalGatewayPodIPsAnnotation
     RoutingExternalGWsAnnotation GetAdminPolicyBasedExternalRouteIPsForTargetNamespace
     IsIPv6String GetMACAddressFromARP GetPods DeleteConntrack).
#[local] Abbreviation addressesLoop :=
  (addressesLoop DoesEndpointSliceContainEndpoint ParseIPSloppy DeleteConntrackServicePort).
#[local] Abbreviation endpointsLoop :=
  (endpointsLoop DoesEndpointSliceContainEndpoint ParseIPSloppy DeleteConntrackServicePort).
#[local] Abbreviation portsLoop :=
  (portsLoop DoesEndpointSliceContainEndpoint ParseIPSloppy DeleteConntrackServicePort).
#[local] Abbreviation reconcileConntrackUponEndpointSliceEvents :=
  (reconcileConntrackUponEndpointSliceEvents ServiceNamespacedNameFromEndpointSlice
     GetService DoesEndpointSliceContainEndpoint ParseIPSloppy DeleteConntrackServicePort).
#[local] Abbreviation kept := (kept DoesEndpointSliceContainEndpoint ParseIPSloppy).
#[local] Abbreviation staleAddresses :=
  (staleAddresses DoesEndpointSliceContainEndpoint ParseIPSloppy).
#[local] Abbreviation staleEntries :=
  (staleEntries DoesEndpointSliceContainEndpoint ParseIPSloppy).

Lemma resolve_lookup (gwIPs : list string) (gwIP : string) (mac : list Byte.byte) :
  foldr resolve ∅ gwIPs !! gwIP = Some mac <-> gwIP ∈ gwIPs /\ resolvesTo gwIP mac.
Proof.
  induction gwIPs as [|a rest IH]; cbn [foldr].
  - rewrite lookup_empty. split; [discriminate|]. intros [H _]. inversion H.
  - assert (Hskip : (forall m, ~ resolvesTo a m) ->
                    (foldr resolve ∅ rest !! gwIP = Some mac
                     <-> gwIP ∈ a :: rest /\ resolvesTo gwIP mac)).
    { intros Hn. rewrite IH. split.
      - intros [H1 H2]. split; [apply elem_of_cons; auto | exact H2].
      - intros [H1 H2]. split; [|exact H2].
        apply elem_of_cons in H1 as [->|H1]; [|exact H1].
        exfalso. exact (Hn mac H2). }
    unfold Conntrack.resolve at 1.
    destruct (String.eqb a "") eqn:Ee; simpl.
    { apply String.eqb_eq in Ee. apply Hskip. intros m (H & _). contradiction. }
    destruct (IsIPv6String a) eqn:E6; simpl.
    { apply Hskip. intros m (_ & H & _). congruence. }
    destruct (GetMACAddressFromARP a) as [err|hwAddr] eqn:Ea.
    { apply Hskip. intros m (_ & _ & hw & H & _). congruence. }
    destruct hwAddr as [|b hwAddr]; simpl.
    { apply Hskip. intros m (_ & _ & hw & H & Hne & _). congruence. }
    apply String.eqb_neq in Ee.
    destruct (decide (gwIP = a)) as [->|Hne].
    + rewrite lookup_insert_eq, reverse_rev. split.
      * intros [= <-]. split; [apply list_elem_of_here|].
        repeat split; [exact Ee | exact E6 |].
        exists (b :: hwAddr). repeat split; [exact Ea | discriminate].
      * intros (_ & _ & _ & hw & H & _ & ->). rewrite Ea in H. injection H as <-.
        reflexivity.
    + rewrite lookup_insert_ne by congruence. rewrite IH. split.
      * intros [H1 H2]. split; [apply elem_of_cons; auto | exact H2].
      * intros [H1 H2]. split; [|exact H2].
        apply elem_of_cons in H1 as [->|H1]; [contradiction | exact H1].
Qed.

Lemma resolveAll_values (gatewayIPs : gset string) (mac : list Byte.byte) :
  mac ∈ (map_to_list (resolveAll gatewayIPs)).*2
  <-> exists gwIP, gwIP ∈ gatewayIPs /\ resolvesTo gwIP mac.
Proof.
  rewrite list_elem_of_fmap. split.
  - intros ([gwIP m] & -> & H). apply elem_of_map_to_list in H.
    apply resolve_lookup in H as [H1 H2]. apply elem_of_elements in H1. eauto.
  - intros (gwIP & H1 & H2). exists (gwIP, mac). split; [reflexivity|].
    apply elem_of_map_to_list, resolve_lookup. split; [|exact H2].
    apply elem_of_elements. exact H1.
Qed.

(** X14. The allow-list of the external-gateway pass.  When at least one gateway
    IP resolves, the list holds the byte-wise reversed hardware address of
    every non-empty IPv4 gateway IP whose resolution gave a non-empty address,
    and nothing else.  The sentinel is then in the list only as such a
    reversed address: it is not in the list when every hardware address the
    resolution gives is shorter than the sentinel's 25 bytes.  When no gateway
    IP resolves, the list is the sentinel alone. *)
Theorem allowList_spec (gatewayIPs : gset string) :
  ((exists gwIP mac, gwIP ∈ gatewayIPs /\ resolvesTo gwIP mac) ->
   (forall mac,
      mac ∈ allowList (resolveAll gatewayIPs)
      <-> exists gwIP, gwIP ∈ gatewayIPs /\ resolvesTo gwIP mac)
   /\ (sentinel ∈ allowList (resolveAll gatewayIPs)
       <-> exists gwIP hwAddr,
             gwIP ∈ gatewayIPs /\ gwIP <> "" /\ IsIPv6String gwIP = false
             /\ GetMACAddressFromARP gwIP = inr hwAddr /\ hwAddr = rev sentinel)
   /\ ((forall gwIP hwAddr,
          gwIP ∈ gatewayIPs -> GetMACAddressFromARP gwIP = inr hwAddr ->
          (length hwAddr < 25)%nat) ->
       sentinel ∉ allowList (resolveAll gatewayIPs)))
  /\ ((forall gwIP mac, gwIP ∈ gatewayIPs -> ~ resolvesTo gwIP mac) ->
      allowList (resolveAll gatewayIPs) = [sentinel]).
Proof.
  unfold allowList. split.
  - intros (gwIP & mac0 & H1 & H2).
    assert (Hin : mac0 ∈ (map_to_list (resolveAll gatewayIPs)).*2).
    { apply resolveAll_values. eauto. }
    destruct ((map_to_list (resolveAll gatewayIPs)).*2) as [|m l] eqn:E.
    { inversion Hin. }
    cbn [length Nat.eqb]. rewrite <- E.
    assert (Hs : sentinel ∈ (map_to_list (resolveAll gatewayIPs)).*2
                 <-> exists gwIP hwAddr,
                       gwIP ∈ gatewayIPs /\ gwIP <> "" /\ IsIPv6String gwIP = false
                       /\ GetMACAddressFromARP gwIP = inr hwAddr
                       /\ hwAddr = rev sentinel).
    { rewrite resolveAll_values. split.
      - intros (g & Hg & Hne & H6 & hw & Ha & _ & Hrev).
        exists g, hw. repeat split; auto.
        rewrite Hrev, rev_involutive. reflexivity.
      - intros (g & hw & Hg & Hne & H6 & Ha & ->).
        exists g. split; [exact Hg|]. repeat split; auto.
        exists (rev sentinel). split; [exact Ha|]. split.
        + intros X. apply (f_equal length) in X. vm_compute in X. discriminate X.
        + rewrite rev_involutive. reflexivity. }
    split; [|split].
    + intros mac. apply resolveAll_values.
    + exact Hs.
    + intros Hshort Hsent. apply Hs in Hsent as (g & hw & Hg & _ & _ & Ha & ->).
      specialize (Hshort g (rev sentinel) Hg Ha). vm_compute in Hshort. lia.
  - intros Hnone.
    destruct ((map_to_list (resolveAll gatewayIPs)).*2) as [|m l] eqn:E; [reflexivity|].
    exfalso. assert (Hin : m ∈ (map_to_list (resolveAll gatewayIPs)).*2).
    { rewrite E. apply list_elem_of_here. }
    apply resolveAll_values in Hin as (gwIP & H1 & H2). exact (Hnone gwIP m H1 H2).
Qed.

Lemma flat_map_nil {A B : Type} (f : A -> list B) (l : list A) :
  flat_map f l = [] <-> forall x, x ∈ l -> f x = [].
Proof.
  induction l as [|a l IH]; simpl.
  - split; [intros _ x Hx; inversion Hx | reflexivity].
  - split.
    + intros H. apply app_eq_nil in H as [H1 H2]. intros x Hx.
      apply elem_of_cons in Hx as [->|Hx]; [exact H1 | exact (proj1 IH H2 x Hx)].
    + intros H. rewrite (H a (list_elem_of_here _ _)). simpl. apply IH.
      intros x Hx. apply H, elem_of_cons. auto.
Qed.

(** X15. What the external-gateway pass requests and reports.  When the gateway
    IPs or the pods cannot be looked up it requests no deletion and returns an
    error.  Otherwise it requests the deletion for every IP of every pod,
    whatever fails on the way, and returns [nil] exactly when no deletion
    failed and no pod's addresses failed to be read for another reason than
    the pod having none. *)
Theorem syncConntrack_reports (newNs : Namespace) :
  (forall err,
     GetAdminPolicyBasedExternalRouteIPsForTargetNamespace (nsName newNs) = inl err ->
     fst (syncConntrackForExternalGateways newNs) = []
     /\ is_Some (snd (syncConntrackForExternalGateways newNs)))
  /\ (forall gatewayIPs0 err,
        GetAdminPolicyBasedExternalRouteIPsForTargetNamespace (nsName newNs)
        = inr gatewayIPs0 ->
        GetPods (nsName newNs) = inl err ->
        fst (syncConntrackForExternalGateways newNs) = []
        /\ is_Some (snd (syncConntrackForExternalGateways newNs)))
  /\ (forall gatewayIPs0 pods,
        GetAdminPolicyBasedExternalRouteIPsForTargetNamespace (nsName newNs)
        = inr gatewayIPs0 ->
        GetPods (nsName newNs) = inr pods ->
        fst (syncConntrackForExternalGateways newNs)
        = flat_map
            (fun pod =>
               map (deletionFor (allowList (resolveAll (insertAnnotations newNs gatewayIPs0))))
                   (fst (GetPodIPsOfNetwork pod))) pods
        /\ (snd (syncConntrackForExternalGateways newNs) = None
            <-> forall pod, pod ∈ pods ->
                  (forall e, snd (GetPodIPsOfNetwork pod) = Some e ->
                             IsErrNoPodIPFound e = true)
                  /\ forall podIP, podIP ∈ fst (GetPodIPsOfNetwork pod) ->
                       DeleteConntrack podIP 0 ProtocolUDP ConntrackOrigDstIP
                         (allowList (resolveAll (insertAnnotations newNs gatewayIPs0)))
                       = None)).
Proof.
  split; [|split].
  - intros err E. unfold Conntrack.syncConntrackForExternalGateways. rewrite E.
    simpl. eauto.
  - intros gatewayIPs0 err E1 E2. unfold Conntrack.syncConntrackForExternalGateways.
    rewrite E1, E2. simpl. eauto.
  - intros gatewayIPs0 pods E1 E2.
    rewrite (syncConntrack_run _ _ _ _ _ _ _ newNs gatewayIPs0 pods E1 E2).
    cbn [fst snd]. split; [reflexivity|].
    set (macs := allowList (resolveAll (insertAnnotations newNs gatewayIPs0))).
    assert (Hagg : forall errs : list error, NewAggregate errs = None <-> errs = []).
    { intros [|e errs]; simpl; split; congruence. }
    rewrite Hagg, flat_map_nil. split.
    + intros H pod Hpod. specialize (H pod Hpod). unfold Conntrack.podErrors in H.
      apply app_eq_nil in H as [H1 H2]. split.
      * intros e He. rewrite He in H1. destruct (IsErrNoPodIPFound e); [reflexivity|].
        discriminate H1.
      * intros podIP Hip. rewrite flat_map_nil in H2. specialize (H2 podIP Hip).
        unfold Conntrack.deletionError in H2.
        destruct (DeleteConntrack podIP 0 ProtocolUDP ConntrackOrigDstIP macs);
          [discriminate H2 | reflexivity].
    + intros H pod Hpod. destruct (H pod Hpod) as [H1 H2].
      unfold Conntrack.podErrors. apply app_nil. split.
      * destruct (snd (GetPodIPsOfNetwork pod)) as [e|]; [|reflexivity].
        rewrite (H1 e eq_refl). reflexivity.
      * apply flat_map_nil. intros podIP Hip. unfold Conntrack.deletionError.
        rewrite (H2 podIP Hip). reflexivity.
Qed.

Lemma addressesLoop_stale (new : option EndpointSlice) (svc : option Service)
    (oldPort : EndpointPort) (port : Z) (addresses : list string) :
  portPort oldPort = Some port ->
  addressesLoop new svc oldPort ProtocolUDP addresses
  = (flat_map
       (fun oldIP =>
          if kept new svc oldIP port then []
          else [EvDeleteConntrackServicePort (ParseIPSloppy oldIP) port ProtocolUDP
                  ConntrackReplyAnyIP []])
       addresses,
     Returned tt).
Proof.
  intros Hport. induction addresses as [|oldIP rest IH]; [reflexivity|].
  cbn [Conntrack.addressesLoop flat_map]. rewrite Hport. unfold Stale.kept at 1.
  destruct (match new with Some _ => _ | None => _ end); [exact IH|].
  unfold bind, emit.
  destruct (DeleteConntrackServicePort _ _ _ _ _); rewrite IH; reflexivity.
Qed.

Lemma endpointsLoop_stale (new : option EndpointSlice) (svc : option Service)
    (oldPort : EndpointPort) (port : Z) (endpoints : list Endpoint) :
  portPort oldPort = Some port ->
  endpointsLoop new svc oldPort ProtocolUDP endpoints
  = (staleAddresses new svc port endpoints, Returned tt).
Proof.
  intros Hport. induction endpoints as [|oldEndpoint rest IH]; [reflexivity|].
  cbn [Conntrack.endpointsLoop]. rewrite (addressesLoop_stale _ _ _ port) by exact Hport.
  unfold bind. rewrite IH. reflexivity.
Qed.

Lemma portsLoop_stale (new : option EndpointSlice) (svc : option Service)
    (endpoints : list Endpoint) (ports : list EndpointPort) :
  Forall portSet ports ->
  portsLoop new svc endpoints ports
  = (flat_map
       (fun oldPort =>
          match portProtocol oldPort, portPort oldPort with
          | Some ProtocolUDP, Some port => staleAddresses new svc port endpoints
          | _, _ => []
          end)
       ports,
     Returned tt).
Proof.
  induction 1 as [|oldPort rest [[protocol Hp] [port Hn]] _ IH]; [reflexivity|].
  cbn [Conntrack.portsLoop flat_map]. rewrite Hp, Hn.
  destruct protocol; simpl; try exact IH.
  rewrite (endpointsLoop_stale _ _ _ port) by exact Hn.
  unfold bind. rewrite IH. reflexivity.
Qed.

(** X16. The endpoint-slice pass, for an old slice whose ports have protocol and
    number set and whose service is found or reported as not found: it
    requests the deletion of the UDP entries of exactly those addresses of the
    old slice that the new slice does not contain any more (all of them when
    there is no new slice), port after port in the order of the old slice, and
    returns [nil]. *)
Theorem reconcile_deletes_exactly (old : EndpointSlice) (new : option EndpointSlice)
    (namespace name : string) :
  ServiceNamespacedNameFromEndpointSlice old = inr (namespace, name) ->
  (forall err, GetService namespace name = inl err -> IsNotFound err = true) ->
  Forall portSet (Ports old) ->
  reconcileConntrackUponEndpointSliceEvents (Some old) new
  = (staleEntries old new (foundService (GetService namespace name)), Returned None).
Proof.
  intros Hname Hsvc Hports.
  rewrite (reconcile_loops _ _ _ _ _ old new namespace name Hname Hsvc).
  rewrite (portsLoop_stale _ _ _ _ Hports). reflexivity.
Qed.

(** X17. The endpoint-slice pass neither requests nor returns anything that
    depends on what the connection tracker answers: with two trackers that
    answer differently it makes the same requests and returns the same value,
    so that no failure of a deletion can stop it or show in its result. *)
Theorem reconcile_tracker_independent
    (tracker1 tracker2 : string -> Z -> Protocol -> ConntrackFilterType ->
                         list (list Byte.byte) -> option error)
    (old new : option EndpointSlice) :
  Conntrack.reconcileConntrackUponEndpointSliceEvents
    ServiceNamespacedNameFromEndpointSlice GetService DoesEndpointSliceContainEndpoint
    ParseIPSloppy tracker1 old new
  = Conntrack.reconcileConntrackUponEndpointSliceEvents
      ServiceNamespacedNameFromEndpointSlice GetService DoesEndpointSliceContainEndpoint
      ParseIPSloppy tracker2 old new.
Proof.
  rewrite (reconcile_ignores_answers ServiceNamespacedNameFromEndpointSlice GetService
             DoesEndpointSliceContainEndpoint ParseIPSloppy tracker2 tracker1 old new).
  reflexivity.
Qed.

End Reconcile.

Import Examples MoreExamples.

Lemma allowList_spec_witness :
  rev gatewayMAC ∈ allowList (resolveAll hasColon arpAnswers {[ "192.0.2.1" ]})
  /\ sentinel ∉ allowList (resolveAll hasColon arpAnswers {[ "192.0.2.1" ]}).
Proof.
  assert (H : "192.0.2.1" ∈ ({[ "192.0.2.1" ]} : gset string)
              /\ resolvesTo hasColon arpAnswers "192.0.2.1" (rev gatewayMAC)).
  { split; [apply elem_of_singleton; reflexivity|].
    split; [discriminate|]. split; [reflexivity|].
    exists gatewayMAC. split; [reflexivity|]. split; [discriminate | reflexivity]. }
  destruct (allowList_spec hasColon arpAnswers {[ "192.0.2.1" ]}) as [Hsome _].
  destruct Hsome as (Hall & _ & Hshort); [eauto|].
  split.
  - apply Hall. eauto.
  - apply Hshort. intros gwIP hwAddr Hg Ha.
    apply elem_of_singleton in Hg as ->. injection Ha as <-. simpl. lia.
Defined.

Lemma syncConntrack_reports_witness :
  snd (syncConntrackForExternalGateways "k8s.ovn.org/external-gw-pod-ips"
         "k8s.ovn.org/routing-external-gws" noPolicy hasColon arpAnswers getPods comply ns1)
  = None.
Proof.
  destruct (syncConntrack_reports "k8s.ovn.org/external-gw-pod-ips"
              "k8s.ovn.org/routing-external-gws" noPolicy hasColon arpAnswers getPods
              comply ns1) as (_ & _ & H).
  destruct (H ∅ [pod1; pod2] eq_refl eq_refl) as [_ Hiff]. apply Hiff.
  intros pod Hpod. split; [|reflexivity].
  intros e He. apply elem_of_cons in Hpod as [->|Hpod]; [discriminate He|].
  apply list_elem_of_singleton in Hpod as ->. discriminate He.
Defined.

Lemma reconcile_deletes_exactly_witness :
  reconcileConntrackUponEndpointSliceEvents serviceNameOf (fun _ _ => inr dns)
    containsEndpoint (fun ip => ip) refuse (Some dnsSlice) (Some dnsSliceEmpty)
  = ([EvDeleteConntrackServicePort "10.244.1.5" 53 ProtocolUDP ConntrackReplyAnyIP []],
     Returned None).
Proof.
  rewrite (reconcile_deletes_exactly serviceNameOf (fun _ _ => inr dns) containsEndpoint
             (fun ip => ip) refuse dnsSlice (Some dnsSliceEmpty) "default" "dns").
  - reflexivity.
  - reflexivity.
  - intros err E. discriminate E.
  - repeat constructor; eexists; reflexivity.
Defined.

End StaleProps.

(** ** The heartbeat between the accelerator and its host *)

Module HeartbeatRunProps.

Import Heartbeat HeartbeatRun Beats.

Lemma fold_Apply_given (opts : list HeartbeatOption) (o : heartbeatOptions) :
  let o1 := fold_left (fun o opt => Apply opt o) opts o in
  holderIdentity o1 = given pickHolderIdentity opts (holderIdentity o)
  /\ leaseDurationSeconds o1 = given pickLeaseDurationSeconds opts (leaseDurationSeconds o)
  /\ leaseNS o1 = given pickLeaseNS opts (leaseNS o)
  /\ mode o1 = given pickMode opts (mode o)
  /\ interval o1 = given pickInterval opts (interval o).
Proof.
  unfold given. induction opts as [|opt opts IH] using rev_ind; [repeat split|].
  cbv zeta in *. rewrite fold_left_app. cbn [fold_left].
  destruct IH as (H1 & H2 & H3 & H4 & H5).
  rewrite !omap_app.
  destruct opt; cbn [omap list_omap pickHolderIdentity pickLeaseDurationSeconds
                     pickLeaseNS pickMode pickInterval Apply holderIdentity
                     leaseDurationSeconds leaseNS mode interval];
    rewrite ?app_nil_r, ?last_snoc; cbn [default from_option]; repeat split; assumption.
Qed.

Section Run.

Variable NodeModeDPU : string.
Variable NodeModeDPUHost : string.
Variable Get : error + Lease.
Variable Create : Lease -> option Lease * option error.
Variable Update : nat -> Lease -> error + Lease.
Variable Delete : option error.
Variable List : nat -> error + list Lease.
Variable clock : nat -> Z.
Variable hostClock : nat -> nat -> Z.

#[local] Abbreviation newHeartbeat := (newHeartbeat NodeModeDPU).
#[local] Abbreviation update := (update Update).
#[local] Abbreviation dpuLoop := (dpuLoop Update Delete clock).
#[local] Abbreviation runDPUNode := (runDPUNode Get Create Update Delete clock).
#[local] Abbreviation hostLoop := (hostLoop List hostClock).
#[local] Abbreviation runDPUHost := (runDPUHost List hostClock).
#[local] Abbreviation run :=
  (run NodeModeDPU NodeModeDPUHost Get Create Update Delete List clock hostClock).
#[local] Abbreviation hostTick := (hostTick List hostClock).

Lemma newHeartbeat_fields (nodeName0 : string) (opts : list HeartbeatOption) :
  let h := newHeartbeat nodeName0 opts in
  holderIdentity (options h) = given pickHolderIdentity opts ""
  /\ leaseDurationSeconds (options h)
     = (if Z.eqb (given pickLeaseDurationSeconds opts 0) 0 then 40
        else given pickLeaseDurationSeconds opts 0)
  /\ leaseNS (options h)
     = (if String.eqb (given pickLeaseNS opts "") "" then "dpu-lease-zone"
        else given pickLeaseNS opts "")
  /\ interval (options h)
     = (if Z.eqb (given pickInterval opts 0) 0 then 10000000000
        else given pickInterval opts 0)
  /\ mode (options h)
     = (if String.eqb (given pickMode opts "") "" then NodeModeDPU
        else given pickMode opts "").
Proof.
  cbv zeta. unfold HeartbeatRun.newHeartbeat.
  destruct (fold_Apply_given opts
              {| holderIdentity := ""; leaseDurationSeconds := 0; leaseNS := "";
                 mode := ""; interval := 0 |}) as (H1 & H2 & H3 & H4 & H5).
  cbv zeta in H1, H2, H3, H4, H5. cbn [holderIdentity leaseDurationSeconds leaseNS mode
                                       interval] in H1, H2, H3, H4, H5.
  set (o1 := fold_left _ opts _) in *. clearbody o1.
  cbn [options].
  rewrite <- H1, <- H2, <- H3, <- H4, <- H5.
  destruct (Z.eqb (leaseDurationSeconds o1) 0) eqn:Ed;
    destruct (String.eqb (leaseNS o1) "") eqn:En;
    destruct (Z.eqb (interval o1) 0) eqn:Ei;
    destruct (String.eqb (mode o1) "") eqn:Em;
    cbn [Apply holderIdentity leaseDurationSeconds leaseNS mode interval];
    rewrite ?En, ?Ei, ?Em;
    cbn [Apply holderIdentity leaseDurationSeconds leaseNS mode interval];
    rewrite ?Ei, ?Em;
    cbn [Apply holderIdentity leaseDurationSeconds leaseNS mode interval];
    rewrite ?Em;
    cbn [Apply holderIdentity leaseDurationSeconds leaseNS mode interval];
    repeat split; reflexivity.
Qed.

(** X18. [newHeartbeat] takes each setting from the last option of its kind and
    replaces a setting that is missing, zero or empty by its default: 40
    seconds, the namespace [dpu-lease-zone], 10 seconds, the DPU mode.  The
    heartbeat it builds has no lease yet, and neither its lease duration, nor
    its namespace, nor its interval is zero or empty. *)
Theorem newHeartbeat_spec (nodeName0 : string) (opts : list HeartbeatOption) :
  let h := newHeartbeat nodeName0 opts in
  nodeName h = nodeName0
  /\ lease h = None
  /\ holderIdentity (options h) = given pickHolderIdentity opts ""
  /\ leaseDurationSeconds (options h)
     = (if Z.eqb (given pickLeaseDurationSeconds opts 0) 0 then 40
        else given pickLeaseDurationSeconds opts 0)
  /\ leaseNS (options h)
     = (if String.eqb (given pickLeaseNS opts "") "" then "dpu-lease-zone"
        else given pickLeaseNS opts "")
  /\ interval (options h)
     = (if Z.eqb (given pickInterval opts 0) 0 then 10000000000
        else given pickInterval opts 0)
  /\ mode (options h)
     = (if String.eqb (given pickMode opts "") "" then NodeModeDPU
        else given pickMode opts "")
  /\ leaseDurationSeconds (options h) <> 0
  /\ leaseNS (options h) <> ""
  /\ interval (options h) <> 0.
Proof.
  cbv zeta.
  destruct (newHeartbeat_fields nodeName0 opts) as (H1 & H2 & H3 & H4 & H5).
  cbv zeta in H1, H2, H3, H4, H5.
  split; [reflexivity|]. split; [reflexivity|].
  split; [exact H1|]. split; [exact H2|]. split; [exact H3|].
  split; [exact H4|]. split; [exact H5|].
  rewrite H2, H3, H4. repeat split.
  - destruct (Z.eqb (given pickLeaseDurationSeconds opts 0) 0) eqn:E;
      [discriminate | apply Z.eqb_neq, E].
  - destruct (String.eqb (given pickLeaseNS opts "") "") eqn:E;
      [discriminate | apply String.eqb_neq, E].
  - destruct (Z.eqb (given pickInterval opts 0) 0) eqn:E;
      [discriminate | apply Z.eqb_neq, E].
Qed.

(** X19. [run] of a heartbeat built by [newHeartbeat]: without a mode option, or
    with an empty one, it runs the accelerator side; with another mode than
    the two it knows it returns an error and calls nothing. *)
Theorem run_spec (n : nat) (nodeName0 : string) (opts : list HeartbeatOption) :
  let h := newHeartbeat nodeName0 opts in
  let v := given pickMode opts "" in
  (v = "" \/ v = NodeModeDPU -> run n h = runDPUNode n h)
  /\ (v <> "" -> v <> NodeModeDPU -> v = NodeModeDPUHost -> run n h = runDPUHost n h)
  /\ (v <> "" -> v <> NodeModeDPU -> v <> NodeModeDPUHost ->
      run n h = ([], Returned (Some (Errorf ("unknown node mode: " +:+ v))))).
Proof.
  cbv zeta.
  destruct (newHeartbeat_fields nodeName0 opts) as (_ & _ & _ & _ & Hm).
  cbv zeta in Hm. unfold HeartbeatRun.run. rewrite Hm.
  destruct (String.eqb (given pickMode opts "") "") eqn:Ee.
  - apply String.eqb_eq in Ee. rewrite String.eqb_refl.
    repeat split; try reflexivity; intros; congruence.
  - apply String.eqb_neq in Ee. repeat split.
    + intros [H| ->]; [contradiction|]. rewrite String.eqb_refl. reflexivity.
    + intros _ Hd Hh. apply String.eqb_neq in Hd. rewrite Hd, Hh, String.eqb_refl.
      reflexivity.
    + intros _ Hd Hh. apply String.eqb_neq in Hd, Hh. rewrite Hd, Hh. reflexivity.
Qed.

Lemma update_answer (h : heartbeat) (i : nat) (l : Lease) (leaseSpec : LeaseSpec) :
  lease h = Some l ->
  exists err l',
    update h i leaseSpec
    = ([CallUpdate (leaseNS (options h)) {| Name := Name l; Spec := leaseSpec |}],
       (err, withLease h (Some l')))
    /\ (Update i {| Name := Name l; Spec := leaseSpec |} = inr l' /\ err = None
        \/ l' = {| Name := Name l; Spec := leaseSpec |} /\ is_Some err).
Proof.
  intros Hl. unfold HeartbeatRun.update. rewrite Hl.
  destruct (Update i _) as [e|answered] eqn:E; eauto 8.
Qed.

Lemma Forall_isRenewal_cons (ns : string) (c : call) (sent t : list call) :
  isRenewal ns c ->
  Forall (isRenewal ns) sent ->
  Forall (isRenewal ns) t ->
  Forall (isRenewal ns) ([c] ++ sent ++ t).
Proof. intros H1 H2 H3. apply Forall_app. split; [auto | apply Forall_app; auto]. Qed.

(** The renewal loop of a heartbeat that holds a lease with an acquire time,
    against a server that keeps the acquire time: it does not panic, it sends
    one update per tick and every failure on the channel, and ends with the
    deletion. *)
Lemma dpuLoop_renews (n : nat) :
  echoes Update ->
  forall (i : nat) (h : heartbeat) (l : Lease) (a : Z),
    lease h = Some l ->
    AcquireTime (Spec l) = Some a ->
    exists t,
      dpuLoop n i h
      = (t ++ [CallDelete (leaseNS (options h)) (nodeName h); Send Delete], Returned tt)
      /\ updatedSpecs t = map (fun j => createLeaseSpec h a (clock j)) (seq i n)
      /\ Forall (isRenewal (leaseNS (options h))) t.
Proof.
  intros Hecho. induction n as [|n IH]; intros i h l a Hl Ha.
  - exists []. repeat split. constructor.
  - cbn [HeartbeatRun.dpuLoop]. rewrite Hl, Ha.
    destruct (update_answer h i l (createLeaseSpec h a (clock i)) Hl)
      as (err & l' & -> & Hans).
    assert (Ha' : AcquireTime (Spec l') = Some a).
    { destruct Hans as [[E _]|[-> _]]; [|reflexivity].
      rewrite (Hecho _ _ _ E). reflexivity. }
    destruct (IH (S i) (withLease h (Some l')) l' a eq_refl Ha') as (t & -> & Hspecs & Hall).
    cbn [withLease options nodeName] in *.
    exists ([CallUpdate (leaseNS (options h))
               {| Name := Name l; Spec := createLeaseSpec h a (clock i) |}]
            ++ match err with Some e => [Send (Some e)] | None => [] end ++ t).
    repeat split.
    + rewrite <- !app_assoc. reflexivity.
    + unfold updatedSpecs in *. cbn [flat_map app Spec seq map].
      rewrite flat_map_app, Hspecs. destruct err; reflexivity.
    + apply Forall_isRenewal_cons; [left; eauto | | exact Hall].
      destruct err as [e|]; [constructor; [right; eauto | constructor] | constructor].
Qed.

(** X20. [runDPUNode] adopting a lease it finds.  When the lease exists with an
    acquire time, the first update succeeds and the server keeps the acquire
    time in its answers, a run of [n] ticks never panics: after the one lookup
    it sends [n + 1] updates, the first one for the lease that was found.
    Every update carries the holder identity and the lease duration of the
    heartbeat, the acquire time that was found and, as renew time, the reading
    of the clock taken for it, whether or not the updates after the first
    succeed.  It creates nothing, and at cancellation deletes the lease and
    sends the result of the deletion last. *)
Theorem runDPUNode_adopts (n : nat) (h : heartbeat) (l l1 : Lease) (a : Z) :
  Get = inr l ->
  AcquireTime (Spec l) = Some a ->
  Update 0
    {| Name := Name l;
       Spec := {| HolderIdentity := Some (holderIdentity (options h));
                  LeaseDurationSeconds := Some (leaseDurationSeconds (options h));
                  AcquireTime := Some a;
                  RenewTime := Some (clock 0) |} |}
  = inr l1 ->
  echoes Update ->
  exists t,
    runDPUNode n h
    = (CallGet (leaseNS (options h)) (nodeName h)
       :: CallUpdate (leaseNS (options h))
            {| Name := Name l;
               Spec := {| HolderIdentity := Some (holderIdentity (options h));
                          LeaseDurationSeconds := Some (leaseDurationSeconds (options h));
                          AcquireTime := Some a;
                          RenewTime := Some (clock 0) |} |}
       :: t ++ [CallDelete (leaseNS (options h)) (nodeName h); Send Delete],
       Returned None)
    /\ updatedSpecs t
       = map (fun i =>
                {| HolderIdentity := Some (holderIdentity (options h));
                   LeaseDurationSeconds := Some (leaseDurationSeconds (options h));
                   AcquireTime := Some a;
                   RenewTime := Some (clock i) |})
             (seq 1 n)
    /\ Forall (isRenewal (leaseNS (options h))) t.
Proof.
  intros Hget Ha Hupd Hecho.
  unfold HeartbeatRun.runDPUNode, get. rewrite Hget, Ha.
  unfold HeartbeatRun.update. cbn [lease withLease options nodeName].
  change (createLeaseSpec (withLease h (Some l)) a (clock 0))
    with {| HolderIdentity := Some (holderIdentity (options h));
            LeaseDurationSeconds := Some (leaseDurationSeconds (options h));
            AcquireTime := Some a;
            RenewTime := Some (clock 0) |}.
  rewrite Hupd.
  assert (Ha1 : AcquireTime (Spec l1) = Some a).
  { rewrite (Hecho _ _ _ Hupd). reflexivity. }
  destruct (dpuLoop_renews n Hecho 1 (withLease (withLease h (Some l)) (Some l1))
              l1 a eq_refl Ha1) as (t & -> & Hspecs & Hall).
  cbn [withLease options nodeName] in *.
  exists t. split; [reflexivity|]. split; [|exact Hall].
  rewrite Hspecs. reflexivity.
Qed.

(** X21. [runDPUNode] creating the lease.  When the lookup says the lease does not
    exist, the next request creates, in the lease namespace, a lease of the
    node's name with the holder identity and the lease duration of the
    heartbeat and with the first reading of the clock as both acquire and renew
    time.  When the creation fails, its error is returned and nothing else is
    requested.  When it succeeds and the server keeps the acquire time, the [n]
    updates that follow all carry that acquire time and, as renew time, the
    later readings of the clock, and the run ends with the deletion and the
    send of its result. *)
Theorem runDPUNode_creates (n : nat) (h : heartbeat) (e : error) :
  Get = inl e ->
  IsNotFound e = true ->
  (exists t,
     fst (runDPUNode n h)
     = CallGet (leaseNS (options h)) (nodeName h)
       :: CallCreate (leaseNS (options h))
            {| Name := nodeName h;
               Spec := {| HolderIdentity := Some (holderIdentity (options h));
                          LeaseDurationSeconds := Some (leaseDurationSeconds (options h));
                          AcquireTime := Some (clock 0);
                          RenewTime := Some (clock 0) |} |}
       :: t)
  /\ (forall answered e1,
        Create
          {| Name := nodeName h;
             Spec := {| HolderIdentity := Some (holderIdentity (options h));
                        LeaseDurationSeconds := Some (leaseDurationSeconds (options h));
                        AcquireTime := Some (clock 0);
                        RenewTime := Some (clock 0) |} |}
        = (answered, Some e1) ->
        runDPUNode n h
        = ([CallGet (leaseNS (options h)) (nodeName h);
            CallCreate (leaseNS (options h))
              {| Name := nodeName h;
                 Spec := {| HolderIdentity := Some (holderIdentity (options h));
                            LeaseDurationSeconds := Some (leaseDurationSeconds (options h));
                            AcquireTime := Some (clock 0);
                            RenewTime := Some (clock 0) |} |}],
           Returned (Some e1)))
  /\ (forall l1,
        Create
          {| Name := nodeName h;
             Spec := {| HolderIdentity := Some (holderIdentity (options h));
                        LeaseDurationSeconds := Some (leaseDurationSeconds (options h));
                        AcquireTime := Some (clock 0);
                        RenewTime := Some (clock 0) |} |}
        = (Some l1, None) ->
        AcquireTime (Spec l1) = Some (clock 0) ->
        echoes Update ->
        exists t,
          runDPUNode n h
          = (CallGet (leaseNS (options h)) (nodeName h)
             :: CallCreate (leaseNS (options h))
                  {| Name := nodeName h;
                     Spec := {| HolderIdentity := Some (holderIdentity (options h));
                                LeaseDurationSeconds :=
                                  Some (leaseDurationSeconds (options h));
                                AcquireTime := Some (clock 0);
                                RenewTime := Some (clock 0) |} |}
             :: t ++ [CallDelete (leaseNS (options h)) (nodeName h); Send Delete],
             Returned None)
          /\ updatedSpecs t
             = map (fun i =>
                      {| HolderIdentity := Some (holderIdentity (options h));
                         LeaseDurationSeconds := Some (leaseDurationSeconds (options h));
                         AcquireTime := Some (clock 0);
                         RenewTime := Some (clock i) |})
                   (seq 1 n)
          /\ Forall (isRenewal (leaseNS (options h))) t).
Proof.
  intros Hget Hnf.
  unfold HeartbeatRun.runDPUNode, get. rewrite Hget, Hnf. cbn [negb].
  unfold HeartbeatRun.create.
  change (createLeaseSpec h (clock 0) (clock 0))
    with {| HolderIdentity := Some (holderIdentity (options h));
            LeaseDurationSeconds := Some (leaseDurationSeconds (options h));
            AcquireTime := Some (clock 0);
            RenewTime := Some (clock 0) |}.
  split; [|split].
  - destruct (Create _) as [answered [e1|]]; [eexists; reflexivity|].
    destruct (dpuLoop n 1 (withLease h answered)) as [t2 r]. eexists. reflexivity.
  - intros answered e1 Hcreate. rewrite Hcreate. reflexivity.
  - intros l1 Hcreate Ha1 Hecho. rewrite Hcreate.
    destruct (dpuLoop_renews n Hecho 1 (withLease h (Some l1)) l1 (clock 0) eq_refl Ha1)
      as (t & -> & Hspecs & Hall).
    cbn [withLease options nodeName] in *.
    exists t. split; [reflexivity|]. split; [|exact Hall].
    rewrite Hspecs. reflexivity.
Qed.

Lemma dpuLoop_tail (n : nat) :
  forall (i : nat) (h : heartbeat) (t : list call) (r : unit),
    dpuLoop n i h = (t, Returned r) ->
    exists t0,
      t = t0 ++ [CallDelete (leaseNS (options h)) (nodeName h); Send Delete]
      /\ Forall (isRenewal (leaseNS (options h))) t0.
Proof.
  induction n as [|n IH]; intros i h t r E.
  - injection E as <-. exists []. split; [reflexivity | constructor].
  - cbn [HeartbeatRun.dpuLoop] in E.
    destruct (lease h) as [l|] eqn:Hl; [|discriminate].
    destruct (AcquireTime (Spec l)) as [a|]; [|discriminate].
    destruct (update_answer h i l (createLeaseSpec h a (clock i)) Hl)
      as (err & l' & Eu & _).
    rewrite Eu in E.
    destruct (dpuLoop n (S i) (withLease h (Some l'))) as [t' r'] eqn:El.
    injection E as <- Er. subst r'.
    destruct (IH _ _ _ _ El) as (t0 & -> & Hall).
    cbn [withLease options nodeName] in *.
    exists ([CallUpdate (leaseNS (options h))
               {| Name := Name l; Spec := createLeaseSpec h a (clock i) |}]
            ++ match err with Some e => [Send (Some e)] | None => [] end ++ t0).
    split; [rewrite <- !app_assoc; reflexivity|].
    apply Forall_isRenewal_cons; [left; eauto | | exact Hall].
    destruct err as [e|]; [constructor; [right; eauto | constructor] | constructor].
Qed.

Lemma isRenewal_not_delete (ns : string) (t : list call) :
  Forall (isRenewal ns) t -> Forall (fun c => ~ isDelete c) t.
Proof.
  intros Hall. eapply Forall_impl; [exact Hall|].
  intros c [[l ->]|[e ->]] (ns' & name & H); discriminate.
Qed.

Lemma isRenewal_sends (ns : string) (t : list call) :
  Forall (isRenewal ns) t -> Forall (fun c => c <> Send None) t.
Proof.
  intros Hall. eapply Forall_impl; [exact Hall|].
  intros c [[l ->]|[e ->]] H; discriminate.
Qed.

Lemma started_release (n : nat) (h h1 : heartbeat) (c0 c1 : call) :
  options h1 = options h ->
  nodeName h1 = nodeName h ->
  ~ isDelete c0 -> ~ isDelete c1 -> c0 <> Send None -> c1 <> Send None ->
  forall res,
    res = (let '(t2, r) := dpuLoop n 1 h1 in
           ([c0] ++ [c1] ++ t2,
            match r with Panic => Panic | Returned _ => Returned (@None error) end)) ->
    (forall e, snd res = Returned (Some e) -> notStarted (fst res))
    /\ (snd res = Returned None ->
        released (leaseNS (options h)) (nodeName h) Delete (fst res)).
Proof.
  intros Ho Hn Hd0 Hd1 Hs0 Hs1 res ->.
  destruct (dpuLoop n 1 h1) as [t2 r] eqn:El. cbn [fst snd]. split.
  - intros e E. destruct r; discriminate E.
  - intros E. destruct r as [[]|]; [|discriminate E].
    destruct (dpuLoop_tail n 1 h1 t2 tt El) as (t0 & -> & Hall).
    rewrite Ho, Hn in *. exists ([c0] ++ [c1] ++ t0).
    split; [rewrite <- !app_assoc; reflexivity|].
    split; repeat (apply Forall_app; split); repeat constructor; try assumption.
    + exact (isRenewal_not_delete _ _ Hall).
    + exact (isRenewal_sends _ _ Hall).
Qed.

Lemma failed_release (ns name : string) (t : list call) (e : error) :
  (length t <= 2)%nat ->
  Forall (fun c => (exists ns' name', c = CallGet ns' name')
                   \/ (exists ns' l, c = CallCreate ns' l)
                   \/ (exists ns' l, c = CallUpdate ns' l)) t ->
  forall res,
    res = (t, Returned (Some e)) ->
    (forall e', snd res = Returned (Some e') -> notStarted (fst res))
    /\ (snd res = Returned None -> released ns name Delete (fst res)).
Proof.
  intros Hlen Hall res ->. cbn [fst snd]. split; [|discriminate].
  intros _ _. split; [exact Hlen|].
  split; (eapply Forall_impl; [exact Hall|]).
  - intros c [(? & ? & ->)|[(? & ? & ->)|(? & ? & ->)]] (? & H); discriminate H.
  - intros c [(? & ? & ->)|[(? & ? & ->)|(? & ? & ->)]] (? & ? & H); discriminate H.
Qed.

(** X22. When [runDPUNode] returns an error it has not started renewing: it has
    made at most two requests, sent nothing on the error channel and not
    deleted the lease.  When it returns [nil] and runs until its context is
    cancelled, it deletes the lease once, as its last request, and the result
    of the deletion is the last thing it sends; whatever it sent before is a
    non-nil error. *)
Theorem runDPUNode_release (n : nat) (h : heartbeat) :
  (forall e, snd (runDPUNode n h) = Returned (Some e) -> notStarted (fst (runDPUNode n h)))
  /\ (snd (runDPUNode n h) = Returned None ->
      released (leaseNS (options h)) (nodeName h) Delete (fst (runDPUNode n h))).
Proof.
  assert (Hcreate :
    forall res,
      res = (let '(t1, (err1, h1)) :=
               create Create h (createLeaseSpec h (clock 0) (clock 0)) in
             match err1 with
             | Some e1 =>
                 ([CallGet (leaseNS (options h)) (nodeName h)] ++ t1, Returned (Some e1))
             | None =>
                 let '(t2, r) := dpuLoop n 1 h1 in
                 ([CallGet (leaseNS (options h)) (nodeName h)] ++ t1 ++ t2,
                  match r with Panic => Panic | Returned _ => Returned None end)
             end) ->
      (forall e, snd res = Returned (Some e) -> notStarted (fst res))
      /\ (snd res = Returned None ->
          released (leaseNS (options h)) (nodeName h) Delete (fst res))).
  { intros res ->. unfold HeartbeatRun.create.
    destruct (Create _) as [answered [e1|]].
    - eapply failed_release; [| |reflexivity]; [simpl; lia|].
      repeat (apply Forall_cons_2; [solve [eauto 7]|]). apply Forall_nil_2.
    - refine (started_release n h (withLease h answered)
                _ _ eq_refl eq_refl _ _ _ _ _ eq_refl);
        try discriminate; intros (? & ? & H); discriminate H. }
  unfold HeartbeatRun.runDPUNode, get.
  destruct Get as [e0|l].
  - destruct (IsNotFound e0); cbn [negb].
    + apply Hcreate. reflexivity.
    + eapply failed_release; [| |reflexivity]; [simpl; lia|].
      repeat (apply Forall_cons_2; [solve [eauto 7]|]). apply Forall_nil_2.
  - destruct (AcquireTime (Spec l)) as [a|].
    2:{ cbn [fst snd]. split; [intros e E | intros E]; discriminate E. }
    unfold HeartbeatRun.update. cbn [lease withLease].
    destruct (Update 0 _) as [e1|answered].
    + eapply failed_release; [| |reflexivity]; [simpl; lia|].
      repeat (apply Forall_cons_2; [solve [eauto 7]|]). apply Forall_nil_2.
    + refine (started_release n h (withLease (withLease h (Some l)) (Some answered))
                _ _ eq_refl eq_refl _ _ _ _ _ eq_refl);
        try discriminate; intros (? & ? & H); discriminate H.
Qed.

Lemma checkLeases_answer (clock0 : nat -> Z) (items : list Lease) :
  forall k valid err,
    checkLeases clock0 k items = Returned (valid, err) ->
    (valid = true /\ err = None) \/ (valid = false /\ is_Some err).
Proof.
  induction items as [|l rest IH]; intros k valid err E; simpl in E.
  - injection E as <- <-. auto.
  - destruct (RenewTime (Spec l)); [|discriminate].
    destruct (LeaseDurationSeconds (Spec l)); [|discriminate].
    destruct (expiredAt _ _ _); [|eauto].
    injection E as <- <-. eauto.
Qed.

Lemma isHeartBeatValid_answer (listed : error + list Lease) (ns : string)
    (clock0 : nat -> Z) (valid : bool) (err : option error) :
  isHeartBeatValid listed ns clock0 = Returned (valid, err) ->
  (valid = true /\ err = None) \/ (valid = false /\ is_Some err).
Proof.
  unfold isHeartBeatValid. destruct listed as [e|items].
  - intros [= <- <-]. eauto.
  - destruct (length items =? 0)%nat.
    + intros [= <- <-]. eauto.
    + apply checkLeases_answer.
Qed.

Lemma checkLeases_returns (clock0 : nat -> Z) (items : list Lease) :
  Forall set items ->
  forall k, exists r, checkLeases clock0 k items = Returned r.
Proof.
  induction 1 as [|l rest [[renew Hr] [d Hd]] _ IH]; intros k; simpl; [eauto|].
  rewrite Hr, Hd. destruct (expiredAt _ _ _); eauto.
Qed.

Lemma isHeartBeatValid_returns (listed : error + list Lease) (ns : string)
    (clock0 : nat -> Z) :
  (forall items, listed = inr items -> Forall set items) ->
  exists r, isHeartBeatValid listed ns clock0 = Returned r.
Proof.
  intros H. unfold isHeartBeatValid. destruct listed as [e|items]; [eauto|].
  destruct (length items =? 0)%nat; [eauto|].
  apply checkLeases_returns, H. reflexivity.
Qed.

Lemma hostLoop_ticks (n : nat) (h : heartbeat) :
  forall k,
    (forall j items, (k <= j < k + n)%nat -> List j = inr items -> Forall set items) ->
    hostLoop n k h
    = (flat_map (hostTick (leaseNS (options h))) (seq k n) ++ [Send None], Returned tt)
    /\ Forall (isCheck (leaseNS (options h)))
         (flat_map (hostTick (leaseNS (options h))) (seq k n)).
Proof.
  induction n as [|n IH]; intros k Hset; [split; [reflexivity | constructor]|].
  cbn [HeartbeatRun.hostLoop seq flat_map]. unfold Beats.hostTick at 1 3.
  destruct (isHeartBeatValid_returns (List k) (leaseNS (options h)) (hostClock k))
    as [[valid err] E].
  { intros items Hi. apply (Hset k); [lia | exact Hi]. }
  rewrite E.
  destruct (IH (S k)) as [-> Hall]; [intros j items Hj; apply Hset; lia|].
  destruct (isHeartBeatValid_answer _ _ _ _ _ E) as [[-> ->]|[-> [e ->]]].
  - simpl. split; [reflexivity|]. constructor; [left; reflexivity | exact Hall].
  - rewrite bool_decide_eq_true_2 by discriminate. simpl. split; [reflexivity|].
    constructor; [left; reflexivity|]. constructor; [right; eauto | exact Hall].
Qed.

(** X23. The host side of the heartbeat, as long as the leases it is shown have
    their renew time and duration set: it never panics and never writes.  In
    every tick it lists the leases once, and sends on the channel exactly when
    the check did not answer [(true, nil)]; what it sends then is a non-nil
    error.  At cancellation it sends [nil], the only [nil] it ever sends, and
    [runDPUHost] itself returns [nil]. *)
Theorem runDPUHost_spec (n : nat) (h : heartbeat) :
  (forall k items, (k < n)%nat -> List k = inr items -> Forall set items) ->
  runDPUHost n h
  = (flat_map (hostTick (leaseNS (options h))) (seq 0 n) ++ [Send None], Returned None)
  /\ Forall (isCheck (leaseNS (options h)))
       (flat_map (hostTick (leaseNS (options h))) (seq 0 n)).
Proof.
  intros Hset. unfold HeartbeatRun.runDPUHost.
  destruct (hostLoop_ticks n h 0) as [-> Hall].
  { intros j items Hj. apply Hset. lia. }
  split; [reflexivity | exact Hall].
Qed.

End Run.

Import Examples MoreExamples.

Lemma run_spec_witness :
  run "dpu" "dpu-host" (inl notFound) creates stores None listsBoth everyTenSeconds
    (fun _ => atSecond100) 2 (newHeartbeat "dpu" "node1" [])
  = runDPUNode (inl notFound) creates stores None everyTenSeconds 2
      (newHeartbeat "dpu" "node1" []).
Proof.
  destruct (run_spec "dpu" "dpu-host" (inl notFound) creates stores None listsBoth
              everyTenSeconds (fun _ => atSecond100) 2 "node1" []) as [H _].
  apply H. left. reflexivity.
Defined.

Lemma runDPUNode_adopts_witness :
  exists t,
    runDPUNode (inr freshLease) creates stores None everyTenSeconds 2 beat
    = (CallGet "dpu-lease-zone" "node1"
       :: CallUpdate "dpu-lease-zone"
            {| Name := "dpu-1";
               Spec := {| HolderIdentity := Some "node1";
                          LeaseDurationSeconds := Some 40;
                          AcquireTime := Some 0;
                          RenewTime := Some 0 |} |}
       :: t ++ [CallDelete "dpu-lease-zone" "node1"; Send None],
       Returned None)
    /\ updatedSpecs t
       = [{| HolderIdentity := Some "node1"; LeaseDurationSeconds := Some 40;
             AcquireTime := Some 0; RenewTime := Some 10000000000 |};
          {| HolderIdentity := Some "node1"; LeaseDurationSeconds := Some 40;
             AcquireTime := Some 0; RenewTime := Some 20000000000 |}]
    /\ Forall (isRenewal "dpu-lease-zone") t.
Proof.
  apply (runDPUNode_adopts (inr freshLease) creates stores None everyTenSeconds 2 beat
           freshLease
           {| Name := "dpu-1";
              Spec := {| HolderIdentity := Some "node1";
                         LeaseDurationSeconds := Some 40;
                         AcquireTime := Some 0;
                         RenewTime := Some 0 |} |} 0).
  - reflexivity.
  - reflexivity.
  - reflexivity.
  - intros i l answered E. injection E as <-. reflexivity.
Defined.

Lemma runDPUNode_creates_witness :
  exists t,
    runDPUNode (inl notFound) creates stores None everyTenSeconds 2 beat
    = (CallGet "dpu-lease-zone" "node1"
       :: CallCreate "dpu-lease-zone"
            {| Name := "node1";
               Spec := {| HolderIdentity := Some "node1";
                          LeaseDurationSeconds := Some 40;
                          AcquireTime := Some 0;
                          RenewTime := Some 0 |} |}
       :: t ++ [CallDelete "dpu-lease-zone" "node1"; Send None],
       Returned None)
    /\ updatedSpecs t
       = [{| HolderIdentity := Some "node1"; LeaseDurationSeconds := Some 40;
             AcquireTime := Some 0; RenewTime := Some 10000000000 |};
          {| HolderIdentity := Some "node1"; LeaseDurationSeconds := Some 40;
             AcquireTime := Some 0; RenewTime := Some 20000000000 |}]
    /\ Forall (isRenewal "dpu-lease-zone") t.
Proof.
  destruct (runDPUNode_creates (inl notFound) creates stores None everyTenSeconds 2 beat
              notFound eq_refl eq_refl) as (_ & _ & H).
  apply (H {| Name := "node1";
              Spec := {| HolderIdentity := Some "node1";
                         LeaseDurationSeconds := Some 40;
                         AcquireTime := Some 0;
                         RenewTime := Some 0 |} |}).
  - reflexivity.
  - reflexivity.
  - intros i l answered E. injection E as <-. reflexivity.
Defined.

Lemma runDPUNode_release_witness :
  notStarted
    (fst (runDPUNode (inl (Errorf "connection refused")) creates stores None
            everyTenSeconds 2 beat)).
Proof.
  destruct (runDPUNode_release (inl (Errorf "connection refused")) creates stores None
              everyTenSeconds 2 beat) as [H _].
  apply (H (Errorf "connection refused")). reflexivity.
Defined.

Lemma runDPUHost_spec_witness :
  runDPUHost listsBoth (fun _ => atSecond100) 1 beat
  = ([CallList "dpu-lease-zone"; Send (Some (Errorf "lease dpu-2 is expired"));
      Send None],
     Returned None).
Proof.
  destruct (runDPUHost_spec listsBoth (fun _ => atSecond100) 1 beat) as [E _].
  - intros k items _ Hl. injection Hl as <-.
    repeat constructor; eexists; reflexivity.
  - rewrite E. vm_compute. reflexivity.
Defined.

End HeartbeatRunProps.
